(** * HealthCheck_Bot: the report parser, embedded and verified

    A shallow embedding of the document core of the repository's report
    parser (text normalizer, section classifier, table detector, chunk
    splitter and text-pattern metrics extractor), followed by the theorems
    that settle the specification's claims about it.  The embedding goes on
    with the code around the parser: [parseReport], the upload route that
    calls it, the report store the route writes to and the truncation of a
    stored report for the chat prompt; the theorems about them follow the
    claims.

    Conventions of the embedding.
    - A JavaScript string is the list of its UTF-16 code units ([list N]).
    - A JavaScript regular expression is a value of [regex]; the matcher
      [rmatch] is the backtracking matcher of the language standard written
      in continuation-passing style, so that greedy and lazy quantifiers,
      alternation order, lookahead and capture groups behave as in the
      source.  Every pattern of the source is transcribed next to its
      original text.
    - Indices and lengths are [nat].  The numbers of the metrics are
      JavaScript numbers, that is binary64 floats: [jsnum] is the type of
      the primitive floats, with their addition, product and comparisons;
      [parseInt] and [Math.round] are computed exactly and rounded to the
      nearest float.
    - The chunk identifiers (fresh random UUIDs) and the optional page
      number, which the parser never sets, are left out of the [chunk]
      record; the calls of [console.log] are left out of the functions.
    - A loop of the source that may run forever is a recursion on a fuel
      that is large enough whenever the loop ends; the result is [None] when
      the fuel runs out.
    - The calls that leave the program (the PDF and DOC libraries, the
      decoding of a buffer, the vision model, the clock and the drawing of a
      session identifier) are parameters of the functions that make them;
      the outcome of a call is a value, an exception or no end.
    - [String.prototype.toLowerCase] depends on the Unicode tables of the
      runtime; it is a parameter of the development.  The instance
      [toLowerAscii] is exact on every string of ASCII characters and is
      used to run the code on concrete ASCII inputs. *)

From Stdlib Require Import Ascii String.
From Stdlib Require Import List NArith ZArith Bool Lia Arith PeanoNat.
From Stdlib Require Import Floats.
Set Warnings "-inexact-float".
Import ListNotations.
Open Scope nat_scope.

(* ------------------------------------------------------------------ *)
(** ** JavaScript strings *)

Module JsString.

Definition jsstring := list N.

Definition nl : N := 10%N.
Definition cr : N := 13%N.
Definition space : N := 32%N.

(** A literal of the development: the two characters backslash-n stand for a
    line feed, backslash-r for a carriage return, backslash-t for a tab. *)
Fixpoint unescape (l : list ascii) : jsstring :=
  match l with
  | [] => []
  | a :: t =>
      if (N_of_ascii a =? 92)%N then
        match t with
        | b :: t' =>
            if (N_of_ascii b =? 110)%N then nl :: unescape t'
            else if (N_of_ascii b =? 114)%N then cr :: unescape t'
            else if (N_of_ascii b =? 116)%N then 9%N :: unescape t'
            else N_of_ascii a :: unescape t
        | [] => [N_of_ascii a]
        end
      else N_of_ascii a :: unescape t
  end.

Definition js (s : string) : jsstring := unescape (list_ascii_of_string s).

(** The raw code units of a literal, without escapes. *)
Definition units (s : string) : jsstring := map N_of_ascii (list_ascii_of_string s).

Definition inRange (lo hi c : N) : bool := ((lo <=? c) && (c <=? hi))%N.

(** WhiteSpace and LineTerminator of the language standard: the characters
    matched by the class escape for white space and removed by [trim]. *)
Definition isLineTerminator (c : N) : bool :=
  ((c =? 10) || (c =? 13) || (c =? 8232) || (c =? 8233))%N.

Definition isWhiteSpace (c : N) : bool :=
  (inRange 9 13 c || (c =? 32) || (c =? 160) || (c =? 5760)
   || inRange 8192 8202 c || (c =? 8232) || (c =? 8233) || (c =? 8239)
   || (c =? 8287) || (c =? 12288) || (c =? 65279))%N.

Definition isDigit (c : N) : bool := inRange 48 57 c.
Definition isUpper (c : N) : bool := inRange 65 90 c.
Definition isLower (c : N) : bool := inRange 97 122 c.

Fixpoint dropWhile {A} (p : A -> bool) (l : list A) : list A :=
  match l with
  | [] => []
  | a :: t => if p a then dropWhile p t else l
  end.

Definition trimStart (s : jsstring) : jsstring := dropWhile isWhiteSpace s.
Definition trimEnd (s : jsstring) : jsstring := rev (dropWhile isWhiteSpace (rev s)).
Definition trim (s : jsstring) : jsstring := trimEnd (trimStart s).

(** [s.substring(a, b)]: both indices are clamped to the length and swapped
    when [a > b]. *)
Definition substring (s : jsstring) (a b : nat) : jsstring :=
  firstn (Nat.max a b - Nat.min a b) (skipn (Nat.min a b) s).

(** [s.substring(a)]. *)
Definition substringFrom (s : jsstring) (a : nat) : jsstring := skipn a s.

(** [s.slice(0, -k)] and [s.slice(-k)] for a positive [k]. *)
Definition sliceButLast (s : jsstring) (k : nat) : jsstring := firstn (length s - k) s.
Definition sliceLast (s : jsstring) (k : nat) : jsstring := skipn (length s - k) s.

Definition eqUnits (a b : jsstring) : bool :=
  (length a =? length b) && forallb (fun p => (fst p =? snd p)%N) (combine a b).

Definition startsWith (pat s : jsstring) : bool :=
  eqUnits pat (firstn (length pat) s).

(** [s.includes(pat)]. *)
Fixpoint includes (pat s : jsstring) : bool :=
  startsWith pat s ||
  match s with
  | [] => false
  | _ :: t => includes pat t
  end.

(** [s.lastIndexOf(pat)], with -1 when [pat] does not occur. *)
Fixpoint lastIndexFrom (pat s : jsstring) (i : Z) (best : Z) : Z :=
  let best' := if startsWith pat s then i else best in
  match s with
  | [] => best'
  | _ :: t => lastIndexFrom pat t (i + 1)%Z best'
  end.

Definition lastIndexOf (s pat : jsstring) : Z := lastIndexFrom pat s 0%Z (-1)%Z.

(** [s.split(sep)] for a one-character separator string. *)
Fixpoint splitChar (sep : N) (s : jsstring) : list jsstring :=
  match s with
  | [] => [[]]
  | c :: t =>
      if (c =? sep)%N then [] :: splitChar sep t
      else match splitChar sep t with
           | [] => [[c]]
           | p :: ps => (c :: p) :: ps
           end
  end.

(** [parts.join(sep)] for a one-character separator string. *)
Fixpoint join (sep : N) (parts : list jsstring) : jsstring :=
  match parts with
  | [] => []
  | [p] => p
  | p :: ps => p ++ sep :: join sep ps
  end.

(** ASCII lower-casing: what [toLowerCase] does on a string of ASCII
    characters. *)
Definition toLowerAscii (s : jsstring) : jsstring :=
  map (fun c => if isUpper c then (c + 32)%N else c) s.

(** Numbers.  A JavaScript number is a double-precision float: a value of
    the primitive type [float], with the not-a-number value, the two
    infinities and the two zeros. *)
Definition jsnum : Type := float.

Definition NaN : jsnum := nan.

(** The double nearest to an integer, a tie going to the even mantissa; an
    integer beyond the largest double becomes an infinity. *)
Definition toFloat (z : Z) : float :=
  SF2Prim (binary_normalize prec emax z 0 false).

(** The number written as the integer [z]. *)
Definition Num (z : Z) : jsnum := toFloat z.

(** [a + b] *)
Definition numAdd (a b : jsnum) : jsnum := (a + b)%float.

(** [a === b] on numbers: false on not-a-number, true on the two zeros. *)
Definition strictEq (a b : jsnum) : bool := (a =? b)%float.

(** [a > b] on numbers. *)
Definition numGt (a b : jsnum) : bool := (b <? a)%float.

(** The truth value of an optional number: unset, the two zeros and
    not-a-number are falsy. *)
Definition truthy (a : option jsnum) : bool :=
  match a with
  | Some x => negb (x =? 0)%float && (x =? x)%float
  | None => false
  end.

(** [a || 0] *)
Definition orZero (a : option jsnum) : jsnum :=
  match a with
  | Some x => if truthy a then x else 0%float
  | None => 0%float
  end.

(** [parseInt(s)] on a string without leading white space, sign or radix
    prefix (the only strings the parser passes to it are runs of decimal
    digits and their substrings): the double nearest to the value of the
    longest prefix of decimal digits, and not-a-number when there is none.
    The value is rounded once, from all the digits, as the engine of the
    runtime does (the language standard also allows an engine to read the
    digits after the twentieth as zeros). *)
Fixpoint digitsValue (acc : Z) (s : jsstring) : Z :=
  match s with
  | [] => acc
  | c :: t => if isDigit c then digitsValue (10 * acc + (Z.of_N c - 48))%Z t else acc
  end.

Definition parseInt (s : jsstring) : jsnum :=
  match s with
  | [] => NaN
  | c :: _ => if isDigit c then toFloat (digitsValue 0%Z s) else NaN
  end.

(** [Math.round(x)]: [x] itself when it is not finite or is an integer, and
    otherwise the integer nearest to [x], a tie going up; a result of zero
    keeps the sign of [x].  The value of a finite double is [m * 2^e], an
    integer when [e] is not negative and below 2^53 in size otherwise; the
    rounding is computed exactly. *)
Definition mathRound (x : float) : jsnum :=
  match Prim2SF x with
  | S754_finite s m e =>
      if (0 <=? e)%Z then x
      else
        let v := if s then Zneg m else Zpos m in
        let n := ((2 * v + 2 ^ (- e)) / 2 ^ (- e + 1))%Z in
        if (n =? 0)%Z then (if s then neg_zero else zero) else toFloat n
  | _ => x
  end.

End JsString.
Import JsString.

(* ------------------------------------------------------------------ *)
(** ** Regular expressions *)

Module Regex.

Inductive regex : Type :=
| Empty                                   (* the empty pattern *)
| Class (p : N -> bool)                   (* one character of a class *)
| Seq (r1 r2 : regex)                     (* concatenation *)
| Alt (r1 r2 : regex)                     (* r1|r2, left alternative first *)
| Star (greedy : bool) (r : regex)        (* r* and r*? *)
| Group (i : nat) (r : regex)             (* capture group number i *)
| Ahead (r : regex)                       (* (?=r) *)
| LineStart.                              (* ^ under the m flag *)

(** The state of a match: the index reached, the character before it, the
    text that remains and the captures made so far. *)
Record mstate : Type := mkState {
  pos : N;
  prev : option N;
  rest : jsstring;
  caps : list (nat * jsstring)
}.

Definition cont := mstate -> option mstate.

Definition advance (x : mstate) (c : N) (t : jsstring) : mstate :=
  mkState (N.succ (pos x)) (Some c) t (caps x).

Definition atLineStart (x : mstate) : bool :=
  match prev x with
  | None => true
  | Some c => isLineTerminator c
  end.

(** The backtracking matcher.  An iteration of a starred pattern that
    consumes nothing is rejected, as the standard prescribes, so the text
    that remains bounds the number of iterations. *)
Fixpoint rmatch (r : regex) (k : cont) (x : mstate) {struct r} : option mstate :=
  match r with
  | Empty => k x
  | Class p =>
      match rest x with
      | c :: t => if p c then k (advance x c t) else None
      | [] => None
      end
  | Seq r1 r2 => rmatch r1 (rmatch r2 k) x
  | Alt r1 r2 =>
      match rmatch r1 k x with
      | Some y => Some y
      | None => rmatch r2 k x
      end
  | Star greedy r1 =>
      (fix loop (fuel : nat) (x : mstate) {struct fuel} : option mstate :=
         match fuel with
         | O => k x
         | S fuel' =>
             let again := rmatch r1 (fun y => if (pos x <? pos y)%N then loop fuel' y else None) in
             if greedy then
               match again x with
               | Some y => Some y
               | None => k x
               end
             else
               match k x with
               | Some y => Some y
               | None => again x
               end
         end) (length (rest x)) x
  | Group i r1 =>
      rmatch r1 (fun y =>
        k (mkState (pos y) (prev y) (rest y)
             ((i, firstn (N.to_nat (pos y - pos x)) (rest x)) :: caps y))) x
  | Ahead r1 =>
      match rmatch r1 Some x with
      | Some y => k (mkState (pos x) (prev x) (rest x) (caps y))
      | None => None
      end
  | LineStart => if atLineStart x then k x else None
  end.

(** A match anchored at the state [x], with no capture made yet. *)
Definition matchAt (r : regex) (x : mstate) : option mstate :=
  rmatch r Some (mkState (pos x) (prev x) (rest x) []).

(** The leftmost match at or after [x]: the state where it starts and the
    state where it ends. *)
Fixpoint searchLoop (r : regex) (p : N) (pv : option N) (s : jsstring)
  : option (mstate * mstate) :=
  let x := mkState p pv s [] in
  match rmatch r Some x with
  | Some y => Some (x, y)
  | None =>
      match s with
      | [] => None
      | c :: t => searchLoop r (N.succ p) (Some c) t
      end
  end.

Definition search (r : regex) (x : mstate) : option (mstate * mstate) :=
  searchLoop r (pos x) (prev x) (rest x).

Definition start (s : jsstring) : mstate := mkState 0%N None s [].

Definition matched (x y : mstate) : jsstring :=
  firstn (N.to_nat (pos y - pos x)) (rest x).

Fixpoint capture (i : nat) (c : list (nat * jsstring)) : option jsstring :=
  match c with
  | [] => None
  | (j, v) :: t => if i =? j then Some v else capture i t
  end.

(** [r.test(s)] for a pattern without the g flag. *)
Definition test (r : regex) (s : jsstring) : bool :=
  match search r (start s) with
  | Some _ => true
  | None => false
  end.

(** The result of [s.match(r)] for a pattern without the g flag. *)
Record matchResult : Type := mkMatch {
  index : nat;
  whole : jsstring;
  groups : list (nat * jsstring)
}.

Definition jsMatch (s : jsstring) (r : regex) : option matchResult :=
  match search r (start s) with
  | Some (x, y) => Some (mkMatch (N.to_nat (pos x)) (matched x y) (caps y))
  | None => None
  end.

Definition group (i : nat) (m : matchResult) : option jsstring := capture i (groups m).

(** [s.match(r)] for a pattern with the g flag: all the matches, left to
    right, the search resuming one character further after an empty match. *)
Fixpoint matchAllLoop (r : regex) (fuel : nat) (x : mstate) : list jsstring :=
  match fuel with
  | O => []
  | S fuel' =>
      match search r x with
      | None => []
      | Some (x0, y) =>
          matched x0 y ::
          (if (pos y =? pos x0)%N then
             match rest y with
             | [] => []
             | c :: t => matchAllLoop r fuel' (advance y c t)
             end
           else matchAllLoop r fuel' y)
      end
  end.

Definition matchAll (s : jsstring) (r : regex) : list jsstring :=
  matchAllLoop r (S (length s)) (start s).

(** [s.replace(r, by)] for a pattern with the g flag and a replacement
    string without dollar patterns. *)
Fixpoint replaceLoop (r : regex) (by_ : jsstring) (fuel : nat) (x : mstate) : jsstring :=
  match fuel with
  | O => rest x
  | S fuel' =>
      match search r x with
      | None => rest x
      | Some (x0, y) =>
          matched x x0 ++ by_ ++
          (if (pos y =? pos x0)%N then
             match rest y with
             | [] => []
             | c :: t => c :: replaceLoop r by_ fuel' (advance y c t)
             end
           else replaceLoop r by_ fuel' y)
      end
  end.

Definition replaceAll (s : jsstring) (r : regex) (by_ : jsstring) : jsstring :=
  replaceLoop r by_ (S (length s)) (start s).

(** [s.split(r)]: the pieces between the matches, each match followed by its
    [ngroups] captures ([None] for a group that took no part).  [p] is the
    state after the previous separator, [x] the position being tried. *)
Fixpoint capturesOf (n : nat) (c : list (nat * jsstring)) : list (option jsstring) :=
  match n with
  | O => []
  | S n' => capturesOf n' c ++ [capture n c]
  end.

Fixpoint splitLoop (r : regex) (ngroups : nat) (fuel : nat) (p x : mstate)
  : list (option jsstring) :=
  match fuel with
  | O => [Some (rest p)]
  | S fuel' =>
      match rest x with
      | [] => [Some (rest p)]
      | c :: t =>
          match matchAt r x with
          | None => splitLoop r ngroups fuel' p (advance x c t)
          | Some y =>
              if (pos y =? pos p)%N then splitLoop r ngroups fuel' p (advance x c t)
              else
                let y0 := mkState (pos y) (prev y) (rest y) [] in
                Some (matched p x) :: capturesOf ngroups (caps y)
                  ++ splitLoop r ngroups fuel' y0 y0
          end
      end
  end.

Definition splitRegex (s : jsstring) (r : regex) (ngroups : nat) : list (option jsstring) :=
  match s with
  | [] => match matchAt r (start s) with
          | Some _ => []
          | None => [Some s]
          end
  | _ => splitLoop r ngroups (2 * length s + 2) (start s) (start s)
  end.

(** *** Pattern syntax *)

Definition chr (c : N) : regex := Class (N.eqb c).

(** A letter under the i flag matches its two ASCII cases; no character
    outside ASCII canonicalizes to an ASCII letter. *)
Definition chri (c : N) : regex :=
  if isUpper c then Class (fun d => (d =? c) || (d =? c + 32))%N
  else if isLower c then Class (fun d => (d =? c) || (d =? c - 32))%N
  else chr c.

Fixpoint seqOf (l : list regex) : regex :=
  match l with
  | [] => Empty
  | [r] => r
  | r :: t => Seq r (seqOf t)
  end.

Fixpoint altOf (l : list regex) : regex :=
  match l with
  | [] => Empty
  | [r] => r
  | r :: t => Alt r (altOf t)
  end.

Definition lit (s : string) : regex := seqOf (map chr (units s)).
Definition liti (s : string) : regex := seqOf (map chri (units s)).

Definition ws : regex := Class isWhiteSpace.
Definition nonWs : regex := Class (fun c => negb (isWhiteSpace c)).
Definition digit : regex := Class isDigit.
Definition dot : regex := Class (fun c => negb (isLineTerminator c)).
Definition anyChar : regex := Class (fun _ => true).
Definition newline : regex := chr nl.
Definition notNewline : regex := Class (fun c => negb (c =? nl)%N).
Definition upper : regex := Class isUpper.
Definition lower : regex := Class isLower.

Definition star (r : regex) : regex := Star true r.
Definition lazyStar (r : regex) : regex := Star false r.
Definition plus (r : regex) : regex := Seq r (Star true r).
Definition opt (r : regex) : regex := Alt r Empty.

End Regex.
Import Regex.

(* ------------------------------------------------------------------ *)
(** ** The report parser *)

Module Parser.

(** *** normalizeText *)

(** The class of /[\u00A0\u1680\u180E\u2000-\u200A\u202F\u205F\u3000]/g. *)
Definition unicodeSpace (c : N) : bool :=
  ((c =? 160) || (c =? 5760) || (c =? 6158) || inRange 8192 8202 c
   || (c =? 8239) || (c =? 8287) || (c =? 12288))%N.

(** [[^\S\n]]: white space other than the line feed. *)
Definition blank (c : N) : bool := isWhiteSpace c && negb (c =? nl)%N.

Definition normalizeText (text : jsstring) : jsstring :=
  match text with
  | [] => []
  | _ =>
      let t1 := replaceAll text (Class unicodeSpace) [space] in
      let t2 := replaceAll t1 (Seq (chr cr) newline) [nl] in
      let t3 := replaceAll t2 (chr cr) [nl] in
      (* /\n{3,}/g *)
      let t4 := replaceAll t3 (seqOf [newline; newline; newline; star newline]) [nl; nl] in
      (* /[^\S\n]+/g *)
      let t5 := replaceAll t4 (plus (Class blank)) [space] in
      trim (join nl (map trim (splitChar nl t5)))
  end.

(** *** identifyHealthCheckSection *)

(** One optional white-space run between two words: [a\s*b]. *)
Definition ws0 : regex := star ws.
Definition ws1 : regex := plus ws.
(** A word with an optional last letter: [actions?] is [optLast "action" "s"]. *)
Definition optLast (w l : string) : regex := Seq (liti w) (opt (liti l)).

(** The taxonomy, in declaration order; every pattern carries the i flag. *)
Definition sectionPatterns : list (string * list regex) :=
  [ ("Content Modelling"%string,
      [ seqOf [liti "content"; ws0; liti "modelling"]      (* /content\s*modelling/i *)
      ; seqOf [liti "content"; ws0; liti "modeling"]       (* /content\s*modeling/i *)
      ; seqOf [liti "content"; ws0; liti "model"] ])       (* /content\s*model/i *)
  ; ("Actions Required"%string,
      [ seqOf [optLast "action" "s"; ws0; liti "required"] (* /actions?\s*required/i *)
      ; seqOf [liti "action"; ws0; liti "items"] ])        (* /action\s*items/i *)
  ; ("Content Types"%string,
      [ seqOf [liti "content"; ws0; optLast "type" "s"; ws0; liti "title"]
                                                           (* /content\s*types?\s*title/i *)
      ; seqOf [liti "rarely"; ws0; liti "used"; ws0; liti "content"; ws0; liti "types"]
                                                           (* /rarely\s*used\s*content\s*types/i *)
      ; seqOf [liti "unused"; ws0; liti "content"; ws0; liti "types"] ])
                                                           (* /unused\s*content\s*types/i *)
  ; ("Global Fields"%string,
      [ seqOf [liti "global"; ws0; liti "fields"]          (* /global\s*fields/i *)
      ; seqOf [liti "unused"; ws0; liti "global"; ws0; liti "fields"] ])
                                                           (* /unused\s*global\s*fields/i *)
  ; ("Areas of Opportunities"%string,
      [ seqOf [optLast "area" "s"; ws0; liti "of"; ws0; liti "opportunit"] ])
                                                           (* /areas?\s*of\s*opportunit/i *)
  ; ("Naming Standards"%string,
      [ seqOf [liti "naming"; ws0; liti "standards"]       (* /naming\s*standards/i *)
      ; seqOf [liti "naming"; ws0; liti "convention"]      (* /naming\s*convention/i *)
      ; seqOf [liti "recommendation"; ws0; liti "message"] (* /recommendation\s*message/i *)
      ; seqOf [liti "recommended"; ws0; liti "title"] ])   (* /recommended\s*title/i *)
  ; ("Validation Rules"%string,
      [ seqOf [liti "validation"; ws0; liti "rules"]       (* /validation\s*rules/i *)
      ; seqOf [liti "field"; ws0; liti "name"] ])          (* /field\s*name/i *)
  ; ("Descriptions"%string,
      [ seqOf [optLast "description" "s"; lit ":"]         (* /descriptions?:/i *)
      ; seqOf [liti "content"; ws0; liti "types"; star dot; liti "description"] ])
                                                           (* /content\s*types.*description/i *)
  ; ("Entries"%string,
      [ liti "entries"                                     (* /entries/i *)
      ; seqOf [liti "entry"; ws0; liti "count"] ])         (* /entry\s*count/i *)
  ; ("Assets"%string,
      [ optLast "asset" "s"                                (* /assets?/i *)
      ; liti "media" ])                                    (* /media/i *)
  ; ("Workflows"%string,
      [ optLast "workflow" "s"                             (* /workflows?/i *)
      ; liti "publishing" ])                               (* /publishing/i *)
  ; ("Webhooks"%string,
      [ optLast "webhook" "s" ])                           (* /webhooks?/i *)
  ; ("Extensions"%string,
      [ optLast "extension" "s"                            (* /extensions?/i *)
      ; seqOf [liti "custom"; ws0; optLast "field" "s"] ]) (* /custom\s*fields?/i *)
  ; ("Users & Roles"%string,
      [ seqOf [optLast "user" "s"; ws0; Group 1 (Alt (lit "&") (liti "and")); ws0;
               optLast "role" "s"]                         (* /users?\s*(&|and)\s*roles?/i *)
      ; optLast "permission" "s" ])                        (* /permissions?/i *)
  ; ("Security"%string,
      [ liti "security"                                    (* /security/i *)
      ; seqOf [liti "api"; ws0; optLast "key" "s"]         (* /api\s*keys?/i *)
      ; optLast "token" "s" ])                             (* /tokens?/i *)
  ; ("Performance"%string,
      [ liti "performance"                                 (* /performance/i *)
      ; liti "optimization" ])                             (* /optimization/i *)
  ; ("Recommendations"%string,
      [ optLast "recommendation" "s"                       (* /recommendations?/i *)
      ; optLast "suggestion" "s" ])                        (* /suggestions?/i *)
  ; ("Stack Overview"%string,
      [ seqOf [liti "stack"; ws0; liti "overview"]         (* /stack\s*overview/i *)
      ; seqOf [liti "stack"; ws0; liti "info"]             (* /stack\s*info/i *)
      ; seqOf [liti "stack"; ws0; liti "details"] ])       (* /stack\s*details/i *)
  ; ("Locales"%string,
      [ optLast "locale" "s"                               (* /locales?/i *)
      ; optLast "language" "s" ])                          (* /languages?/i *)
  ; ("Environments"%string,
      [ optLast "environment" "s"                          (* /environments?/i *)
      ; optLast "branche" "s" ])                           (* /branches?/i *)
  ].

(** The two nested loops over [Object.entries(sectionPatterns)]: the label of
    the first pattern that matches, in declaration order. *)
Fixpoint anyPattern (patterns : list regex) (textLower : jsstring) : bool :=
  match patterns with
  | [] => false
  | pattern :: more => if test pattern textLower then true else anyPattern more textLower
  end.

Fixpoint firstSection (table : list (string * list regex)) (textLower : jsstring)
  : option string :=
  match table with
  | [] => None
  | (section, patterns) :: more =>
      if anyPattern patterns textLower then Some section
      else firstSection more textLower
  end.

Section Runtime.

(** [String.prototype.toLowerCase] of the runtime. *)
Variable toLowerCase : jsstring -> jsstring.

(** [text.toLowerCase().substring(0, 300)] *)
Definition inspectedWindow (text : jsstring) : jsstring :=
  substring (toLowerCase text) 0 300.

Definition identifyHealthCheckSection (text : jsstring) : string :=
  let textLower := inspectedWindow text in
  match firstSection sectionPatterns textLower with
  | Some section => section
  | None => "General"%string
  end.

(** *** containsTable *)

(** [/displaying\s+\d+\s+(of\s+)?\d+\s*records?/i] *)
Definition displayingRecords : regex :=
  seqOf [liti "displaying"; ws1; plus digit; ws1;
         opt (Group 1 (Seq (liti "of") ws1)); plus digit; ws0; optLast "record" "s"].

(** [/content\s*types?\s*title|created\s*on|field\s*name|recommendation/i] *)
Definition columnHeaders : regex :=
  altOf [ seqOf [liti "content"; ws0; optLast "type" "s"; ws0; liti "title"]
        ; seqOf [liti "created"; ws0; liti "on"]
        ; seqOf [liti "field"; ws0; liti "name"]
        ; liti "recommendation" ].

Definition containsTable (text : jsstring) : bool :=
  if test displayingRecords text then true
  else if test columnHeaders text then true
  else false.


(** *** Chunks *)

(** A [DocumentChunk], with the fields of its [metadata] object inlined. *)
Record chunk : Type := mkChunk {
  content : jsstring;
  section : string;
  chunkIndex : nat;
  startChar : nat;
  endChar : nat
}.

Definition tableSuffix : string := " - Table Data"%string.

(** *** splitLargeSection *)

(** [Math.max(...values)]; [None] stands for the minus infinity of an empty
    argument list. *)
Fixpoint mathMax (values : list Z) : option Z :=
  match values with
  | [] => None
  | v :: more =>
      match mathMax more with
      | None => Some v
      | Some m => Some (Z.max v m)
      end
  end.

(** The end of the window that starts at [start]. *)
Definition windowEnd (text : jsstring) (maxSize start : nat) : nat :=
  let end0 := Nat.min (start + maxSize) (List.length text) in
  if end0 <? List.length text then
    let searchArea := substring text start end0 in
    let breakPoints :=
      [ lastIndexOf searchArea (js "\n\n")
      ; lastIndexOf searchArea (js ". ")
      ; lastIndexOf searchArea (js "\n")
      ; lastIndexOf searchArea (js ", ") ] in
    (* b > maxSize / 3, the division being exact *)
    match mathMax (filter (fun b => Z.of_nat maxSize <? 3 * b)%Z breakPoints) with
    | Some bestBreak =>
        if (0 <? bestBreak)%Z then start + Z.to_nat bestBreak + 1 else end0
    | None => end0
    end
  else end0.

(** The while loop of [splitLargeSection].  The array [chunks] of the caller
    is threaded through; the result is the array after the pushes and the
    number of chunks created.  [None]: the fuel ran out.  [end - overlap] is
    a truncated subtraction: a negative [nextStart] and a zero one are both
    rejected by the test [nextStart > start]. *)
Fixpoint splitLargeLoop (fuel : nat) (text : jsstring) (sectionName : string)
    (maxSize overlap : nat) (startChunkIndex globalCharIndex : nat)
    (start chunksCreated : nat) (chunks : list chunk) : option (list chunk * nat) :=
  if start <? List.length text then
    match fuel with
    | O => None
    | S fuel' =>
        let end_ := windowEnd text maxSize start in
        let chunkText := trim (substring text start end_) in
        let keep := 20 <? List.length chunkText in
        let chunks' :=
          if keep then
            chunks ++ [mkChunk chunkText sectionName (startChunkIndex + chunksCreated)
                         (globalCharIndex + start) (globalCharIndex + end_)]
          else chunks in
        let chunksCreated' := if keep then S chunksCreated else chunksCreated in
        let nextStart := end_ - overlap in
        let start' := if start <? nextStart then nextStart else end_ in
        splitLargeLoop fuel' text sectionName maxSize overlap startChunkIndex
          globalCharIndex start' chunksCreated' chunks'
    end
  else Some (chunks, chunksCreated).

Definition splitLargeSection (text : jsstring) (sectionName : string)
    (maxSize overlap : nat) (chunks : list chunk)
    (startChunkIndex globalCharIndex : nat) : option (list chunk * nat) :=
  splitLargeLoop (List.length text) text sectionName maxSize overlap
    startChunkIndex globalCharIndex 0 0 chunks.

(** *** splitTableContent *)

(** [/Displaying\s+\d+.*?records?\s*/i] *)
Definition tableHeaderPattern : regex :=
  seqOf [liti "displaying"; ws1; plus digit; lazyStar dot; optLast "record" "s"; ws0].

Record tableState : Type := mkTable {
  tableChunks : list chunk;
  currentChunk : jsstring;
  tableIndex : nat;
  currentStartChar : nat
}.

Definition tableStep (maxSize : nat) (sectionName : string) (header : jsstring)
    (st : tableState) (line : jsstring) : tableState :=
  let st1 :=
    if (maxSize <? List.length (currentChunk st) + List.length line + 1)
       && (0 <? List.length (currentChunk st))
    then
      mkTable
        (tableChunks st ++
           [mkChunk (trim (currentChunk st)) (sectionName ++ tableSuffix)%string (tableIndex st)
              (currentStartChar st) (currentStartChar st + List.length (currentChunk st))])
        header
        (S (tableIndex st))
        (currentStartChar st + List.length (currentChunk st))
    else st in
  mkTable (tableChunks st1)
    (currentChunk st1 ++ (match currentChunk st1 with [] => [] | _ => [nl] end) ++ line)
    (tableIndex st1) (currentStartChar st1).

Definition splitTableContent (tableContent : jsstring) (maxSize : nat)
    (sectionName : string) (startIndex startChar : nat) : list chunk :=
  let lines := splitChar nl tableContent in
  let header :=
    match jsMatch tableContent tableHeaderPattern with
    | Some headerMatch => whole headerMatch
    | None => []
    end in
  let st := fold_left (tableStep maxSize sectionName header) lines
              (mkTable [] [] startIndex startChar) in
  if 0 <? List.length (trim (currentChunk st)) then
    tableChunks st ++
      [mkChunk (trim (currentChunk st)) (sectionName ++ tableSuffix)%string (tableIndex st)
         (currentStartChar st) (currentStartChar st + List.length (currentChunk st))]
  else tableChunks st.

(** *** createHealthCheckChunks *)

(** The alternatives of the main section pattern, in order. *)
Definition mainHeaders : list regex :=
  [ seqOf [liti "content"; ws0; liti "modelling"]
  ; seqOf [liti "actions"; ws0; liti "required"]
  ; seqOf [liti "areas"; ws0; liti "of"; ws0; liti "opportunities"]
  ; seqOf [liti "global"; ws0; liti "fields"]
  ; seqOf [liti "naming"; ws0; liti "standards"]
  ; seqOf [liti "validation"; ws0; liti "rules"]
  ; seqOf [liti "stack"; ws0; liti "overview"]
  ; liti "security"
  ; liti "performance"
  ; liti "recommendations"
  ; liti "entries"
  ; liti "assets"
  ; liti "workflows"
  ; liti "webhooks"
  ; liti "extensions"
  ; liti "users"
  ; liti "locales"
  ; liti "environments" ].

(** [/\n(?=(Content\s*Modelling|Actions\s*Required|...|Environments))/gi]:
    a line feed followed by a header; the header is captured by group 1
    inside the lookahead. *)
Definition mainSectionPattern : regex :=
  Seq newline (Ahead (Group 1 (altOf mainHeaders))).

(** [/\n(?=\u2022\s+[A-Z][a-z])/g], the pattern holding the bullet U+2022
    itself. *)
Definition bulletPattern : regex :=
  Seq newline (Ahead (seqOf [chr 8226%N; ws1; upper; lower])).

(** [/\n\n+/] *)
Definition paragraphPattern : regex := Seq newline (plus newline).

(** [/Displaying\s+\d+/i] *)
Definition tableStartPattern : regex := seqOf [liti "displaying"; ws1; plus digit].

(** [.filter(s => s && s.trim().length > 0)] on the result of a split. *)
Definition keepNonBlank (parts : list (option jsstring)) : list jsstring :=
  flat_map (fun part =>
    match part with
    | Some s => if 0 <? List.length (trim s) then [s] else []
    | None => []
    end) parts.

(** The segmentation of the text into sections. *)
Definition segment (text : jsstring) : list jsstring :=
  let mainSections := keepNonBlank (splitRegex text mainSectionPattern 1) in
  if 1 <? List.length mainSections then mainSections
  else
    let bulletSections := keepNonBlank (splitRegex text bulletPattern 0) in
    if 1 <? List.length bulletSections then bulletSections
    else keepNonBlank (splitRegex text paragraphPattern 0).

(** The variables of the loop over the sections: the array [chunks], the
    counter [chunkIndex] (here [nextIndex]) and [globalCharIndex]. *)
Record loopState : Type := mkLoop {
  chunks : list chunk;
  nextIndex : nat;
  globalCharIndex : nat
}.

Section Chunking.

Variables maxChunkSize overlap : nat.

(** The two calls of [splitLargeSection] in the loop body: the one of the
    branch without a table adds the number of new chunks to the counter, the
    one of the table branch drops it. *)
Definition splitNormally (advanceIndex : bool) (st : loopState)
    (trimmedSection : jsstring) (sectionName : string) : option loopState :=
  match splitLargeSection trimmedSection sectionName maxChunkSize overlap
          (chunks st) (nextIndex st) (globalCharIndex st) with
  | Some (chunks', newChunks) =>
      Some (mkLoop chunks'
              (if advanceIndex then nextIndex st + newChunks else nextIndex st)
              (globalCharIndex st))
  | None => None
  end.

(** The oversized-section branch of the loop body. *)
Definition splitSection (st : loopState) (trimmedSection : jsstring) : option loopState :=
  let sectionName := identifyHealthCheckSection trimmedSection in
  if containsTable trimmedSection then
    match jsMatch trimmedSection tableStartPattern with
    | Some tableStartMatch =>
        if 0 <? index tableStartMatch then
          let beforeTable := trim (substring trimmedSection 0 (index tableStartMatch)) in
          let st1 :=
            if 50 <? List.length beforeTable then
              mkLoop
                (chunks st ++
                   [mkChunk beforeTable sectionName (nextIndex st) (globalCharIndex st)
                      (globalCharIndex st + List.length beforeTable)])
                (S (nextIndex st)) (globalCharIndex st)
            else st in
          let tableContent := trim (substringFrom trimmedSection (index tableStartMatch)) in
          if 0 <? List.length tableContent then
            if maxChunkSize * 2 <? List.length tableContent then
              let tableChunks :=
                splitTableContent tableContent maxChunkSize sectionName (nextIndex st1)
                  (globalCharIndex st1 + index tableStartMatch) in
              Some (mkLoop (chunks st1 ++ tableChunks)
                      (nextIndex st1 + List.length tableChunks) (globalCharIndex st1))
            else
              Some (mkLoop
                      (chunks st1 ++
                         [mkChunk tableContent (sectionName ++ tableSuffix)%string (nextIndex st1)
                            (globalCharIndex st1 + index tableStartMatch)
                            (globalCharIndex st1 + List.length trimmedSection)])
                      (S (nextIndex st1)) (globalCharIndex st1))
          else Some st1
        else
          (* the caption opens the section: split normally *)
          splitNormally false st trimmedSection sectionName
    | None =>
        (* no clear table start: split normally *)
        splitNormally false st trimmedSection sectionName
    end
  else splitNormally true st trimmedSection sectionName.

(** The body of the loop over the sections. *)
Definition processSection (st : loopState) (section_ : jsstring) : option loopState :=
  let trimmedSection := trim section_ in
  if List.length trimmedSection <? 20 then Some st
  else if List.length trimmedSection <=? maxChunkSize then
    let sectionName := identifyHealthCheckSection trimmedSection in
    Some (mkLoop
            (chunks st ++
               [mkChunk trimmedSection sectionName (nextIndex st) (globalCharIndex st)
                  (globalCharIndex st + List.length trimmedSection)])
            (S (nextIndex st))
            (globalCharIndex st + List.length section_))
  else
    match splitSection st trimmedSection with
    | Some st' =>
        Some (mkLoop (chunks st') (nextIndex st')
                (globalCharIndex st' + List.length section_))
    | None => None
    end.

Fixpoint sectionLoop (sections : list jsstring) (st : loopState) : option loopState :=
  match sections with
  | [] => Some st
  | section_ :: more =>
      match processSection st section_ with
      | Some st' => sectionLoop more st'
      | None => None
      end
  end.

(** The chunks pushed by the loop over the sections, before the fallback. *)
Definition sectionChunks (text : jsstring) : option (list chunk) :=
  match sectionLoop (segment text) (mkLoop [] 0 0) with
  | Some st => Some (chunks st)
  | None => None
  end.

(** The fallback chunk made from the entire text. *)
Definition fallbackChunk (text : jsstring) : chunk :=
  let content_ := substring (trim text) 0 (maxChunkSize * 2) in
  mkChunk content_ "General"%string 0 0 (List.length content_).

(** [createHealthCheckChunks(text, maxChunkSize, overlap)]; [None] when a
    loop of the source does not terminate. *)
Definition createHealthCheckChunks (text : jsstring) : option (list chunk) :=
  if List.length (trim text) =? 0 then Some []
  else
    match sectionChunks text with
    | Some chunks_ =>
        if (List.length chunks_ =? 0) && (0 <? List.length (trim text))
        then Some [fallbackChunk text]
        else Some chunks_
    | None => None
    end.

End Chunking.

(** *** extractHealthCheckMetrics *)

Record HealthCheckMetrics : Type := mkMetrics {
  organization : option jsstring;
  stack : option jsstring;
  runBy : option jsstring;
  lastRun : option jsstring;
  totalChecks : option jsnum;
  performedChecks : option jsnum;
  skippedChecks : option jsnum;
  actionsRequired : option jsnum;
  areasOfOpportunities : option jsnum;
  strengths : option jsnum
}.

(** [[:\s]] and [([^\n]+)] *)
Definition colonOrSpace : regex := Class (fun c => (c =? 58)%N || isWhiteSpace c).
Definition restOfLine : regex := Group 1 (plus notNewline).

(** [/[\s\S]*?Page\s*1\s*of\s*\d+/i] *)
Definition firstPagePattern : regex :=
  seqOf [lazyStar anyChar; liti "page"; ws0; lit "1"; ws0; liti "of"; ws0; plus digit].
(** [/Organization[:\s]+([^\n]+)/i] *)
Definition organizationPattern : regex :=
  seqOf [liti "organization"; plus colonOrSpace; restOfLine].
(** [/^Stack:\s*(\S+)/im] and [/\nStack:\s*(\S+)/i] *)
Definition stackLinePattern : regex :=
  seqOf [LineStart; liti "stack:"; ws0; Group 1 (plus nonWs)].
Definition stackAfterNewlinePattern : regex :=
  seqOf [newline; liti "stack:"; ws0; Group 1 (plus nonWs)].
(** [/Run\s*By[:\s]+([^\n]+)/i] *)
Definition runByPattern : regex :=
  seqOf [liti "run"; ws0; liti "by"; plus colonOrSpace; restOfLine].
(** [/Last\s*Run[:\s]+([^\n]+)/i] *)
Definition lastRunPattern : regex :=
  seqOf [liti "last"; ws0; liti "run"; plus colonOrSpace; restOfLine].
(** [/(\d+)\s*\n\s*Total\s*Checks/i] *)
Definition totalChecksPattern : regex :=
  seqOf [Group 1 (plus digit); ws0; newline; ws0; liti "total"; ws0; liti "checks"].
(** [/(\d+)\s*\n?\s*Performed\s*Checks\s*Skipped\s*Checks/i] *)
Definition checksPattern : regex :=
  seqOf [Group 1 (plus digit); ws0; opt newline; ws0; liti "performed"; ws0; liti "checks";
         ws0; liti "skipped"; ws0; liti "checks"].
(** [/(\d+)\s*\n?\s*Performed\s*Checks/i] and [/(\d+)\s*\n?\s*Skipped\s*Checks/i] *)
Definition performedPattern : regex :=
  seqOf [Group 1 (plus digit); ws0; opt newline; ws0; liti "performed"; ws0; liti "checks"].
Definition skippedPattern : regex :=
  seqOf [Group 1 (plus digit); ws0; opt newline; ws0; liti "skipped"; ws0; liti "checks"].
(** [/\n\s*Actions Required\s*\n/i] and its two siblings *)
Definition headerLine (title : string) : regex :=
  seqOf [newline; ws0; liti title; ws0; newline].
(** [/(?=Actions Required|Areas of Opportunities|Strengths)/gi] *)
Definition categoryAhead : regex :=
  Ahead (altOf [liti "actions required"; liti "areas of opportunities"; liti "strengths"]).
(** [/^[A-Z][a-z]+(?:\s+[A-Z][a-z]+)*:/gm] *)
Definition itemPattern : regex :=
  seqOf [LineStart; upper; plus lower; star (seqOf [ws1; upper; plus lower]); lit ":"].

(** [m[1]] of a match whose first group took part. *)
Definition capture1 (m : matchResult) : jsstring :=
  match group 1 m with
  | Some v => v
  | None => []
  end.

(** [text.match(pattern)] followed by [match[1].trim()]. *)
Definition probe (text : jsstring) (pattern : regex) : option jsstring :=
  match jsMatch text pattern with
  | Some m => Some (trim (capture1 m))
  | None => None
  end.

(** [text.match(pattern)] followed by [parseInt(match[1])]. *)
Definition probeInt (text : jsstring) (pattern : regex) : option jsnum :=
  match jsMatch text pattern with
  | Some m => Some (parseInt (capture1 m))
  | None => None
  end.

Definition firstPageOf (text : jsstring) : jsstring :=
  match jsMatch text firstPagePattern with
  | Some firstPageMatch => whole firstPageMatch
  | None => substring text 0 3000
  end.

(** The loop [for (let i = 1; i < combinedNum.length; i++)]: the first split
    whose parts sum to the total. *)
Fixpoint trySplits (fuel i : nat) (combinedNum : jsstring) (total : jsnum)
  : option (jsnum * jsnum) :=
  match fuel with
  | O => None
  | S fuel' =>
      if i <? List.length combinedNum then
        let performed := parseInt (substring combinedNum 0 i) in
        let skipped := parseInt (substringFrom combinedNum i) in
        if strictEq (numAdd performed skipped) total then Some (performed, skipped)
        else trySplits fuel' (S i) combinedNum total
      else None
  end.

(** The values given to [performedChecks] and [skippedChecks] when the
    combined numeral [combinedNum] was found. *)
Definition splitCombined (combinedNum : jsstring) (totalChecks : option jsnum)
  : option jsnum * option jsnum :=
  match totalChecks with
  | Some total =>
      if truthy totalChecks then
        match trySplits (List.length combinedNum) 1 combinedNum total with
        | Some (performed, skipped) => (Some performed, Some skipped)
        | None =>
            if 2 <=? List.length combinedNum then
              let performed := parseInt (sliceButLast combinedNum 1) in
              let skipped := parseInt (sliceLast combinedNum 1) in
              if numGt performed total then
                (Some (parseInt (sliceButLast combinedNum 2)),
                 Some (parseInt (sliceLast combinedNum 2)))
              else (Some performed, Some skipped)
            else (None, None)
        end
      else
        (Some (parseInt (sliceButLast combinedNum 1)),
         Some (parseInt (sliceLast combinedNum 1)))
  | None =>
      (Some (parseInt (sliceButLast combinedNum 1)),
       Some (parseInt (sliceLast combinedNum 1)))
  end.

(** Performed and skipped checks, from the combined numeral or from the two
    separate probes. *)
Definition extractChecks (firstPage : jsstring) (totalChecks : option jsnum)
  : option jsnum * option jsnum :=
  match jsMatch firstPage checksPattern with
  | Some checksMatch => splitCombined (capture1 checksMatch) totalChecks
  | None => (probeInt firstPage performedPattern, probeInt firstPage skippedPattern)
  end.

(** [text.split(pattern).length - 1] *)
Definition countHeaderLines (text : jsstring) (title : string) : nat :=
  List.length (splitRegex text (headerLine title) 0) - 1.

(** The loop that counts the items of every category: the triple of
    [actionsCount], [oppsCount] and [strengthsCount]. *)
Definition countItems (counts : nat * nat * nat) (section_ : jsstring) : nat * nat * nat :=
  let '(actionsCount, oppsCount, strengthsCount) := counts in
  let sectionStart := toLowerCase (substring section_ 0 50) in
  let itemCount := List.length (matchAll section_ itemPattern) in
  if includes (js "actions required") sectionStart then
    (actionsCount + Nat.max 1 itemCount, oppsCount, strengthsCount)
  else if includes (js "areas of opportunities") sectionStart then
    (actionsCount, oppsCount + Nat.max 1 itemCount, strengthsCount)
  else if includes (js "strengths") sectionStart then
    (actionsCount, oppsCount, strengthsCount + Nat.max 1 itemCount)
  else counts.

Definition categorySections (text : jsstring) : list jsstring :=
  flat_map (fun part => match part with Some s => [s] | None => [] end)
    (splitRegex text categoryAhead 0).

(** A breakdown value: set when either count is positive.  The counts are
    lengths of arrays, exact as doubles. *)
Definition counted (sectionCount itemCount : nat) : option jsnum :=
  if (0 <? sectionCount) || (0 <? itemCount)
  then Some (Num (Z.of_nat (Nat.max sectionCount itemCount)))
  else None.

(** [!value]: the field is unset, zero or not-a-number. *)
Definition orElse (value : option jsnum) (estimate : jsnum) : option jsnum :=
  if truthy value then value else Some estimate.

(** The last step: when the counted breakdown is empty or implausible, the
    categories that are not populated get a share of the performed checks. *)
Definition applyEstimate (metrics : HealthCheckMetrics) : HealthCheckMetrics :=
  match performedChecks metrics with
  | Some performed =>
      if truthy (performedChecks metrics) then
        let breakdownSum :=
          (orZero (actionsRequired metrics) + orZero (areasOfOpportunities metrics)
           + orZero (strengths metrics))%float in
        if (breakdownSum =? 0)%float || (performed * 2 <? breakdownSum)%float then
          let estimatedStrengths := mathRound (performed * 0.40)%float in
          let estimatedOpportunities := mathRound (performed * 0.38)%float in
          let estimatedActions := mathRound (performed * 0.22)%float in
          mkMetrics (organization metrics) (stack metrics) (runBy metrics) (lastRun metrics)
            (totalChecks metrics) (performedChecks metrics) (skippedChecks metrics)
            (orElse (actionsRequired metrics) estimatedActions)
            (orElse (areasOfOpportunities metrics) estimatedOpportunities)
            (orElse (strengths metrics) estimatedStrengths)
        else metrics
      else metrics
  | None => metrics
  end.

Definition extractHealthCheckMetrics (text : jsstring) : HealthCheckMetrics :=
  let firstPage := firstPageOf text in
  let organization_ := probe firstPage organizationPattern in
  let stack_ :=
    match probe firstPage stackLinePattern with
    | Some s => Some s
    | None => probe firstPage stackAfterNewlinePattern
    end in
  let runBy_ := probe firstPage runByPattern in
  let lastRun_ := probe firstPage lastRunPattern in
  let totalChecks_ := probeInt firstPage totalChecksPattern in
  let '(performed_, skipped_) := extractChecks firstPage totalChecks_ in
  let actionsRequiredSections := countHeaderLines text "Actions Required" in
  let opportunitiesSections := countHeaderLines text "Areas of Opportunities" in
  let strengthsSections := countHeaderLines text "Strengths" in
  let '(actionsCount, oppsCount, strengthsCount) :=
    fold_left countItems (categorySections text) (0, 0, 0) in
  applyEstimate
    (mkMetrics organization_ stack_ runBy_ lastRun_ totalChecks_ performed_ skipped_
       (counted actionsRequiredSections actionsCount)
       (counted opportunitiesSections oppsCount)
       (counted strengthsSections strengthsCount)).

End Runtime.

End Parser.
Import Parser.

(* ------------------------------------------------------------------ *)
(** ** Inputs and predicates of the statements *)

Module Statements.

(** The default arguments of [createHealthCheckChunks]. *)
Definition defaultMaxChunkSize : nat := 1500.
Definition defaultOverlap : nat := 200.

(** The chunker and the extractor run on a text of ASCII characters. *)
Definition chunksOf (text : jsstring) : option (list chunk) :=
  createHealthCheckChunks toLowerAscii defaultMaxChunkSize defaultOverlap text.

Definition metricsOf (text : jsstring) : HealthCheckMetrics :=
  extractHealthCheckMetrics toLowerAscii text.

(** The call of the chunker returns, with at least one chunk: the chunks
    pushed by the loop over the sections when there are some, and otherwise
    exactly one fallback chunk, labelled General, with chunkIndex 0 and
    startChar 0, whose content is the first [2 * maxChunkSize] characters (or
    fewer, when the text is shorter) of the trimmed text. *)
Definition givesAChunk (toLowerCase : jsstring -> jsstring) (maxChunkSize overlap : nat)
    (text : jsstring) : Prop :=
  exists body result,
    sectionChunks toLowerCase maxChunkSize overlap text = Some body /\
    createHealthCheckChunks toLowerCase maxChunkSize overlap text = Some result /\
    result <> [] /\
    (body <> [] -> result = body) /\
    (body = [] ->
       result = [mkChunk (firstn (maxChunkSize * 2) (trim text)) "General" 0 0
                   (Nat.min (maxChunkSize * 2) (List.length (trim text)))]).

(** [label.endsWith(suffix)] on labels. *)
Fixpoint endsWith (suffix label : string) : bool :=
  String.eqb label suffix ||
  match label with
  | EmptyString => false
  | String _ more => endsWith suffix more
  end.

Definition isTableLabel (label : string) : bool := endsWith tableSuffix label.

(** The indices are strictly increasing and start at [n]. *)
Fixpoint increasingAbove (low : nat) (indices : list nat) : bool :=
  match indices with
  | [] => true
  | i :: more => (low <? i) && increasingAbove i more
  end.

Definition increasingFrom (n : nat) (indices : list nat) : bool :=
  match indices with
  | [] => true
  | i :: more => (i =? n) && increasingAbove i more
  end.

(** A chunk that is not table data holds at least 20 characters. *)
Definition longEnough (c : chunk) : Prop :=
  isTableLabel (section c) = false -> 20 <= List.length (content c).

(** The patterns declared for a label of the taxonomy. *)
Definition patternsOf (label : string) : list regex :=
  match find (fun entry => String.eqb (fst entry) label) sectionPatterns with
  | Some entry => snd entry
  | None => []
  end.

(** The split of a combined numeral at position [i] is exact. *)
Definition exactAt (combinedNum : jsstring) (total : jsnum) (i : nat) : bool :=
  strictEq (numAdd (parseInt (substring combinedNum 0 i))
                   (parseInt (substringFrom combinedNum i))) total.

(** The sum of the counted breakdown values. *)
Definition breakdownSumOf (m : HealthCheckMetrics) : jsnum :=
  (orZero (actionsRequired m) + orZero (areasOfOpportunities m) + orZero (strengths m))%float.

(** The test on the breakdown: its sum is zero or above twice [p]. *)
Definition implausible (m : HealthCheckMetrics) (p : jsnum) : bool :=
  strictEq (breakdownSumOf m) 0%float || numGt (breakdownSumOf m) (p * 2)%float.

(** A category after the estimate: a value counted before is kept, a
    category without one (unset, zero or not-a-number) gets the estimate. *)
Definition filled (before : option jsnum) (estimate : jsnum) (after : option jsnum) : Prop :=
  (truthy before = false -> after = Some estimate) /\
  (truthy before = true -> after = before).

(** The three categories are filled with the shares of [p]. *)
Definition estimateApplied (m : HealthCheckMetrics) (p : jsnum) : Prop :=
  filled (strengths m) (mathRound (p * 0.40)%float) (strengths (applyEstimate m)) /\
  filled (areasOfOpportunities m) (mathRound (p * 0.38)%float)
    (areasOfOpportunities (applyEstimate m)) /\
  filled (actionsRequired m) (mathRound (p * 0.22)%float)
    (actionsRequired (applyEstimate m)).

Definition a_ : N := 97%N.
Definition b_ : N := 98%N.

(** A text made of white space only. *)
Definition blankText : jsstring := js " \n ".

(** An oversized paragraph with a column-header token and no table caption,
    followed by a second paragraph. *)
Definition uncaptionedTable : jsstring :=
  js "created on " ++ repeat a_ 1600 ++ js "\n\n" ++ repeat b_ 25.

(** 1600 characters of prose, then a small table. *)
Definition longIntroTable : jsstring :=
  repeat a_ 1600 ++ js "\nDisplaying 5 of 9 records\nrow one".

(** A table whose only row is 3100 characters long. *)
Definition longRowTable : jsstring :=
  js "Records list\nDisplaying 5 of 9 records " ++ repeat a_ 3100.

(** An oversized section that ends with a table caption. *)
Definition shortTable : jsstring :=
  js "created on " ++ repeat a_ 1600 ++ js " Displaying 5".

(** Two lines made of one space between two lines of text. *)
Definition blankLines : jsstring := js "a\n \n \nb".

(** The end-to-end scenario of the specification. *)
Definition scenario : jsstring :=
  js "Stack Overview\nStack: acme\nPage 1 of 5\n\nActions Required\nFix A: description text that is long enough.\n\nStrengths\nGood config: description text that is long enough.".

(** First pages with the check counters. *)
Definition combinedReport : jsstring :=
  js "39\nTotal Checks\n372\nPerformed ChecksSkipped Checks".
Definition oneDigitReport : jsstring :=
  js "39\nTotal Checks\n5\nPerformed ChecksSkipped Checks".
Definition zeroTotalReport : jsstring :=
  js "0\nTotal Checks\n10\nPerformed ChecksSkipped Checks".
Definition fiftyPerformed : jsstring := js "50\nPerformed Checks".
Definition zeroPerformed : jsstring := js "0\nPerformed Checks".
(** A combined numeral whose fallback split leaves no digit for the
    performed count. *)
Definition nanPerformed : jsstring :=
  js "5\nTotal Checks\n95\nPerformed ChecksSkipped Checks".

(** The split of a combined numeral as the specification words it: the first
    exact split, else the last digit as skipped, else the last two. *)
Definition splitAsSpecified (combinedNum : jsstring) (total : jsnum) : jsnum * jsnum :=
  match trySplits (List.length combinedNum) 1 combinedNum total with
  | Some exact => exact
  | None =>
      let performed := parseInt (sliceButLast combinedNum 1) in
      if numGt performed total
      then (parseInt (sliceButLast combinedNum 2), parseInt (sliceLast combinedNum 2))
      else (performed, parseInt (sliceLast combinedNum 1))
  end.

(** The rounding of a share [num/den] of [p] in exact arithmetic, a tie going
    up. *)
Definition exactShare (num den p : Z) : jsnum :=
  Num ((2 * num * p + den) / (2 * den)).

(** The estimate of the source agrees with the exact rounding on [p]. *)
Definition estimateExact (p : Z) : bool :=
  strictEq (mathRound (Num p * 0.40)%float) (exactShare 40 100 p)
  && strictEq (mathRound (Num p * 0.38)%float) (exactShare 38 100 p)
  && strictEq (mathRound (Num p * 0.22)%float) (exactShare 22 100 p).

End Statements.
Import Statements.

(* ------------------------------------------------------------------ *)
(** ** Predicates of the further properties *)

Module Properties.

(** [a] occurs in [b] as a run of consecutive characters. *)
Definition infix (a b : jsstring) : Prop := exists before after, b = before ++ a ++ after.

(** The chunks follow one another: each starts where the one before ends,
    the first at [from], and none is empty-spanned backwards. *)
Fixpoint chained (from : nat) (cs : list chunk) : Prop :=
  match cs with
  | [] => True
  | c :: more => startChar c = from /\ startChar c < endChar c /\ chained (endChar c) more
  end.

(** Where a chain of chunks that starts at [from] ends. *)
Fixpoint chainEnd (from : nat) (cs : list chunk) : nat :=
  match cs with
  | [] => from
  | c :: more => chainEnd (endChar c) more
  end.

(** No chunk carries an index above its position in the list, counted from
    [base]. *)
Fixpoint indicesWithinPosition (base : nat) (cs : list chunk) : Prop :=
  match cs with
  | [] => True
  | c :: more => chunkIndex c <= base /\ indicesWithinPosition (S base) more
  end.

(** The caption that [splitTableContent] repeats at the head of every
    sub-chunk after the first. *)
Definition tableHeaderOf (tableContent : jsstring) : jsstring :=
  match jsMatch tableContent tableHeaderPattern with
  | Some headerMatch => whole headerMatch
  | None => []
  end.

(** The length of the longest line. *)
Definition longestLine (lines : list jsstring) : nat :=
  list_max (map (@List.length N) lines).

(** The labels of the taxonomy, in declaration order, and General. *)
Definition taxonomyLabels : list string :=
  map fst sectionPatterns ++ ["General"%string].

(** A section that does not take the branch of the loop body where an
    oversized section is flagged as a table and no caption is found after
    its first character. *)
Definition captioned (maxChunkSize : nat) (section_ : jsstring) : bool :=
  let trimmedSection := trim section_ in
  if List.length trimmedSection <=? maxChunkSize then true
  else if containsTable trimmedSection then
    match jsMatch trimmedSection tableStartPattern with
    | Some tableStartMatch => 0 <? index tableStartMatch
    | None => false
    end
  else true.

(** A chunk cut by [splitLargeSection] from [text]: the trimmed slice of the
    section at the recorded offsets, longer than 20 and no longer than the
    window. *)
Definition windowChunk (text : jsstring) (sectionName : string)
    (maxSize globalCharIndex_ : nat) (c : chunk) : Prop :=
  section c = sectionName /\
  globalCharIndex_ <= startChar c /\
  startChar c < endChar c /\
  endChar c <= globalCharIndex_ + List.length text /\
  endChar c - startChar c <= maxSize /\
  content c = trim (substring text (startChar c - globalCharIndex_)
                      (endChar c - globalCharIndex_)) /\
  20 < List.length (content c) <= maxSize.

(** What the loop of [splitTableContent] over the lines keeps true. *)
Definition tableInvariant (sectionName : string) (startIndex startChar_ bound : nat)
    (st : tableState) : Prop :=
  Forall (fun c => section c = (sectionName ++ tableSuffix)%string) (tableChunks st) /\
  map chunkIndex (tableChunks st) = seq startIndex (List.length (tableChunks st)) /\
  tableIndex st = startIndex + List.length (tableChunks st) /\
  chained startChar_ (tableChunks st) /\
  currentStartChar st = chainEnd startChar_ (tableChunks st) /\
  Forall (fun c => List.length (content c) <= bound) (tableChunks st) /\
  List.length (currentChunk st) <= bound.

(** A chunk with a span of at least one character and a label of the
    taxonomy, with or without the table-data suffix. *)
Definition wellFormedChunk (c : chunk) : Prop :=
  startChar c < endChar c /\
  (In (section c) taxonomyLabels \/
   exists label, In label taxonomyLabels /\ section c = (label ++ tableSuffix)%string).

(** The characters of every class of a pattern, lookaheads apart, satisfy
    [P]: whatever the pattern consumes is made of such characters. *)
Fixpoint classesIn (P : N -> Prop) (r : regex) : Prop :=
  match r with
  | Empty => True
  | Class p => forall c, p c = true -> P c
  | Seq r1 r2 => classesIn P r1 /\ classesIn P r2
  | Alt r1 r2 => classesIn P r1 /\ classesIn P r2
  | Star _ r1 => classesIn P r1
  | Group _ r1 => classesIn P r1
  | Ahead _ => True
  | LineStart => True
  end.

(** The matcher went from [x] to [y]: it consumed a run of characters, all of
    them satisfying [P], and counted them. *)
Definition reaches (P : N -> Prop) (x y : mstate) : Prop :=
  exists consumed,
    rest x = consumed ++ rest y /\
    pos y = (pos x + N.of_nat (List.length consumed))%N /\
    Forall P consumed.

(** A state of a match over [text]: what remains is an end of the text, and
    every capture is a run of characters of the text. *)
Definition within (text : jsstring) (x : mstate) : Prop :=
  (exists before, text = before ++ rest x) /\
  Forall (fun capture_ => infix (snd capture_) text) (caps x).

Definition anyUnit (c : N) : Prop := True.

End Properties.
Import Properties.

(* ------------------------------------------------------------------ *)
(** ** The report store *)

Module ReportStore.

Record StoredReport : Type := mkStored {
  sessionId : jsstring;
  filename : jsstring;
  rawText : jsstring;
  uploadedAt : Z
}.

(** A [Map] with string keys: the entries in insertion order.  [set] on a
    key that is present replaces its value in place, [delete] removes the
    entry, [keys().next().value] is the key inserted first. *)
Definition jsMap (V : Type) : Type := list (jsstring * V).

Fixpoint mapGet {V} (m : jsMap V) (key : jsstring) : option V :=
  match m with
  | [] => None
  | (k, v) :: more => if eqUnits k key then Some v else mapGet more key
  end.

Definition mapHas {V} (m : jsMap V) (key : jsstring) : bool :=
  match mapGet m key with
  | Some _ => true
  | None => false
  end.

Fixpoint mapSet {V} (m : jsMap V) (key : jsstring) (value : V) : jsMap V :=
  match m with
  | [] => [(key, value)]
  | (k, v) :: more =>
      if eqUnits k key then (k, value) :: more else (k, v) :: mapSet more key value
  end.

Fixpoint mapDelete {V} (m : jsMap V) (key : jsstring) : jsMap V :=
  match m with
  | [] => []
  | (k, v) :: more => if eqUnits k key then more else (k, v) :: mapDelete more key
  end.

Definition firstKey {V} (m : jsMap V) : option jsstring :=
  match m with
  | [] => None
  | (k, _) :: _ => Some k
  end.

Definition maxSessions : nat := 10.

(** The truth value of a key: the empty string is falsy. *)
Definition nonEmpty (s : jsstring) : bool :=
  match s with
  | [] => false
  | _ => true
  end.

(** [store(sessionId, filename, rawText)] at the time [now]. *)
Definition store (now : Z) (reports : jsMap StoredReport)
    (sessionId_ filename_ rawText_ : jsstring) : jsMap StoredReport :=
  let reports1 :=
    if maxSessions <=? List.length reports then
      match firstKey reports with
      | Some oldestKey => if nonEmpty oldestKey then mapDelete reports oldestKey else reports
      | None => reports
      end
    else reports in
  mapSet reports1 sessionId_ (mkStored sessionId_ filename_ rawText_ now).

Definition get (reports : jsMap StoredReport) (sessionId_ : jsstring) : option StoredReport :=
  mapGet reports sessionId_.

Definition has (reports : jsMap StoredReport) (sessionId_ : jsstring) : bool :=
  mapHas reports sessionId_.

Definition delete (reports : jsMap StoredReport) (sessionId_ : jsstring)
  : jsMap StoredReport :=
  mapDelete reports sessionId_.

(** The calls a client makes on the store. *)
Inductive call : Type :=
| Store (now : Z) (sessionId_ filename_ rawText_ : jsstring)
| Delete (sessionId_ : jsstring).

Definition perform (reports : jsMap StoredReport) (c : call) : jsMap StoredReport :=
  match c with
  | Store now s f t => store now reports s f t
  | Delete s => delete reports s
  end.

(** The store after a run of calls on the store created empty. *)
Definition after (calls : list call) : jsMap StoredReport :=
  fold_left perform calls [].

Definition keysOf {V} (m : jsMap V) : list jsstring := map fst m.

(** A store call that names its session with a non-empty string. *)
Definition namesSession (c : call) : bool :=
  match c with
  | Store _ s _ _ => nonEmpty s
  | Delete _ => true
  end.

End ReportStore.

Module StoreExamples.
Import ReportStore.

(** Ten sessions named 0 to 9, stored in that order. *)
Definition sessionName (i : nat) : jsstring := [N.of_nat (48 + i)].
Definition tenSessions : jsMap StoredReport :=
  map (fun i => (sessionName i, mkStored (sessionName i) (js "report.pdf") (js "text") 0%Z))
      (seq 0 10).

(** The same with the first session stored under the empty string. *)
Definition tenWithEmptyKey : jsMap StoredReport :=
  ([], mkStored [] (js "report.pdf") (js "text") 0%Z) :: tl tenSessions.

(** Twelve uploads in a row. *)
Definition twelveUploads : list call :=
  map (fun i => Store (Z.of_nat i) (sessionName i) (js "report.pdf") (js "text")) (seq 0 12).

End StoreExamples.

(* ------------------------------------------------------------------ *)
(** ** The chat route: the report text of the prompt *)

Module ChatRoute.

Set Warnings "-abstract-large-number".
Definition MAX_REPORT_LENGTH : nat := 30000.
Set Warnings "abstract-large-number".

Definition truncationNotice : jsstring := js "\n\n[... Report truncated ...]".

Definition truncateReport (text : jsstring) : jsstring :=
  if List.length text <=? MAX_REPORT_LENGTH then text
  else substring text 0 MAX_REPORT_LENGTH ++ truncationNotice.

(** A report one character above the limit. *)
Definition justTooLong : jsstring := repeat a_ (S MAX_REPORT_LENGTH).

End ChatRoute.

(* ------------------------------------------------------------------ *)
(** ** Chunks and the text they are cut from *)

Module Verbatim.

(** The content of a chunk that is not table data is a run of consecutive
    characters of [text]. *)
Definition verbatim (text : jsstring) (c : chunk) : Prop :=
  isTableLabel (section c) = false -> infix (content c) text.

(** A piece of a split that is a string is a run of characters of [text]. *)
Definition pieceOf (text : jsstring) (piece : option jsstring) : Prop :=
  match piece with
  | Some s => infix s text
  | None => True
  end.

End Verbatim.

(* ------------------------------------------------------------------ *)
(** ** The shape of a normalized text *)

Module TextShape.

(** White space other than the space and the line feed. *)
Definition strayWhiteSpace (c : N) : bool :=
  isWhiteSpace c && negb (c =? space)%N && negb (c =? nl)%N.

(** A text without white space at either end. *)
Definition trimmed (s : jsstring) : Prop := trim s = s.

(** A text that is empty or starts with a character that is no blank, and
    one that is empty or starts with a character that is no space. *)
Definition startsUnblank (s : jsstring) : Prop :=
  match s with
  | [] => True
  | c :: _ => blank c = false
  end.

Definition startsUnspaced (s : jsstring) : Prop :=
  match s with
  | [] => True
  | c :: _ => c <> space
  end.

(** Two characters [a] and [b] next to each other in a text. *)
Fixpoint hasPair (a b : N) (s : jsstring) : Prop :=
  match s with
  | x :: (y :: _) as more => (x = a /\ y = b) \/ hasPair a b more
  | _ => False
  end.

End TextShape.

(* ------------------------------------------------------------------ *)
(** ** parseReport *)

Module ReportFile.

(** What a [throw] carries: an [Error] with its message, or another value. *)
Inductive thrown : Type :=
| Error (message : jsstring)
| NotAnError.

(** [e instanceof Error ? e.message : fallback] *)
Definition messageOf (e : thrown) (fallback : jsstring) : jsstring :=
  match e with
  | Error message => message
  | NotAnError => fallback
  end.

(** The outcome of a call: a value, an exception, or no end (a loop of the
    source that does not terminate). *)
Inductive outcome (A : Type) : Type :=
| Returns (value : A)
| Throws (e : thrown)
| Hangs.

Arguments Returns {A} value.
Arguments Throws {A} e.
Arguments Hangs {A}.

(** A [ParsedDocument], without its fresh identifier and its time stamp. *)
Record ParsedDocument : Type := mkDocument {
  filename : jsstring;
  fileType : jsstring;
  rawText : jsstring;
  chunks : list chunk
}.

Definition pdfType : jsstring := js "application/pdf".
Definition docxType : jsstring :=
  js "application/vnd.openxmlformats-officedocument.wordprocessingml.document".
Definition docType : jsstring := js "application/msword".
Definition textType : jsstring := js "text/plain".

Section Files.

Variable toLowerCase : jsstring -> jsstring.

(** The file contents, and the calls that leave the program: the two entry
    points of the PDF library, the DOC library, and the decoding of a buffer
    as UTF-8. *)
Variable buffer : Type.
Variables pdfParse pdfParseFallback mammothExtractRawText : buffer -> outcome jsstring.
Variable toUtf8 : buffer -> jsstring.

Definition parsePDF (fileBuffer : buffer) : outcome jsstring :=
  match pdfParse fileBuffer with
  | Returns text => Returns text
  | Throws error =>
      match pdfParseFallback fileBuffer with
      | Returns text => Returns text
      | Throws _ =>
          Throws (Error (js "Failed to parse PDF: " ++ messageOf error (js "Unknown error")))
      | Hangs => Hangs
      end
  | Hangs => Hangs
  end.

Definition parseDOC (fileBuffer : buffer) : outcome jsstring :=
  match mammothExtractRawText fileBuffer with
  | Returns value => Returns value
  | Throws error =>
      Throws (Error (js "Failed to parse DOC file: " ++ messageOf error (js "Unknown error")))
  | Hangs => Hangs
  end.

(** The switch on the file type. *)
Definition extractText (fileBuffer : buffer) (fileType_ : jsstring) : outcome jsstring :=
  if eqUnits fileType_ pdfType then parsePDF fileBuffer
  else if eqUnits fileType_ docxType || eqUnits fileType_ docType then parseDOC fileBuffer
  else if eqUnits fileType_ textType then Returns (toUtf8 fileBuffer)
  else Returns (toUtf8 fileBuffer).

Definition parseReport (fileBuffer : buffer) (filename_ fileType_ : jsstring)
  : outcome ParsedDocument :=
  match extractText fileBuffer fileType_ with
  | Returns rawText0 =>
      if (List.length rawText0 =? 0) || (List.length (trim rawText0) =? 0) then
        Throws (Error (js "No text content could be extracted from the file"))
      else
        let rawText1 := normalizeText rawText0 in
        match createHealthCheckChunks toLowerCase defaultMaxChunkSize defaultOverlap rawText1 with
        | Some chunks_ => Returns (mkDocument filename_ fileType_ rawText1 chunks_)
        | None => Hangs
        end
  | Throws parseError => Throws parseError
  | Hangs => Hangs
  end.

End Files.

End ReportFile.

(* ------------------------------------------------------------------ *)
(** ** The upload route *)

Module UploadRoute.
Import ReportFile.

Definition ALLOWED_TYPES : list jsstring :=
  [ js "application/pdf"
  ; js "application/vnd.openxmlformats-officedocument.wordprocessingml.document"
  ; js "application/msword"
  ; js "text/plain"
  ; js "application/x-pdf"
  ; js "application/octet-stream" ].

Definition MAX_FILE_SIZE : N := (10 * 1024 * 1024)%N.

Definition ALLOWED_EXTENSIONS : list jsstring :=
  [ js ".pdf"; js ".doc"; js ".docx"; js ".txt" ].

(** [list.includes(s)] on an array of strings. *)
Definition includesString (l : list jsstring) (s : jsstring) : bool :=
  existsb (fun entry => eqUnits entry s) l.

(** A [File] of the form data: its name, its MIME type, its size in bytes
    and its contents. *)
Record file (buffer : Type) : Type := mkFile {
  name : jsstring;
  type_ : jsstring;
  size : N;
  contents : buffer
}.

Arguments name {buffer} f.
Arguments type_ {buffer} f.
Arguments size {buffer} f.
Arguments contents {buffer} f.

(** The metrics of a response: the object read by the vision model, or the
    metrics extracted from the text. *)
Inductive metricsValue (vision : Type) : Type :=
| VisionMetrics (m : vision)
| TextMetrics (m : HealthCheckMetrics).

Arguments VisionMetrics {vision} m.
Arguments TextMetrics {vision} m.

(** The JSON body of a response and its HTTP status. *)
Record uploadResponse (vision : Type) : Type := mkResponse {
  status : nat;
  success : bool;
  sessionId : jsstring;
  filename : jsstring;
  chunksCreated : nat;
  message : jsstring;
  metrics : option (metricsValue vision)
}.

Arguments status {vision} u.
Arguments success {vision} u.
Arguments sessionId {vision} u.
Arguments filename {vision} u.
Arguments chunksCreated {vision} u.
Arguments message {vision} u.
Arguments metrics {vision} u.

Section Route.

Variable toLowerCase : jsstring -> jsstring.
Variable buffer : Type.
Variables pdfParse pdfParseFallback mammothExtractRawText : buffer -> outcome jsstring.
Variable toUtf8 : buffer -> jsstring.

(** The vision extraction: the object it returns ([None] for a null), and
    the number of keys of such an object. *)
Variable vision : Type.
Variable extractMetricsWithVision : buffer -> outcome (option vision).
Variable keyCount : vision -> nat.

Definition getFileExtension (filename_ : jsstring) : jsstring :=
  let lastDot := lastIndexOf filename_ (js ".") in
  if (lastDot =? -1)%Z then []
  else toLowerCase (substringFrom filename_ (Z.to_nat lastDot)).

Definition isAllowedFile (filename_ mimeType : jsstring) : bool :=
  let extension := getFileExtension filename_ in
  if includesString ALLOWED_EXTENSIONS extension then true
  else if includesString ALLOWED_TYPES mimeType then true
  else false.

Definition getEffectiveFileType (filename_ mimeType : jsstring) : jsstring :=
  let extension := getFileExtension filename_ in
  if eqUnits extension (js ".pdf") then js "application/pdf"
  else if eqUnits extension (js ".docx") then
    js "application/vnd.openxmlformats-officedocument.wordprocessingml.document"
  else if eqUnits extension (js ".doc") then js "application/msword"
  else if eqUnits extension (js ".txt") then js "text/plain"
  else mimeType.

(** A response that reports a failure. *)
Definition failure (status_ : nat) (filename_ message_ : jsstring) : uploadResponse vision :=
  mkResponse vision status_ false [] filename_ 0 message_ None.

(** The metrics of an accepted report. *)
Definition metricsFor (effectiveFileType : jsstring) (fileBuffer : buffer)
    (rawText_ : jsstring) : option (metricsValue vision) :=
  let fromText := TextMetrics (extractHealthCheckMetrics toLowerCase rawText_) in
  if eqUnits effectiveFileType (js "application/pdf") then
    match extractMetricsWithVision fileBuffer with
    | Returns (Some m) => if keyCount m =? 0 then Some fromText else Some (VisionMetrics m)
    | Returns None => Some fromText
    | Throws _ => Some fromText
    | Hangs => None
    end
  else Some fromText.

(** [POST(request)]: [formData] is the outcome of reading the form and its
    field [file], [newSessionId] the identifier that [uuidv4] draws, [now]
    the time, [reports] the report store.  The result is the response and
    the store after the call; [None] when the call does not end. *)
Definition POST (formData : outcome (option (file buffer))) (newSessionId : jsstring)
    (now : Z) (reports : ReportStore.jsMap ReportStore.StoredReport)
  : option (uploadResponse vision * ReportStore.jsMap ReportStore.StoredReport) :=
  match formData with
  | Returns None => Some (failure 400 [] (js "No file provided"), reports)
  | Returns (Some file_) =>
      if negb (isAllowedFile (name file_) (type_ file_)) then
        Some (failure 400 (name file_)
                (js "Invalid file type. Please upload a PDF, DOC, DOCX, or TXT file."),
              reports)
      else if (MAX_FILE_SIZE <? size file_)%N then
        Some (failure 400 (name file_) (js "File too large. Maximum size is 10MB"), reports)
      else
        let effectiveFileType := getEffectiveFileType (name file_) (type_ file_) in
        match parseReport toLowerCase buffer pdfParse pdfParseFallback mammothExtractRawText
                toUtf8 (contents file_) (name file_) effectiveFileType with
        | Returns parsedDocument =>
            if (List.length (rawText parsedDocument) =? 0)
               || (List.length (trim (rawText parsedDocument)) =? 0)
            then
              Some (failure 422 (name file_) (js "Failed to extract content from the file."),
                    reports)
            else
              match metricsFor effectiveFileType (contents file_) (rawText parsedDocument) with
              | Some metrics_ =>
                  Some (mkResponse vision 200 true newSessionId (name file_) 1
                          (js "Report uploaded and processed successfully") (Some metrics_),
                        ReportStore.store now reports newSessionId (name file_)
                          (rawText parsedDocument))
              | None => None
              end
        | Throws parseError =>
            Some (failure 422 (name file_)
                    (js "Failed to parse file: "
                     ++ messageOf parseError (js "Unknown parse error")),
                  reports)
        | Hangs => None
        end
  | Throws error =>
      Some (failure 500 []
              (js "Failed to process report: "
               ++ messageOf error (js "Unknown error occurred")),
            reports)
  | Hangs => None
  end.

End Route.

End UploadRoute.

Module FileExamples.
Import ReportFile UploadRoute.

(** A runtime whose buffers are the decoded texts and whose libraries
    fail. *)
Definition noLibrary (fileBuffer : jsstring) : outcome jsstring := Throws NotAnError.
Definition decoded (fileBuffer : jsstring) : jsstring := fileBuffer.
Definition noVision (fileBuffer : jsstring) : outcome (option unit) := Returns None.
Definition noKeys (m : unit) : nat := 0.

(** A text of one Mongolian vowel separator, U+180E. *)
Definition vowelSeparator : jsstring := [6158%N].

(** A text file of the scenario, and the session drawn for its upload. *)
Definition scenarioFile : file jsstring :=
  mkFile jsstring (js "report.txt") (js "text/plain") 162%N scenario.
Definition scenarioSession : jsstring := js "6f1c2a9e-0000-4000-8000-000000000001".

(** The upload of the scenario into an empty store, at time 7. *)
Definition scenarioUpload
  : option (uploadResponse unit * ReportStore.jsMap ReportStore.StoredReport) :=
  POST toLowerAscii jsstring noLibrary noLibrary noLibrary decoded unit noVision noKeys
    (Returns (Some scenarioFile)) scenarioSession 7%Z [].

(** The response of a successful upload of the scenario. *)
Definition scenarioResponse : uploadResponse unit :=
  mkResponse unit 200 true scenarioSession (js "report.txt") 1
    (js "Report uploaded and processed successfully")
    (Some (TextMetrics (metricsOf (normalizeText scenario)))).

End FileExamples.

(* ------------------------------------------------------------------ *)
(** ** The primitives on small inputs *)

(** A split keeps the captures of its separator, also those made inside a
    lookahead. *)
Example split_keeps_captures :
  splitRegex (js "a\nSecurity b\nc") mainSectionPattern 1
    = [Some (js "a"); Some (js "Security"); Some (js "Security b\nc")].
Proof. vm_compute. reflexivity. Qed.

(** A split on an empty match cuts before it, never at the start of a
    piece. *)
Example split_on_lookahead :
  splitRegex (js "Strengths x Strengths y") categoryAhead 0
    = [Some (js "Strengths x "); Some (js "Strengths y")].
Proof. vm_compute. reflexivity. Qed.

(** A lazy star stops at the first continuation that matches. *)
Example lazy_star_is_shortest :
  option_map whole (jsMatch (js "x Page 1 of 5 and Page 1 of 7") firstPagePattern)
    = Some (js "x Page 1 of 5").
Proof. vm_compute. reflexivity. Qed.

(** A greedy star gives back what the rest of the pattern needs. *)
Example greedy_star_backtracks :
  option_map capture1 (jsMatch (js "39 \n Total Checks") totalChecksPattern)
    = Some (js "39").
Proof. vm_compute. reflexivity. Qed.

(** The m flag: the caret matches after every line terminator. *)
Example caret_matches_line_starts :
  matchAll (js "Ab: x\nCd Ef: y\nzz: k") itemPattern = [js "Ab:"; js "Cd Ef:"].
Proof. vm_compute. reflexivity. Qed.

(** The i flag on an ASCII letter. *)
Example letters_ignore_case :
  (test (liti "Displaying") (js "DISPLAYING"), test (lit "Displaying") (js "DISPLAYING"))
    = (true, false).
Proof. vm_compute. reflexivity. Qed.

Example trim_removes_both_ends : trim (js " \t a b \n") = js "a b".
Proof. vm_compute. reflexivity. Qed.

Example lastIndexOf_last_occurrence :
  (lastIndexOf (js "a. b. c") (js ". "), lastIndexOf (js "abc") (js ". ")) = (4%Z, (-1)%Z).
Proof. vm_compute. reflexivity. Qed.

Example parseInt_of_digits :
  (parseInt (js "372"), parseInt (js "007"), parseInt (js "")) = (Num 372, Num 7, NaN).
Proof. vm_compute. reflexivity. Qed.

Example mathRound_ties_go_up :
  (mathRound 0.5%float, mathRound 2.5%float, mathRound (-2.5)%float, mathRound 9.49%float)
    = (Num 1, Num 3, Num (-2), Num 9).
Proof. vm_compute. reflexivity. Qed.

(** Numbers are doubles: an integer above 2^53 is rounded when it is read
    and when it is added, a numeral of 400 digits is read as infinity, which
    [Math.round] returns, and a rounding to zero keeps the sign. *)
Example numbers_are_doubles :
  parseInt (js "9007199254740993") = Num 9007199254740992 /\
  strictEq (numAdd (Num 9007199254740992) (Num 1)) (Num 9007199254740992) = true /\
  parseInt (repeat 57%N 400) = infinity /\
  mathRound (infinity * 0.40)%float = infinity /\
  mathRound (-0.3)%float = neg_zero /\
  (truthy (Some NaN), truthy (Some neg_zero), truthy (Some infinity)) = (false, false, true) /\
  strictEq NaN NaN = false.
Proof.
  split; [vm_compute; reflexivity|]. split; [vm_compute; reflexivity|].
  split; [vm_compute; reflexivity|]. split; [vm_compute; reflexivity|].
  split; [vm_compute; reflexivity|]. split; vm_compute; reflexivity.
Qed.

(* ------------------------------------------------------------------ *)
(** ** The chunk splitter: empty input, termination and the fallback *)

Section ChunkerTotality.

Variable toLowerCase : jsstring -> jsstring.
Variables maxChunkSize overlap : nat.

Lemma blank_gives_no_chunk (text : jsstring) :
  trim text = [] ->
  createHealthCheckChunks toLowerCase maxChunkSize overlap text = Some [].
Proof.
  intros Hblank. unfold createHealthCheckChunks. rewrite Hblank. reflexivity.
Qed.

Lemma trim_nil : trim [] = [].
Proof. reflexivity. Qed.

Hypothesis maxChunkSize_pos : 0 < maxChunkSize.

Lemma windowEnd_progress (text : jsstring) (start : nat) :
  start < List.length text -> start < windowEnd text maxChunkSize start.
Proof.
  intros Hstart. unfold windowEnd.
  set (end0 := Nat.min (start + maxChunkSize) (List.length text)).
  assert (Hend0 : start < end0) by (unfold end0; lia).
  destruct (end0 <? List.length text); [|exact Hend0].
  destruct (mathMax _) as [bestBreak|]; [|exact Hend0].
  destruct (0 <? bestBreak)%Z; [lia|exact Hend0].
Qed.

Lemma splitLargeLoop_total (text : jsstring) (sectionName : string)
    (startChunkIndex globalCharIndex : nat) :
  forall fuel start chunksCreated chunks_,
    List.length text - start <= fuel ->
    exists result,
      splitLargeLoop fuel text sectionName maxChunkSize overlap startChunkIndex
        globalCharIndex start chunksCreated chunks_ = Some result.
Proof.
  induction fuel as [|fuel IH]; intros start chunksCreated chunks_ Hfuel.
  - simpl. destruct (start <? List.length text) eqn:Hlt.
    + apply Nat.ltb_lt in Hlt. lia.
    + eauto.
  - simpl. destruct (start <? List.length text) eqn:Hlt; [|eauto].
    apply Nat.ltb_lt in Hlt.
    pose proof (windowEnd_progress text start Hlt) as Hend.
    apply IH.
    destruct (start <? windowEnd text maxChunkSize start - overlap) eqn:Hnext.
    + apply Nat.ltb_lt in Hnext. lia.
    + lia.
Qed.

Lemma splitNormally_total (advanceIndex : bool) (st : loopState)
    (trimmedSection : jsstring) (sectionName : string) :
  exists st',
    splitNormally maxChunkSize overlap advanceIndex st trimmedSection sectionName = Some st'.
Proof.
  unfold splitNormally, splitLargeSection.
  destruct (splitLargeLoop_total trimmedSection sectionName
              (nextIndex st) (globalCharIndex st)
              (List.length trimmedSection) 0 0 (chunks st)) as [[chunks' n] Hrun]; [lia|].
  rewrite Hrun. eauto.
Qed.

Lemma splitSection_total (st : loopState) (trimmedSection : jsstring) :
  exists st', splitSection toLowerCase maxChunkSize overlap st trimmedSection = Some st'.
Proof.
  unfold splitSection.
  destruct (containsTable trimmedSection); [|apply splitNormally_total].
  destruct (jsMatch trimmedSection tableStartPattern) as [m|]; [|apply splitNormally_total].
  destruct (0 <? index m); [|apply splitNormally_total].
  destruct (0 <? List.length (trim (substringFrom trimmedSection (index m)))); [|eauto].
  destruct (maxChunkSize * 2 <? _); eauto.
Qed.

Lemma processSection_total (st : loopState) (section_ : jsstring) :
  exists st', processSection toLowerCase maxChunkSize overlap st section_ = Some st'.
Proof.
  unfold processSection.
  destruct (List.length (trim section_) <? 20); [eauto|].
  destruct (List.length (trim section_) <=? maxChunkSize); [eauto|].
  destruct (splitSection_total st (trim section_)) as [st' Hrun].
  rewrite Hrun. eauto.
Qed.

Lemma sectionLoop_total (sections : list jsstring) :
  forall st, exists st',
    sectionLoop toLowerCase maxChunkSize overlap sections st = Some st'.
Proof.
  induction sections as [|section_ more IH]; intros st; simpl; [eauto|].
  destruct (processSection_total st section_) as [st1 Hrun].
  rewrite Hrun. apply IH.
Qed.

Lemma sectionChunks_total (text : jsstring) :
  exists body, sectionChunks toLowerCase maxChunkSize overlap text = Some body.
Proof.
  unfold sectionChunks.
  destruct (sectionLoop_total (segment text) (mkLoop [] 0 0)) as [st Hrun].
  rewrite Hrun. eauto.
Qed.

End ChunkerTotality.

(** With a chunk size of zero the window never moves: the loop of
    [splitLargeSection] does not return on a text that is not empty.  This is
    why the chunk size is taken positive below. *)
Lemma zero_chunk_size_never_returns (text : jsstring) (sectionName : string)
    (overlap startChunkIndex globalCharIndex_ : nat) (chunks_ : list chunk) :
  text <> [] ->
  forall fuel,
    splitLargeLoop fuel text sectionName 0 overlap startChunkIndex globalCharIndex_
      0 0 chunks_ = None.
Proof.
  intros Hnonempty.
  destruct text as [|c rest_]; [contradiction|].
  induction fuel as [|fuel IH]; [reflexivity|].
  cbn. exact IH.
Qed.

Example zero_chunk_size_on_a_paragraph :
  createHealthCheckChunks toLowerAscii 0 defaultOverlap (repeat a_ 25) = None.
Proof. vm_compute. reflexivity. Qed.

(** C10.  For every input string that is empty or trims to the empty string,
    [createHealthCheckChunks] returns the empty chunk list: no fallback chunk
    is emitted and the call returns normally, whatever the runtime and the
    two size arguments are.  A call that returns a chunk, the fallback chunk
    included, was given a text whose trimmed length is positive. *)
Theorem empty_input_gives_no_chunk
    (toLowerCase : jsstring -> jsstring) (maxChunkSize overlap : nat) (text : jsstring) :
  (text = [] \/ trim text = [] ->
   createHealthCheckChunks toLowerCase maxChunkSize overlap text = Some []) /\
  (forall result,
     createHealthCheckChunks toLowerCase maxChunkSize overlap text = Some result ->
     result <> [] ->
     0 < List.length (trim text)).
Proof.
  split.
  - intros Hblank. apply blank_gives_no_chunk.
    destruct Hblank as [Hempty|Htrim]; [rewrite Hempty; apply trim_nil|exact Htrim].
  - intros result Hrun Hnonempty.
    destruct (trim text) as [|c rest_] eqn:Htrim; [|cbn; lia].
    rewrite (blank_gives_no_chunk toLowerCase maxChunkSize overlap text Htrim) in Hrun.
    injection Hrun as Hnil. symmetry in Hnil. contradiction.
Qed.

Lemma empty_input_gives_no_chunk_witness :
  trim blankText = [] /\ chunksOf blankText = Some [].
Proof.
  split; [reflexivity|].
  apply (empty_input_gives_no_chunk toLowerAscii defaultMaxChunkSize defaultOverlap blankText).
  right. reflexivity.
Defined.

(** For every input string whose trimmed form is not empty and every chunk
    size of at least one, [createHealthCheckChunks] returns, and returns at
    least one chunk: the chunks pushed by the loop over the sections when
    there are some, and otherwise exactly one fallback chunk, labelled
    General, with chunkIndex 0 and startChar 0, whose content is the first
    [2 * maxChunkSize] characters (or fewer, when the text is shorter) of the
    trimmed text. *)
Lemma nonblank_input_gives_a_chunk
    (toLowerCase : jsstring -> jsstring) (maxChunkSize overlap : nat) (text : jsstring) :
  0 < maxChunkSize ->
  trim text <> [] ->
  givesAChunk toLowerCase maxChunkSize overlap text.
Proof.
  intros Hmax Hnonblank. unfold givesAChunk.
  destruct (sectionChunks_total toLowerCase maxChunkSize overlap Hmax text) as [body Hbody].
  unfold createHealthCheckChunks. rewrite Hbody.
  destruct (trim text) as [|c rest_] eqn:Htrim; [contradiction|].
  cbn [List.length Nat.eqb Nat.ltb Nat.leb andb].
  destruct body as [|first_ more].
  - exists [], [fallbackChunk maxChunkSize text]. cbn.
    repeat split; try discriminate; try congruence.
    intros _. unfold fallbackChunk, substring. rewrite Htrim.
    rewrite Nat.max_0_l, Nat.min_0_l, Nat.sub_0_r. cbn [skipn].
    rewrite length_firstn. reflexivity.
  - exists (first_ :: more), (first_ :: more). cbn.
    repeat split; try discriminate; congruence.
Qed.

(* ------------------------------------------------------------------ *)
(** ** The chunk splitter on concrete documents *)

(** C3, the code at a failing input.  The document is in normal form; its
    first paragraph exceeds the chunk size, holds a column-header token and
    no table caption, and is split by [splitLargeSection] without the
    counter being advanced: the chunk of the second paragraph gets index 0
    again. *)
Theorem chunk_index_starts_again :
  normalizeText uncaptionedTable = uncaptionedTable /\
  option_map (map chunkIndex) (chunksOf uncaptionedTable) = Some [0; 1; 2; 0] /\
  increasingFrom 0 [0; 1; 2; 0] = false.
Proof.
  split; [vm_compute; reflexivity|].
  split; vm_compute; reflexivity.
Qed.

(** C4, the code at two failing inputs, both in normal form.  The text
    before a table caption is pushed as one chunk whatever its length: a
    chunk labelled General of 1600 characters.  A table is sub-split at line
    breaks only: a table chunk of 3126 characters, above twice the chunk
    size. *)
Theorem chunk_above_size_bound :
  normalizeText longIntroTable = longIntroTable /\
  option_map (map (fun c => (section c, List.length (content c)))) (chunksOf longIntroTable)
    = Some [("General"%string, 1600); ("General - Table Data"%string, 33)] /\
  isTableLabel "General" = false /\
  defaultMaxChunkSize < 1600 /\
  normalizeText longRowTable = longRowTable /\
  option_map (map (fun c => (section c, List.length (content c)))) (chunksOf longRowTable)
    = Some [("General - Table Data"%string, 3126)] /\
  isTableLabel "General - Table Data" = true /\
  2 * defaultMaxChunkSize < 3126.
Proof.
  split; [vm_compute; reflexivity|].
  split; [vm_compute; reflexivity|].
  split; [vm_compute; reflexivity|].
  split; [unfold defaultMaxChunkSize; lia|].
  split; [vm_compute; reflexivity|].
  split; [vm_compute; reflexivity|].
  split; [vm_compute; reflexivity|].
  unfold defaultMaxChunkSize; lia.
Qed.

(** C6, the code at a failing input.  Lines made of white space are emptied
    after the runs of line feeds were collapsed: the result holds three line
    feeds in a row, and normalizing it again changes it. *)
Theorem normalizeText_twice_differs :
  normalizeText blankLines = js "a\n\n\nb" /\
  normalizeText (normalizeText blankLines) = js "a\n\nb" /\
  normalizeText (normalizeText blankLines) <> normalizeText blankLines.
Proof.
  split; [vm_compute; reflexivity|].
  split; [vm_compute; reflexivity|].
  vm_compute. discriminate.
Qed.

(** C5, the claim as stated fails: a document in normal form whose output is
    not the fallback chunk and holds a chunk of 12 characters, the table
    body made of the caption alone. *)
Lemma table_chunk_below_twenty :
  normalizeText shortTable = shortTable /\
  exists chunks_ c,
    chunksOf shortTable = Some chunks_ /\
    In c chunks_ /\
    List.length (content c) < 20 /\
    chunks_ <> [fallbackChunk defaultMaxChunkSize shortTable].
Proof.
  split; [vm_compute; reflexivity|].
  assert (Hsome : option_map (map (fun c => List.length (content c))) (chunksOf shortTable)
                  = Some [1611; 12]) by (vm_compute; reflexivity).
  destruct (chunksOf shortTable) as [chunks_|]; [|discriminate Hsome].
  cbn in Hsome. injection Hsome as Hshape.
  destruct chunks_ as [|c1 [|c2 [|c3 more]]]; try discriminate Hshape.
  exists [c1; c2], c2. cbn in Hshape.
  split; [reflexivity|].
  split; [right; left; reflexivity|].
  split; [injection Hshape as _ H2; rewrite H2; lia|].
  intros Hone. apply (f_equal (@List.length chunk)) in Hone. discriminate Hone.
Qed.

(** C9, the claim as stated fails: no chunk of the scenario is labelled
    Strengths. *)
Lemma scenario_has_no_strengths_chunk :
  ~ (exists chunks_ c,
       chunksOf scenario = Some chunks_ /\ In c chunks_ /\ section c = "Strengths"%string).
Proof.
  intros [chunks_ [c [Hrun [Hin Hlabel]]]].
  vm_compute in Hrun. injection Hrun as Hchunks. subst chunks_.
  destruct Hin as [Hc|[Hc|[]]]; subst c; discriminate.
Qed.

(** C9, amended.  On the scenario text with the default sizes the chunker
    yields exactly two chunks: the first is labelled Stack Overview; the
    second is labelled Actions Required and holds both the Fix A item and the
    Strengths heading with the Good config item, since Strengths is not a
    section header of the splitter.  [extractHealthCheckMetrics] sets the
    stack to acme. *)
Theorem scenario_chunks_and_stack :
  chunksOf scenario =
    Some [ mkChunk (js "Stack Overview\nStack: acme\nPage 1 of 5") "Stack Overview" 0 0 38
         ; mkChunk (js "Actions Required\nFix A: description text that is long enough.\n\nStrengths\nGood config: description text that is long enough.")
             "Actions Required" 1 39 162 ] /\
  includes (js "Fix A")
    (js "Actions Required\nFix A: description text that is long enough.\n\nStrengths\nGood config: description text that is long enough.") = true /\
  includes (js "Good config")
    (js "Actions Required\nFix A: description text that is long enough.\n\nStrengths\nGood config: description text that is long enough.") = true /\
  stack (metricsOf scenario) = Some (js "acme").
Proof.
  split; [vm_compute; reflexivity|].
  split; [vm_compute; reflexivity|].
  split; vm_compute; reflexivity.
Qed.

(* ------------------------------------------------------------------ *)
(** ** The chunk splitter: the minimum length of a chunk *)

Lemma endsWith_append (suffix label : string) :
  endsWith suffix (label ++ suffix) = true.
Proof.
  induction label as [|c label IH].
  - destruct suffix; cbn; rewrite ?Ascii.eqb_refl, ?String.eqb_refl; reflexivity.
  - cbn [String.append endsWith]. rewrite IH. apply orb_true_r.
Qed.

Lemma table_chunk_longEnough (content_ : jsstring) (sectionName : string) (i s e : nat) :
  longEnough (mkChunk content_ (sectionName ++ tableSuffix) i s e).
Proof.
  unfold longEnough, isTableLabel. cbn [section]. rewrite endsWith_append. discriminate.
Qed.

Lemma long_chunk_longEnough (content_ : jsstring) (sectionName : string) (i s e : nat) :
  20 <= List.length content_ -> longEnough (mkChunk content_ sectionName i s e).
Proof. intros Hlen _. exact Hlen. Qed.

Lemma firstSection_in (table : list (string * list regex)) (window : jsstring)
    (label : string) :
  firstSection table window = Some label -> In label (map fst table).
Proof.
  induction table as [|[section_ patterns] more IH]; simpl; [discriminate|].
  destruct (anyPattern patterns window).
  - intros H. injection H as H. left. exact H.
  - intros H. right. apply IH, H.
Qed.

Lemma identify_label_plain (toLowerCase : jsstring -> jsstring) (text : jsstring) :
  isTableLabel (identifyHealthCheckSection toLowerCase text) = false.
Proof.
  unfold identifyHealthCheckSection.
  destruct (firstSection sectionPatterns (inspectedWindow toLowerCase text)) as [label|] eqn:Hfirst.
  - apply firstSection_in in Hfirst.
    assert (Hall : forallb (fun l => negb (isTableLabel l)) (map fst sectionPatterns) = true)
      by (vm_compute; reflexivity).
    rewrite forallb_forall in Hall. apply Hall in Hfirst.
    apply negb_true_iff in Hfirst. exact Hfirst.
  - reflexivity.
Qed.

Section ChunkLengths.

Variable toLowerCase : jsstring -> jsstring.
Variables maxChunkSize overlap : nat.

Lemma splitLargeLoop_longEnough (text : jsstring) (sectionName : string)
    (startChunkIndex globalCharIndex_ : nat) :
  forall fuel start chunksCreated chunks_ chunks' created',
    Forall longEnough chunks_ ->
    splitLargeLoop fuel text sectionName maxChunkSize overlap startChunkIndex
      globalCharIndex_ start chunksCreated chunks_ = Some (chunks', created') ->
    Forall longEnough chunks'.
Proof.
  induction fuel as [|fuel IH]; intros start chunksCreated chunks_ chunks' created' Hall;
    simpl; destruct (start <? List.length text); try discriminate.
  - intros H. injection H as H _. subst. exact Hall.
  - apply IH.
    destruct (20 <? List.length (trim (substring text start (windowEnd text maxChunkSize start))))
      eqn:Hkeep; [|exact Hall].
    apply Forall_app. split; [exact Hall|].
    constructor; [|constructor].
    apply long_chunk_longEnough. apply Nat.ltb_lt in Hkeep. lia.
  - intros H. injection H as H _. subst. exact Hall.
Qed.

Lemma tableStep_longEnough (maxSize : nat) (sectionName : string) (header : jsstring)
    (st : tableState) (line : jsstring) :
  Forall longEnough (tableChunks st) ->
  Forall longEnough (tableChunks (tableStep maxSize sectionName header st line)).
Proof.
  intros Hall. unfold tableStep.
  destruct ((maxSize <? List.length (currentChunk st) + List.length line + 1)
            && (0 <? List.length (currentChunk st))); cbn [tableChunks]; [|exact Hall].
  apply Forall_app. split; [exact Hall|].
  constructor; [apply table_chunk_longEnough|constructor].
Qed.

Lemma tableFold_longEnough (maxSize : nat) (sectionName : string) (header : jsstring)
    (lines : list jsstring) :
  forall st,
    Forall longEnough (tableChunks st) ->
    Forall longEnough
      (tableChunks (fold_left (tableStep maxSize sectionName header) lines st)).
Proof.
  induction lines as [|line more IH]; intros st Hall; simpl; [exact Hall|].
  apply IH, tableStep_longEnough, Hall.
Qed.

Lemma splitTableContent_longEnough (tableContent : jsstring) (maxSize : nat)
    (sectionName : string) (startIndex startChar_ : nat) :
  Forall longEnough (splitTableContent tableContent maxSize sectionName startIndex startChar_).
Proof.
  unfold splitTableContent.
  set (st := fold_left _ _ _).
  assert (Hall : Forall longEnough (tableChunks st)).
  { apply tableFold_longEnough. constructor. }
  destruct (0 <? List.length (trim (currentChunk st))); [|exact Hall].
  apply Forall_app. split; [exact Hall|].
  constructor; [apply table_chunk_longEnough|constructor].
Qed.

Lemma splitNormally_longEnough (advanceIndex : bool) (st st' : loopState)
    (trimmedSection : jsstring) (sectionName : string) :
  Forall longEnough (chunks st) ->
  splitNormally maxChunkSize overlap advanceIndex st trimmedSection sectionName = Some st' ->
  Forall longEnough (chunks st').
Proof.
  intros Hall. unfold splitNormally, splitLargeSection.
  destruct (splitLargeLoop _ _ _ _ _ _ _ _ _ _) as [[chunks' created']|] eqn:Hrun;
    [|discriminate].
  intros H. injection H as H. subst st'. cbn [chunks].
  eapply splitLargeLoop_longEnough; [exact Hall|exact Hrun].
Qed.

Lemma splitSection_longEnough (st st' : loopState) (trimmedSection : jsstring) :
  Forall longEnough (chunks st) ->
  splitSection toLowerCase maxChunkSize overlap st trimmedSection = Some st' ->
  Forall longEnough (chunks st').
Proof.
  intros Hall. unfold splitSection.
  destruct (containsTable trimmedSection); [|apply splitNormally_longEnough, Hall].
  destruct (jsMatch trimmedSection tableStartPattern) as [m|];
    [|apply splitNormally_longEnough, Hall].
  destruct (0 <? index m); [|apply splitNormally_longEnough, Hall].
  set (beforeTable := trim (substring trimmedSection 0 (index m))).
  set (st1 := if 50 <? List.length beforeTable then _ else st).
  assert (Hall1 : Forall longEnough (chunks st1)).
  { unfold st1. destruct (50 <? List.length beforeTable) eqn:Hbefore; [|exact Hall].
    cbn [chunks]. apply Forall_app. split; [exact Hall|].
    constructor; [|constructor].
    apply long_chunk_longEnough. apply Nat.ltb_lt in Hbefore. lia. }
  destruct (0 <? List.length (trim (substringFrom trimmedSection (index m)))).
  - destruct (maxChunkSize * 2 <? _); intros H; injection H as H; subst st'; cbn [chunks];
      apply Forall_app; split; try exact Hall1.
    + apply splitTableContent_longEnough.
    + constructor; [apply table_chunk_longEnough|constructor].
  - intros H. injection H as H. subst st'. exact Hall1.
Qed.

Lemma processSection_longEnough (st st' : loopState) (section_ : jsstring) :
  Forall longEnough (chunks st) ->
  processSection toLowerCase maxChunkSize overlap st section_ = Some st' ->
  Forall longEnough (chunks st').
Proof.
  intros Hall. unfold processSection.
  destruct (List.length (trim section_) <? 20) eqn:Hshort.
  - intros H. injection H as H. subst st'. exact Hall.
  - destruct (List.length (trim section_) <=? maxChunkSize).
    + intros H. injection H as H. subst st'. cbn [chunks].
      apply Forall_app. split; [exact Hall|].
      constructor; [|constructor].
      apply long_chunk_longEnough. apply Nat.ltb_ge in Hshort. exact Hshort.
    + destruct (splitSection _ _ _ st (trim section_)) as [st1|] eqn:Hrun; [|discriminate].
      intros H. injection H as H. subst st'. cbn [chunks].
      eapply splitSection_longEnough; [exact Hall|exact Hrun].
Qed.

Lemma sectionLoop_longEnough (sections : list jsstring) :
  forall st st',
    Forall longEnough (chunks st) ->
    sectionLoop toLowerCase maxChunkSize overlap sections st = Some st' ->
    Forall longEnough (chunks st').
Proof.
  induction sections as [|section_ more IH]; intros st st' Hall; simpl.
  - intros H. injection H as H. subst st'. exact Hall.
  - destruct (processSection _ _ _ st section_) as [st1|] eqn:Hstep; [|discriminate].
    apply IH. eapply processSection_longEnough; [exact Hall|exact Hstep].
Qed.

End ChunkLengths.

(** C5, amended.  Whenever [createHealthCheckChunks] returns, either its
    output is the single fallback chunk, or every emitted chunk whose label
    does not carry the table-data suffix holds at least 20 characters.  No
    minimum is stated for the chunks that carry the suffix. *)
Theorem plain_chunks_hold_twenty
    (toLowerCase : jsstring -> jsstring) (maxChunkSize overlap : nat)
    (text : jsstring) (result : list chunk) :
  createHealthCheckChunks toLowerCase maxChunkSize overlap text = Some result ->
  result = [fallbackChunk maxChunkSize text] \/
  (forall c, In c result ->
     isTableLabel (section c) = false -> 20 <= List.length (content c)).
Proof.
  unfold createHealthCheckChunks.
  destruct (List.length (trim text) =? 0).
  - intros H. injection H as H. subst result. right. intros c [].
  - unfold sectionChunks.
    destruct (sectionLoop _ _ _ (segment text) (mkLoop [] 0 0)) as [st|] eqn:Hloop;
      [|discriminate].
    assert (Hall : Forall longEnough (chunks st)).
    { eapply sectionLoop_longEnough; [|exact Hloop]. constructor. }
    destruct ((List.length (chunks st) =? 0) && (0 <? List.length (trim text)));
      intros H; injection H as H; subst result.
    + left. reflexivity.
    + right. intros c Hin. rewrite Forall_forall in Hall. exact (Hall c Hin).
Qed.

Lemma plain_chunks_hold_twenty_witness :
  exists result,
    chunksOf scenario = Some result /\
    (result = [fallbackChunk defaultMaxChunkSize scenario] \/
     (forall c, In c result ->
        isTableLabel (section c) = false -> 20 <= List.length (content c))).
Proof.
  exists [ mkChunk (js "Stack Overview\nStack: acme\nPage 1 of 5") "Stack Overview" 0 0 38
         ; mkChunk (js "Actions Required\nFix A: description text that is long enough.\n\nStrengths\nGood config: description text that is long enough.")
             "Actions Required" 1 39 162 ].
  assert (Hrun : chunksOf scenario =
    Some [ mkChunk (js "Stack Overview\nStack: acme\nPage 1 of 5") "Stack Overview" 0 0 38
         ; mkChunk (js "Actions Required\nFix A: description text that is long enough.\n\nStrengths\nGood config: description text that is long enough.")
             "Actions Required" 1 39 162 ]) by (vm_compute; reflexivity).
  split; [exact Hrun|].
  exact (plain_chunks_hold_twenty toLowerAscii defaultMaxChunkSize defaultOverlap scenario _ Hrun).
Defined.

(* ------------------------------------------------------------------ *)
(** ** The section classifier *)

Lemma substring_from_start (s : jsstring) (n : nat) : substring s 0 n = firstn n s.
Proof.
  unfold substring. rewrite Nat.max_0_l, Nat.min_0_l, Nat.sub_0_r. reflexivity.
Qed.

Lemma toLowerAscii_firstn (s : jsstring) (n : nat) :
  firstn n (toLowerAscii s) = toLowerAscii (firstn n s).
Proof. unfold toLowerAscii. apply firstn_map. Qed.

Lemma anyPattern_true (patterns : list regex) (window : jsstring) (pattern : regex) :
  In pattern patterns -> test pattern window = true -> anyPattern patterns window = true.
Proof.
  induction patterns as [|first_ more IH]; simpl; [intros []|].
  intros [Heq|Hin] Htest.
  - subst first_. rewrite Htest. reflexivity.
  - destruct (test first_ window); [reflexivity|apply IH; assumption].
Qed.

Lemma anyPattern_false (patterns : list regex) (window : jsstring) :
  (forall pattern, In pattern patterns -> test pattern window = false) ->
  anyPattern patterns window = false.
Proof.
  induction patterns as [|first_ more IH]; simpl; [reflexivity|].
  intros Hnone. rewrite (Hnone first_ (or_introl eq_refl)).
  apply IH. intros pattern Hin. apply Hnone. right. exact Hin.
Qed.

Lemma firstSection_skip (before rest_ : list (string * list regex)) (window : jsstring) :
  (forall label patterns pattern,
     In (label, patterns) before -> In pattern patterns -> test pattern window = false) ->
  firstSection (before ++ rest_) window = firstSection rest_ window.
Proof.
  induction before as [|[label patterns] more IH]; simpl; [reflexivity|].
  intros Hnone.
  rewrite (anyPattern_false patterns window).
  - apply IH. intros l ps p Hin. apply (Hnone l ps p). right. exact Hin.
  - intros pattern Hin. apply (Hnone label patterns pattern); [left; reflexivity|exact Hin].
Qed.

(** C7.  [identifyHealthCheckSection] is a function of the inspected window
    alone, the first 300 characters of the lower-cased text: it returns the
    label of the first entry of the taxonomy, in declaration order, one of
    whose patterns matches the window; it returns General when no pattern of
    any label matches; and when the window matches a pattern of Content
    Modelling and a pattern of Entries it returns Content Modelling.  When
    lower-casing works character by character, two texts with the same first
    300 characters get the same label. *)
Theorem section_is_first_match (toLowerCase : jsstring -> jsstring) (text : jsstring) :
  let window := substring (toLowerCase text) 0 300 in
  (forall other,
     substring (toLowerCase other) 0 300 = window ->
     identifyHealthCheckSection toLowerCase other
       = identifyHealthCheckSection toLowerCase text) /\
  (forall before label patterns after pattern,
     sectionPatterns = before ++ (label, patterns) :: after ->
     (forall l ps p, In (l, ps) before -> In p ps -> test p window = false) ->
     In pattern patterns -> test pattern window = true ->
     identifyHealthCheckSection toLowerCase text = label) /\
  ((forall l ps p, In (l, ps) sectionPatterns -> In p ps -> test p window = false) ->
   identifyHealthCheckSection toLowerCase text = "General"%string) /\
  (forall modelling entries,
     In modelling (patternsOf "Content Modelling") -> test modelling window = true ->
     In entries (patternsOf "Entries") -> test entries window = true ->
     identifyHealthCheckSection toLowerCase text = "Content Modelling"%string) /\
  ((forall s n, firstn n (toLowerCase s) = toLowerCase (firstn n s)) ->
   forall other,
     firstn 300 other = firstn 300 text ->
     identifyHealthCheckSection toLowerCase other
       = identifyHealthCheckSection toLowerCase text).
Proof.
  intros window.
  assert (Hwindow : forall other,
     substring (toLowerCase other) 0 300 = window ->
     identifyHealthCheckSection toLowerCase other
       = identifyHealthCheckSection toLowerCase text).
  { intros other Hsame. unfold identifyHealthCheckSection, inspectedWindow.
    rewrite Hsame. reflexivity. }
  assert (Hfirst : forall before label patterns after pattern,
     sectionPatterns = before ++ (label, patterns) :: after ->
     (forall l ps p, In (l, ps) before -> In p ps -> test p window = false) ->
     In pattern patterns -> test pattern window = true ->
     identifyHealthCheckSection toLowerCase text = label).
  { intros before label patterns after pattern Hsplit Hbefore Hin Htest.
    unfold identifyHealthCheckSection, inspectedWindow. fold window.
    rewrite Hsplit, (firstSection_skip before _ window Hbefore). simpl.
    rewrite (anyPattern_true patterns window pattern Hin Htest). reflexivity. }
  split; [exact Hwindow|split; [exact Hfirst|split; [|split]]].
  - intros Hnone. unfold identifyHealthCheckSection, inspectedWindow. fold window.
    rewrite <- (app_nil_r sectionPatterns).
    rewrite (firstSection_skip sectionPatterns [] window Hnone). reflexivity.
  - intros modelling entries Hin Htest _ _.
    apply (Hfirst [] "Content Modelling"%string (patternsOf "Content Modelling")
             (tl sectionPatterns) modelling); try assumption.
    + reflexivity.
    + intros l ps p [].
  - intros Hpointwise other Hsame. apply Hwindow. unfold window.
    rewrite !substring_from_start, !Hpointwise, Hsame. reflexivity.
Qed.

Lemma section_is_first_match_witness :
  identifyHealthCheckSection toLowerAscii (js "Content Model with 12 Entries")
    = "Content Modelling"%string /\
  identifyHealthCheckSection toLowerAscii (repeat a_ 300 ++ js "security")
    = identifyHealthCheckSection toLowerAscii (repeat a_ 300 ++ js "entries").
Proof.
  split.
  - destruct (section_is_first_match toLowerAscii (js "Content Model with 12 Entries"))
      as [_ [_ [_ [Hpriority _]]]].
    apply (Hpriority (seqOf [liti "content"; ws0; liti "model"]) (liti "entries")).
    + right. right. left. reflexivity.
    + vm_compute. reflexivity.
    + left. reflexivity.
    + vm_compute. reflexivity.
  - destruct (section_is_first_match toLowerAscii (repeat a_ 300 ++ js "entries"))
      as [_ [_ [_ [_ Hprefix]]]].
    apply (Hprefix toLowerAscii_firstn).
    vm_compute. reflexivity.
Defined.

(* ------------------------------------------------------------------ *)
(** ** The metrics extractor: performed and skipped checks *)

Section DigitSplit.

Variable combinedNum : jsstring.
Variable total : jsnum.

Lemma trySplits_first :
  forall fuel from i,
    from <= i < List.length combinedNum ->
    List.length combinedNum - from <= fuel ->
    exactAt combinedNum total i = true ->
    (forall j, from <= j < i -> exactAt combinedNum total j = false) ->
    trySplits fuel from combinedNum total
      = Some (parseInt (substring combinedNum 0 i), parseInt (substringFrom combinedNum i)).
Proof.
  induction fuel as [|fuel IH]; intros from i Hrange Hfuel Hexact Hbefore; [lia|].
  simpl. destruct (from <? List.length combinedNum) eqn:Hlt;
    [|apply Nat.ltb_ge in Hlt; lia].
  destruct (Nat.eq_dec from i) as [Heq|Hneq].
  - subst from. unfold exactAt in Hexact. rewrite Hexact. reflexivity.
  - assert (Hfrom : exactAt combinedNum total from = false) by (apply Hbefore; lia).
    unfold exactAt in Hfrom. rewrite Hfrom.
    apply IH; try assumption; try lia.
    intros j Hj. apply Hbefore. lia.
Qed.

Lemma trySplits_none :
  forall fuel from,
    (forall j, from <= j < List.length combinedNum -> exactAt combinedNum total j = false) ->
    trySplits fuel from combinedNum total = None.
Proof.
  induction fuel as [|fuel IH]; intros from Hnone; [reflexivity|].
  simpl. destruct (from <? List.length combinedNum) eqn:Hlt; [|reflexivity].
  apply Nat.ltb_lt in Hlt.
  assert (Hfrom : exactAt combinedNum total from = false) by (apply Hnone; lia).
  unfold exactAt in Hfrom. rewrite Hfrom.
  apply IH. intros j Hj. apply Hnone. lia.
Qed.

End DigitSplit.

(** The last step of the extractor leaves the three check counts as they
    are. *)
Lemma applyEstimate_checks (m : HealthCheckMetrics) :
  totalChecks (applyEstimate m) = totalChecks m /\
  performedChecks (applyEstimate m) = performedChecks m /\
  skippedChecks (applyEstimate m) = skippedChecks m.
Proof.
  destruct m as [organization_ stack_ runBy_ lastRun_ total_ performed_ skipped_
                   actions_ opportunities_ strengths_].
  unfold applyEstimate. cbn [performedChecks].
  destruct performed_ as [performed|]; [|repeat split; reflexivity].
  destruct (truthy (Some performed)); [|repeat split; reflexivity].
  cbv zeta.
  destruct ((_ =? 0)%float || (_ <? _)%float); repeat split; reflexivity.
Qed.

(** In [extractHealthCheckMetrics] the combined numeral, when its pattern
    matches on the first page, is split by [splitCombined] against the total
    read from the first page. *)
Lemma combined_numeral_is_split
    (toLowerCase : jsstring -> jsstring) (text : jsstring) (checksMatch : matchResult) :
  jsMatch (firstPageOf text) checksPattern = Some checksMatch ->
  (performedChecks (extractHealthCheckMetrics toLowerCase text),
   skippedChecks (extractHealthCheckMetrics toLowerCase text))
  = splitCombined (capture1 checksMatch)
      (totalChecks (extractHealthCheckMetrics toLowerCase text)).
Proof.
  intros Hmatch. unfold extractHealthCheckMetrics. cbv zeta.
  unfold extractChecks. rewrite Hmatch.
  destruct (splitCombined (capture1 checksMatch) _) as [performed_ skipped_] eqn:Hsplit.
  destruct (fold_left _ _ _) as [[actionsCount oppsCount] strengthsCount].
  match goal with
  | |- context [applyEstimate ?m] =>
      destruct (applyEstimate_checks m) as [H1 [H2 H3]]; rewrite H1, H2, H3
  end.
  cbn [totalChecks performedChecks skippedChecks]. rewrite Hsplit. reflexivity.
Qed.

(** C2, the claim as stated fails.  A numeral of one digit has no split
    position, and the fallback split is guarded by a length of at least two:
    both counters stay unset, where the claim makes the last digit the
    skipped count.  A total of zero counts as unknown: the numeral 10 is
    split into 1 and 0, where the claim, finding no exact split and 1 above
    the total, makes the last two digits the skipped count. *)
Lemma one_digit_numeral_left_unset :
  (totalChecks (metricsOf oneDigitReport), performedChecks (metricsOf oneDigitReport),
   skippedChecks (metricsOf oneDigitReport)) = (Some (Num 39), None, None) /\
  splitCombined (js "5") (Some (Num 39)) = (None, None) /\
  splitAsSpecified (js "5") (Num 39) = (NaN, Num 5) /\
  (totalChecks (metricsOf zeroTotalReport), performedChecks (metricsOf zeroTotalReport),
   skippedChecks (metricsOf zeroTotalReport)) = (Some (Num 0), Some (Num 1), Some (Num 0)) /\
  splitCombined (js "10") (Some (Num 0)) = (Some (Num 1), Some (Num 0)) /\
  splitAsSpecified (js "10") (Num 0) = (NaN, Num 10) /\
  ~ (forall combinedNum total,
       combinedNum <> [] -> forallb isDigit combinedNum = true ->
       splitCombined combinedNum (Some total)
         = (Some (fst (splitAsSpecified combinedNum total)),
            Some (snd (splitAsSpecified combinedNum total)))).
Proof.
  split; [vm_compute; reflexivity|].
  split; [vm_compute; reflexivity|].
  split; [vm_compute; reflexivity|].
  split; [vm_compute; reflexivity|].
  split; [vm_compute; reflexivity|].
  split; [vm_compute; reflexivity|].
  intros Hclaim.
  assert (H := Hclaim (js "5") (Num 39) ltac:(discriminate) eq_refl).
  assert (Hcode : splitCombined (js "5") (Some (Num 39)) = (None, None))
    by (vm_compute; reflexivity).
  rewrite Hcode in H. discriminate H.
Qed.

(** C2, amended.  The numbers are the doubles of the code, added and
    compared as the code adds and compares them.  When the combined numeral
    was found and totalChecks is known and not zero: the first split position
    [i] between 1 and the length minus 1, in ascending order, whose parts sum
    to totalChecks gives the performed and skipped counts; when no position
    is exact and the numeral has at least two digits, the last digit is the
    skipped count unless the performed count would then exceed totalChecks,
    in which case the last two digits are the skipped count; when no position
    is exact and the numeral has one digit, both counts stay unset.  When
    totalChecks is unset or zero, the last digit is the skipped count, with
    no check.  The counts of [extractHealthCheckMetrics] are this split of
    the numeral matched on the first page.  For totalChecks 39 and the
    numeral 372 the counts are 37 and 2. *)
Theorem split_of_combined_numeral (combinedNum : jsstring) :
  (forall total : jsnum,
     truthy (Some total) = true ->
     (forall i,
        1 <= i < List.length combinedNum ->
        exactAt combinedNum total i = true ->
        (forall j, 1 <= j < i -> exactAt combinedNum total j = false) ->
        splitCombined combinedNum (Some total)
          = (Some (parseInt (substring combinedNum 0 i)),
             Some (parseInt (substringFrom combinedNum i)))) /\
     ((forall j, 1 <= j < List.length combinedNum -> exactAt combinedNum total j = false) ->
      (2 <= List.length combinedNum ->
       numGt (parseInt (sliceButLast combinedNum 1)) total = false ->
       splitCombined combinedNum (Some total)
         = (Some (parseInt (sliceButLast combinedNum 1)),
            Some (parseInt (sliceLast combinedNum 1)))) /\
      (2 <= List.length combinedNum ->
       numGt (parseInt (sliceButLast combinedNum 1)) total = true ->
       splitCombined combinedNum (Some total)
         = (Some (parseInt (sliceButLast combinedNum 2)),
            Some (parseInt (sliceLast combinedNum 2)))) /\
      (List.length combinedNum < 2 ->
       splitCombined combinedNum (Some total) = (None, None)))) /\
  (forall totalChecks_ : option jsnum,
     truthy totalChecks_ = false ->
     splitCombined combinedNum totalChecks_
       = (Some (parseInt (sliceButLast combinedNum 1)),
          Some (parseInt (sliceLast combinedNum 1)))) /\
  (forall (toLowerCase : jsstring -> jsstring) (text : jsstring) (checksMatch : matchResult),
     jsMatch (firstPageOf text) checksPattern = Some checksMatch ->
     (performedChecks (extractHealthCheckMetrics toLowerCase text),
      skippedChecks (extractHealthCheckMetrics toLowerCase text))
     = splitCombined (capture1 checksMatch)
         (totalChecks (extractHealthCheckMetrics toLowerCase text))) /\
  splitCombined (js "372") (Some (Num 39)) = (Some (Num 37), Some (Num 2)) /\
  (totalChecks (metricsOf combinedReport), performedChecks (metricsOf combinedReport),
   skippedChecks (metricsOf combinedReport)) = (Some (Num 39), Some (Num 37), Some (Num 2)).
Proof.
  split; [|split; [|split; [|split; vm_compute; reflexivity]]].
  - intros total Htruthy. split.
    + intros i Hrange Hexact Hbefore. unfold splitCombined. rewrite Htruthy.
      rewrite (trySplits_first combinedNum total (List.length combinedNum) 1 i);
        try assumption; [reflexivity|lia].
    + intros Hnone.
      assert (Hloop : trySplits (List.length combinedNum) 1 combinedNum total = None)
        by (apply trySplits_none; exact Hnone).
      unfold splitCombined. rewrite Htruthy, Hloop.
      split; [|split].
      * intros Hlen Hgt. apply Nat.leb_le in Hlen. rewrite Hlen, Hgt. reflexivity.
      * intros Hlen Hgt. apply Nat.leb_le in Hlen. rewrite Hlen, Hgt. reflexivity.
      * intros Hlen. apply Nat.leb_gt in Hlen. rewrite Hlen. reflexivity.
  - intros totalChecks_ Hfalsy. unfold splitCombined.
    destruct totalChecks_ as [total|]; [rewrite Hfalsy|]; reflexivity.
  - intros toLowerCase text checksMatch Hmatch.
    exact (combined_numeral_is_split toLowerCase text checksMatch Hmatch).
Qed.

Lemma split_of_combined_numeral_witness :
  splitCombined (js "372") (Some (Num 39))
    = (Some (parseInt (substring (js "372") 0 2)),
       Some (parseInt (substringFrom (js "372") 2))) /\
  splitCombined (js "95") (Some (Num 100))
    = (Some (parseInt (sliceButLast (js "95") 1)), Some (parseInt (sliceLast (js "95") 1))) /\
  splitCombined (js "95") (Some (Num 5))
    = (Some (parseInt (sliceButLast (js "95") 2)), Some (parseInt (sliceLast (js "95") 2))) /\
  splitCombined (js "5") (Some (Num 39)) = (None, None) /\
  splitCombined (js "90071992547409935") (Some (Num 9007199254740992))
    = (Some (parseInt (sliceButLast (js "90071992547409935") 1)),
       Some (parseInt (sliceLast (js "90071992547409935") 1))) /\
  splitCombined (js "10") (Some (Num 0))
    = (Some (parseInt (sliceButLast (js "10") 1)), Some (parseInt (sliceLast (js "10") 1))).
Proof.
  split; [|split; [|split; [|split; [|split]]]].
  - destruct (split_of_combined_numeral (js "372")) as [Hknown _].
    destruct (Hknown (Num 39) ltac:(vm_compute; reflexivity)) as [Hexact _].
    apply (Hexact 2).
    + cbn. lia.
    + vm_compute. reflexivity.
    + intros j Hj. assert (Hone : j = 1) by lia. subst j. vm_compute. reflexivity.
  - destruct (split_of_combined_numeral (js "95")) as [Hknown _].
    destruct (Hknown (Num 100) ltac:(vm_compute; reflexivity)) as [_ Hnone].
    apply Hnone.
    + intros j Hj. cbn in Hj. assert (Hone : j = 1) by lia. subst j. vm_compute. reflexivity.
    + cbn. lia.
    + vm_compute. reflexivity.
  - destruct (split_of_combined_numeral (js "95")) as [Hknown _].
    destruct (Hknown (Num 5) ltac:(vm_compute; reflexivity)) as [_ Hnone].
    apply Hnone.
    + intros j Hj. cbn in Hj. assert (Hone : j = 1) by lia. subst j. vm_compute. reflexivity.
    + cbn. lia.
    + vm_compute. reflexivity.
  - destruct (split_of_combined_numeral (js "5")) as [Hknown _].
    destruct (Hknown (Num 39) ltac:(vm_compute; reflexivity)) as [_ Hnone].
    apply Hnone.
    + intros j Hj. cbn in Hj. lia.
    + cbn. lia.
  - destruct (split_of_combined_numeral (js "90071992547409935")) as [Hknown _].
    destruct (Hknown (Num 9007199254740992) ltac:(vm_compute; reflexivity)) as [_ Hnone].
    apply Hnone.
    + intros j Hj.
      assert (Hall : forallb (fun j => negb (exactAt (js "90071992547409935")
                                             (Num 9007199254740992) j)) (seq 1 16) = true)
        by (vm_compute; reflexivity).
      rewrite forallb_forall in Hall. apply negb_true_iff. apply Hall.
      apply in_seq. cbn in Hj. lia.
    + cbn. lia.
    + vm_compute. reflexivity.
  - destruct (split_of_combined_numeral (js "10")) as [_ [Hunknown _]].
    apply Hunknown. vm_compute. reflexivity.
Defined.

(* ------------------------------------------------------------------ *)
(** ** The metrics extractor: the estimated breakdown *)

Lemma filled_orElse (before : option jsnum) (estimate : jsnum) :
  filled before estimate (orElse before estimate).
Proof.
  unfold filled, orElse. destruct (truthy before); split; intros H;
    try discriminate H; reflexivity.
Qed.

(** C8, the claim as stated fails: a count of performed checks that is zero
    or not a number is present in the metrics, the counted breakdown sums to
    zero, and no category is estimated, where the claim gives each the
    rounded share of the count. *)
Lemma zero_performed_not_estimated :
  (performedChecks (metricsOf zeroPerformed), strengths (metricsOf zeroPerformed),
   areasOfOpportunities (metricsOf zeroPerformed), actionsRequired (metricsOf zeroPerformed))
    = (Some (Num 0), None, None, None) /\
  mathRound (Num 0 * 0.40)%float = Num 0 /\
  (performedChecks (metricsOf nanPerformed), strengths (metricsOf nanPerformed),
   areasOfOpportunities (metricsOf nanPerformed), actionsRequired (metricsOf nanPerformed))
    = (Some NaN, None, None, None) /\
  ~ (forall m p,
       performedChecks m = Some p ->
       implausible m p = true ->
       estimateApplied m p).
Proof.
  split; [vm_compute; reflexivity|].
  split; [vm_compute; reflexivity|].
  split; [vm_compute; reflexivity|].
  intros Hclaim.
  destruct (Hclaim (mkMetrics None None None None None (Some (Num 0)) None None None None)
              (Num 0) eq_refl ltac:(vm_compute; reflexivity)) as [[Hstrengths _] _].
  specialize (Hstrengths eq_refl). discriminate Hstrengths.
Qed.

(** C8, amended.  The estimate is guarded by the truth value of
    performedChecks.  When performedChecks is unset, zero or not a number,
    no category is estimated.  When it is set to another number and the
    counted breakdown values sum to zero or exceed twice performedChecks,
    every category that the counting step did not populate is set to its
    share of performedChecks, [Math.round] of 0.40, 0.38 and 0.22 times the
    count for strengths, opportunities and actions, and a populated category
    keeps its value; a breakdown in between is left as it is.  For 50
    performed checks and no counted value the result is 20 strengths, 19
    opportunities and 11 actions.  Up to 2000 performed checks the rounded
    double-precision products are the exactly rounded shares. *)
Theorem estimate_fills_empty_categories (m : HealthCheckMetrics) :
  (truthy (performedChecks m) = false -> applyEstimate m = m) /\
  (forall p : jsnum,
     performedChecks m = Some p ->
     truthy (Some p) = true ->
     (implausible m p = true -> estimateApplied m p) /\
     (implausible m p = false -> applyEstimate m = m)) /\
  (performedChecks (metricsOf fiftyPerformed), strengths (metricsOf fiftyPerformed),
   areasOfOpportunities (metricsOf fiftyPerformed), actionsRequired (metricsOf fiftyPerformed))
    = (Some (Num 50), Some (Num 20), Some (Num 19), Some (Num 11)) /\
  forallb estimateExact (map Z.of_nat (seq 0 2001)) = true.
Proof.
  split; [|split; [|split; vm_compute; reflexivity]].
  - intros Hfalsy. unfold applyEstimate.
    destruct (performedChecks m) as [performed|]; [|reflexivity].
    rewrite Hfalsy. reflexivity.
  - intros p Hperformed Htruthy. unfold implausible, strictEq, numGt. split.
    + intros Htest. unfold estimateApplied, applyEstimate. rewrite Hperformed, Htruthy.
      fold (breakdownSumOf m). cbv zeta. rewrite Htest.
      cbn [strengths areasOfOpportunities actionsRequired].
      repeat split; apply filled_orElse.
    + intros Htest. unfold applyEstimate. rewrite Hperformed, Htruthy.
      fold (breakdownSumOf m). cbv zeta. rewrite Htest. reflexivity.
Qed.

Lemma estimate_fills_empty_categories_witness :
  estimateApplied (mkMetrics None None None None None (Some (Num 50)) None None None None)
    (Num 50) /\
  applyEstimate
    (mkMetrics None None None None None (Some (Num 10)) None None None (Some (Num 3)))
    = mkMetrics None None None None None (Some (Num 10)) None None None (Some (Num 3)) /\
  applyEstimate (mkMetrics None None None None None (Some NaN) None None None None)
    = mkMetrics None None None None None (Some NaN) None None None None.
Proof.
  split; [|split].
  - destruct (estimate_fills_empty_categories
                (mkMetrics None None None None None (Some (Num 50)) None None None None))
      as [_ [Hset _]].
    destruct (Hset (Num 50) eq_refl ltac:(vm_compute; reflexivity)) as [Hfill _].
    apply Hfill. vm_compute. reflexivity.
  - destruct (estimate_fills_empty_categories
                (mkMetrics None None None None None (Some (Num 10)) None None None
                   (Some (Num 3))))
      as [_ [Hset _]].
    destruct (Hset (Num 10) eq_refl ltac:(vm_compute; reflexivity)) as [_ Hkeep].
    apply Hkeep. vm_compute. reflexivity.
  - destruct (estimate_fills_empty_categories
                (mkMetrics None None None None None (Some NaN) None None None None))
      as [Hfalsy _].
    apply Hfalsy. vm_compute. reflexivity.
Defined.

(* ------------------------------------------------------------------ *)
(** ** Strings: lengths and slices *)

Lemma dropWhile_length {A} (p : A -> bool) (l : list A) :
  List.length (dropWhile p l) <= List.length l.
Proof.
  induction l as [|a l IH]; simpl; [lia|].
  destruct (p a); simpl; lia.
Qed.

Lemma trim_length (s : jsstring) : List.length (trim s) <= List.length s.
Proof.
  unfold trim, trimEnd, trimStart. rewrite length_rev.
  etransitivity; [apply dropWhile_length|].
  rewrite length_rev. apply dropWhile_length.
Qed.

Lemma substring_length (s : jsstring) (a b : nat) :
  a <= b -> List.length (substring s a b) <= b - a.
Proof.
  intros Hab. unfold substring. rewrite length_firstn.
  replace (Nat.max a b) with b by lia. replace (Nat.min a b) with a by lia.
  apply Nat.le_min_l.
Qed.

Lemma startsWith_nil (pat : jsstring) : pat <> [] -> startsWith pat [] = false.
Proof.
  destruct pat as [|c pat]; [contradiction|]. intros _. reflexivity.
Qed.

Lemma lastIndexFrom_bound (pat : jsstring) :
  pat <> [] ->
  forall s i best,
    (lastIndexFrom pat s i best <= Z.max best (i + Z.of_nat (List.length s) - 1))%Z.
Proof.
  intros Hpat. induction s as [|c s IH]; intros i best.
  - simpl. rewrite (startsWith_nil pat Hpat). lia.
  - cbn [lastIndexFrom]. etransitivity; [apply IH|].
    destruct (startsWith pat (c :: s)); cbn [List.length]; lia.
Qed.

Lemma lastIndexOf_bound (s pat : jsstring) :
  pat <> [] -> (lastIndexOf s pat < Z.of_nat (List.length s) \/ lastIndexOf s pat = -1)%Z.
Proof.
  intros Hpat. unfold lastIndexOf.
  pose proof (lastIndexFrom_bound pat Hpat s 0%Z (-1)%Z). lia.
Qed.

Lemma mathMax_in (values : list Z) (m : Z) : mathMax values = Some m -> In m values.
Proof.
  revert m. induction values as [|v more IH]; intros m; simpl; [discriminate|].
  destruct (mathMax more) as [m'|].
  - intros H. injection H as H. subst m.
    destruct (Z.max_spec v m') as [[_ Hmax]|[_ Hmax]]; rewrite Hmax.
    + right. apply IH. reflexivity.
    + left. reflexivity.
  - intros H. injection H as H. left. exact H.
Qed.

(* ------------------------------------------------------------------ *)
(** ** splitLargeSection *)

Lemma windowEnd_bound (text : jsstring) (maxSize start : nat) :
  start < List.length text ->
  windowEnd text maxSize start <= start + maxSize /\
  windowEnd text maxSize start <= List.length text.
Proof.
  intros Hstart. unfold windowEnd.
  set (end0 := Nat.min (start + maxSize) (List.length text)).
  assert (Hend0 : end0 <= start + maxSize /\ end0 <= List.length text)
    by (unfold end0; lia).
  destruct (end0 <? List.length text); [|exact Hend0].
  set (searchArea := substring text start end0).
  destruct (mathMax _) as [bestBreak|] eqn:Hmax; [|exact Hend0].
  destruct (0 <? bestBreak)%Z eqn:Hpos; [|exact Hend0].
  apply mathMax_in, filter_In in Hmax. destruct Hmax as [Hin _].
  assert (Hbest : (bestBreak < Z.of_nat (List.length searchArea))%Z).
  { apply Z.ltb_lt in Hpos.
    destruct Hin as [H|[H|[H|[H|[]]]]]; subst bestBreak;
      match goal with
      | |- (lastIndexOf ?a ?b < _)%Z =>
          destruct (lastIndexOf_bound a b) as [Hlt|Hneg];
            [discriminate|exact Hlt|rewrite Hneg in Hpos; lia]
      end. }
  assert (Harea : List.length searchArea <= end0 - start).
  { unfold searchArea. apply substring_length. unfold end0. lia. }
  lia.
Qed.

Section SplitLarge.

Variables (text : jsstring) (sectionName : string).
Variables (maxSize overlap startChunkIndex globalCharIndex_ : nat).
Hypothesis maxSize_pos : 0 < maxSize.

Lemma splitLargeLoop_spec :
  forall fuel start chunksCreated chunks_,
    List.length text - start <= fuel ->
    exists new,
      splitLargeLoop fuel text sectionName maxSize overlap startChunkIndex
        globalCharIndex_ start chunksCreated chunks_
        = Some (chunks_ ++ new, chunksCreated + List.length new) /\
      map chunkIndex new = seq (startChunkIndex + chunksCreated) (List.length new) /\
      Forall (windowChunk text sectionName maxSize globalCharIndex_) new.
Proof.
  induction fuel as [|fuel IH]; intros start chunksCreated chunks_ Hfuel.
  - exists []. simpl. destruct (start <? List.length text) eqn:Hlt.
    + apply Nat.ltb_lt in Hlt. lia.
    + rewrite app_nil_r, Nat.add_0_r. repeat split. constructor.
  - simpl. destruct (start <? List.length text) eqn:Hlt.
    2:{ exists []. rewrite app_nil_r, Nat.add_0_r. repeat split. constructor. }
    apply Nat.ltb_lt in Hlt.
    pose proof (windowEnd_progress maxSize maxSize_pos text start Hlt) as Hgt.
    destruct (windowEnd_bound text maxSize start Hlt) as [Hwin Hlen].
    set (end_ := windowEnd text maxSize start) in *.
    set (start' := if start <? end_ - overlap then end_ - overlap else end_).
    assert (Hstart' : start < start').
    { unfold start'. destruct (start <? end_ - overlap) eqn:Hnext.
      - apply Nat.ltb_lt in Hnext. exact Hnext.
      - exact Hgt. }
    destruct (20 <? List.length (trim (substring text start end_))) eqn:Hkeep.
    + destruct (IH start' (S chunksCreated)
                  (chunks_ ++ [mkChunk (trim (substring text start end_)) sectionName
                                 (startChunkIndex + chunksCreated)
                                 (globalCharIndex_ + start) (globalCharIndex_ + end_)]))
        as [new [Hrun [Hidx Hall]]]; [lia|].
      exists (mkChunk (trim (substring text start end_)) sectionName
                (startChunkIndex + chunksCreated)
                (globalCharIndex_ + start) (globalCharIndex_ + end_) :: new).
      split; [|split].
      * rewrite Hrun. rewrite <- app_assoc. cbn [app List.length].
        f_equal. f_equal. lia.
      * cbn [map chunkIndex List.length seq]. f_equal.
        rewrite Hidx. f_equal. lia.
      * constructor; [|exact Hall].
        apply Nat.ltb_lt in Hkeep.
        pose proof (trim_length (substring text start end_)) as Htrim.
        pose proof (substring_length text start end_ (Nat.lt_le_incl _ _ Hgt)) as Hsub.
        unfold windowChunk. cbn [section startChar endChar content].
        replace (globalCharIndex_ + start - globalCharIndex_) with start by lia.
        replace (globalCharIndex_ + end_ - globalCharIndex_) with end_ by lia.
        repeat split; try lia.
    + destruct (IH start' chunksCreated chunks_) as [new [Hrun [Hidx Hall]]]; [lia|].
      exists new. repeat split; assumption.
Qed.

End SplitLarge.

(** X1.  For a window of at least one character [splitLargeSection] returns:
    it keeps the chunks it was given, appends its own after them, numbers
    them from the index it was given onwards without a gap, and returns
    their number. *)
Theorem splitLargeSection_appends_numbered
    (text : jsstring) (sectionName : string) (maxSize overlap : nat)
    (chunks_ : list chunk) (startChunkIndex globalCharIndex_ : nat) :
  0 < maxSize ->
  exists new,
    splitLargeSection text sectionName maxSize overlap chunks_ startChunkIndex
      globalCharIndex_ = Some (chunks_ ++ new, List.length new) /\
    map chunkIndex new = seq startChunkIndex (List.length new) /\
    Forall (fun c => section c = sectionName) new.
Proof.
  intros Hmax. unfold splitLargeSection.
  destruct (splitLargeLoop_spec text sectionName maxSize overlap startChunkIndex
              globalCharIndex_ Hmax (List.length text) 0 0 chunks_)
    as [new [Hrun [Hidx Hall]]]; [lia|].
  exists new. rewrite Nat.add_0_r in Hidx. split; [exact Hrun|split; [exact Hidx|]].
  eapply Forall_impl; [|exact Hall]. intros c Hc. exact (proj1 Hc).
Qed.

Lemma splitLargeSection_appends_numbered_witness :
  exists new,
    splitLargeSection (repeat a_ 70) "General" 30 5 [] 4 100 = Some ([] ++ new, List.length new) /\
    map chunkIndex new = seq 4 (List.length new) /\
    Forall (fun c => section c = "General"%string) new.
Proof.
  apply (splitLargeSection_appends_numbered (repeat a_ 70) "General" 30 5 [] 4 100).
  lia.
Defined.

(** X2.  Every chunk that [splitLargeSection] appends is the trimmed slice of
    the section between its recorded offsets: the offsets lie inside the
    section, span at least one and at most [maxSize] characters, and the
    content is longer than 20 and no longer than [maxSize] characters. *)
Theorem splitLargeSection_chunks_are_windows
    (text : jsstring) (sectionName : string) (maxSize overlap : nat)
    (chunks_ : list chunk) (startChunkIndex globalCharIndex_ : nat)
    (result : list chunk) (created : nat) :
  0 < maxSize ->
  splitLargeSection text sectionName maxSize overlap chunks_ startChunkIndex
    globalCharIndex_ = Some (result, created) ->
  forall c, In c (skipn (List.length chunks_) result) ->
    globalCharIndex_ <= startChar c /\
    startChar c < endChar c /\
    endChar c <= globalCharIndex_ + List.length text /\
    endChar c - startChar c <= maxSize /\
    content c = trim (substring text (startChar c - globalCharIndex_)
                        (endChar c - globalCharIndex_)) /\
    20 < List.length (content c) <= maxSize.
Proof.
  intros Hmax Hrun c Hin. unfold splitLargeSection in Hrun.
  destruct (splitLargeLoop_spec text sectionName maxSize overlap startChunkIndex
              globalCharIndex_ Hmax (List.length text) 0 0 chunks_)
    as [new [Hspec [_ Hall]]]; [lia|].
  rewrite Hspec in Hrun. injection Hrun as Hresult _. subst result.
  rewrite skipn_app, skipn_all, Nat.sub_diag in Hin. cbn in Hin.
  rewrite Forall_forall in Hall. exact (proj2 (Hall c Hin)).
Qed.

Lemma splitLargeSection_chunks_are_windows_witness :
  100 <= startChar (mkChunk (repeat a_ 30) "General" 5 125 155) /\
  startChar (mkChunk (repeat a_ 30) "General" 5 125 155)
    < endChar (mkChunk (repeat a_ 30) "General" 5 125 155) /\
  endChar (mkChunk (repeat a_ 30) "General" 5 125 155) <= 100 + List.length (repeat a_ 75) /\
  endChar (mkChunk (repeat a_ 30) "General" 5 125 155)
    - startChar (mkChunk (repeat a_ 30) "General" 5 125 155) <= 30 /\
  content (mkChunk (repeat a_ 30) "General" 5 125 155)
    = trim (substring (repeat a_ 75)
              (startChar (mkChunk (repeat a_ 30) "General" 5 125 155) - 100)
              (endChar (mkChunk (repeat a_ 30) "General" 5 125 155) - 100)) /\
  20 < List.length (content (mkChunk (repeat a_ 30) "General" 5 125 155)) <= 30.
Proof.
  apply (splitLargeSection_chunks_are_windows (repeat a_ 75) "General" 30 5 [] 4 100
           [ mkChunk (repeat a_ 30) "General" 4 100 130
           ; mkChunk (repeat a_ 30) "General" 5 125 155
           ; mkChunk (repeat a_ 25) "General" 6 150 175 ] 3).
  - lia.
  - vm_compute. reflexivity.
  - right. left. reflexivity.
Defined.

(* ------------------------------------------------------------------ *)
(** ** splitTableContent *)

Lemma chained_app (from : nat) (cs : list chunk) (c : chunk) :
  chained from cs ->
  startChar c = chainEnd from cs ->
  startChar c < endChar c ->
  chained from (cs ++ [c]) /\ chainEnd from (cs ++ [c]) = endChar c.
Proof.
  revert from. induction cs as [|c0 cs IH]; intros from Hchain Hstart Hlt; cbn in *.
  - repeat split; assumption.
  - destruct Hchain as [H0 [H1 Hrest]].
    destruct (IH (endChar c0) Hrest Hstart Hlt) as [Hc He].
    repeat split; assumption.
Qed.

Section SplitTable.

Variables (maxSize : nat) (sectionName : string) (header : jsstring).
Variables (startIndex startChar_ : nat).

Lemma push_keeps_tableInvariant (bound : nat) (st : tableState) (next : jsstring) :
  tableInvariant sectionName startIndex startChar_ bound st ->
  0 < List.length (currentChunk st) ->
  List.length next <= bound ->
  tableInvariant sectionName startIndex startChar_ bound
    (mkTable
       (tableChunks st ++
          [mkChunk (trim (currentChunk st)) (sectionName ++ tableSuffix) (tableIndex st)
             (currentStartChar st) (currentStartChar st + List.length (currentChunk st))])
       next (S (tableIndex st))
       (currentStartChar st + List.length (currentChunk st))).
Proof.
  intros [Hlabel [Hidx [Hnext [Hchain [Hend [Hsize Hcur]]]]]] Hpos Hnextlen.
  unfold tableInvariant. cbn [tableChunks currentChunk tableIndex currentStartChar].
  destruct (chained_app startChar_ (tableChunks st)
              (mkChunk (trim (currentChunk st)) (sectionName ++ tableSuffix) (tableIndex st)
                 (currentStartChar st) (currentStartChar st + List.length (currentChunk st))))
    as [Hchain' Hend']; cbn [startChar endChar]; try assumption; try lia.
  rewrite length_app. cbn [List.length].
  split; [|split; [|split; [|split; [|split; [|split]]]]].
  - apply Forall_app. split; [exact Hlabel|]. constructor; [reflexivity|constructor].
  - rewrite map_app, Hidx. cbn [map chunkIndex]. rewrite Hnext.
    rewrite Nat.add_1_r, seq_S. reflexivity.
  - lia.
  - exact Hchain'.
  - symmetry. exact Hend'.
  - apply Forall_app. split; [exact Hsize|]. constructor; [|constructor].
    cbn [content]. pose proof (trim_length (currentChunk st)). lia.
  - exact Hnextlen.
Qed.

Lemma tableStep_keeps_invariant (longest : nat) (st : tableState) (line : jsstring) :
  List.length line <= longest ->
  tableInvariant sectionName startIndex startChar_ (Nat.max maxSize (List.length header + 1 + longest)) st ->
  tableInvariant sectionName startIndex startChar_ (Nat.max maxSize (List.length header + 1 + longest))
    (tableStep maxSize sectionName header st line).
Proof.
  intros Hline Hinv. unfold tableStep.
  destruct ((maxSize <? List.length (currentChunk st) + List.length line + 1)
            && (0 <? List.length (currentChunk st))) eqn:Hcut.
  - apply andb_true_iff in Hcut. destruct Hcut as [_ Hpos]. apply Nat.ltb_lt in Hpos.
    pose proof (push_keeps_tableInvariant _ st header Hinv Hpos ltac:(lia)) as Hpushed.
    destruct Hpushed as [H1 [H2 [H3 [H4 [H5 [H6 _]]]]]].
    unfold tableInvariant. cbn [tableChunks currentChunk tableIndex currentStartChar] in *.
    repeat (split; [assumption|]).
    rewrite !length_app. destruct header; cbn [List.length]; lia.
  - destruct Hinv as [H1 [H2 [H3 [H4 [H5 [H6 H7]]]]]].
    unfold tableInvariant. cbn [tableChunks currentChunk tableIndex currentStartChar].
    repeat (split; [assumption|]).
    rewrite !length_app.
    apply andb_false_iff in Hcut. destruct Hcut as [Hfit|Hempty].
    + apply Nat.ltb_ge in Hfit. destruct (currentChunk st); cbn [List.length] in *; lia.
    + apply Nat.ltb_ge in Hempty.
      destruct (currentChunk st); cbn [List.length] in *; lia.
Qed.

Lemma tableFold_keeps_invariant (longest : nat) (lines : list jsstring) :
  Forall (fun line => List.length line <= longest) lines ->
  forall st,
    tableInvariant sectionName startIndex startChar_ (Nat.max maxSize (List.length header + 1 + longest)) st ->
    tableInvariant sectionName startIndex startChar_ (Nat.max maxSize (List.length header + 1 + longest))
      (fold_left (tableStep maxSize sectionName header) lines st).
Proof.
  induction 1 as [|line more Hline _ IH]; intros st Hinv; simpl; [exact Hinv|].
  apply IH, tableStep_keeps_invariant; assumption.
Qed.

End SplitTable.

Lemma longestLine_bounds (lines : list jsstring) :
  Forall (fun line => List.length line <= longestLine lines) lines.
Proof.
  unfold longestLine.
  assert (H : Forall (fun n => n <= list_max (map (@List.length N) lines))
                (map (@List.length N) lines)) by (apply list_max_le; lia).
  rewrite Forall_map in H. exact H.
Qed.

Lemma splitTableContent_invariant (tableContent : jsstring) (maxSize : nat)
    (sectionName : string) (startIndex startChar_ : nat) :
  let bound := Nat.max maxSize (List.length (tableHeaderOf tableContent) + 1
                                + longestLine (splitChar nl tableContent)) in
  let cs := splitTableContent tableContent maxSize sectionName startIndex startChar_ in
  Forall (fun c => section c = (sectionName ++ tableSuffix)%string) cs /\
  map chunkIndex cs = seq startIndex (List.length cs) /\
  chained startChar_ cs /\
  Forall (fun c => List.length (content c) <= bound) cs.
Proof.
  intros bound cs. unfold cs, splitTableContent. fold (tableHeaderOf tableContent).
  set (st := fold_left _ _ _).
  assert (Hinv : tableInvariant sectionName startIndex startChar_ bound st).
  { apply tableFold_keeps_invariant; [apply longestLine_bounds|].
    unfold tableInvariant. cbn. repeat split; try constructor; lia. }
  destruct (0 <? List.length (trim (currentChunk st))) eqn:Hlast.
  - apply Nat.ltb_lt in Hlast. pose proof (trim_length (currentChunk st)) as Htrim.
    destruct (push_keeps_tableInvariant sectionName startIndex startChar_ bound st []
                Hinv ltac:(lia) ltac:(cbn; lia)) as [H1 [H2 [_ [H4 [_ [H6 _]]]]]].
    cbn [tableChunks] in *. repeat split; assumption.
  - destruct Hinv as [H1 [H2 [_ [H4 [_ [H6 _]]]]]]. repeat split; assumption.
Qed.

(** X3.  The chunks of [splitTableContent] all carry the table-data label of
    the section, are numbered from the index given without a gap, and their
    spans form a chain: the first starts at the offset given, each next one
    starts where the one before ends, and every span is at least one
    character long. *)
Theorem splitTableContent_numbers_and_chains
    (tableContent : jsstring) (maxSize : nat) (sectionName : string)
    (startIndex startChar_ : nat) :
  Forall (fun c => section c = (sectionName ++ tableSuffix)%string)
    (splitTableContent tableContent maxSize sectionName startIndex startChar_) /\
  map chunkIndex (splitTableContent tableContent maxSize sectionName startIndex startChar_)
    = seq startIndex
        (List.length (splitTableContent tableContent maxSize sectionName startIndex startChar_)) /\
  chained startChar_
    (splitTableContent tableContent maxSize sectionName startIndex startChar_).
Proof.
  destruct (splitTableContent_invariant tableContent maxSize sectionName startIndex startChar_)
    as [H1 [H2 [H3 _]]].
  repeat split; assumption.
Qed.

(** X4.  No chunk of [splitTableContent] is longer than the larger of
    [maxSize] and the length of the repeated caption plus one plus the length
    of the longest line of the table: the size limit is exceeded only by a
    line that does not fit on its own. *)
Theorem splitTableContent_size_bound
    (tableContent : jsstring) (maxSize : nat) (sectionName : string)
    (startIndex startChar_ : nat) (c : chunk) :
  In c (splitTableContent tableContent maxSize sectionName startIndex startChar_) ->
  List.length (content c)
    <= Nat.max maxSize
         (List.length (tableHeaderOf tableContent) + 1
          + longestLine (splitChar nl tableContent)).
Proof.
  intros Hin.
  destruct (splitTableContent_invariant tableContent maxSize sectionName startIndex startChar_)
    as [_ [_ [_ Hsize]]].
  rewrite Forall_forall in Hsize. exact (Hsize c Hin).
Qed.

Lemma splitTableContent_size_bound_witness :
  List.length
    (content (mkChunk (js "Displaying 2 records\n\nrow a") "General - Table Data" 1 20 47))
    <= Nat.max 25
         (List.length (tableHeaderOf (js "Displaying 2 records\nrow a\nrow b")) + 1
          + longestLine (splitChar nl (js "Displaying 2 records\nrow a\nrow b"))).
Proof.
  apply (splitTableContent_size_bound (js "Displaying 2 records\nrow a\nrow b") 25
           "General" 0 0).
  vm_compute. right. left. reflexivity.
Defined.

(* ------------------------------------------------------------------ *)
(** ** createHealthCheckChunks: numbering, spans and labels *)

Lemma identify_in_taxonomy (toLowerCase : jsstring -> jsstring) (text : jsstring) :
  In (identifyHealthCheckSection toLowerCase text) taxonomyLabels.
Proof.
  unfold identifyHealthCheckSection, taxonomyLabels. apply in_or_app.
  destruct (firstSection sectionPatterns (inspectedWindow toLowerCase text)) as [label|] eqn:Hfirst.
  - left. apply firstSection_in in Hfirst. exact Hfirst.
  - right. left. reflexivity.
Qed.

Lemma chained_spans (from : nat) (cs : list chunk) :
  chained from cs -> Forall (fun c => startChar c < endChar c) cs.
Proof.
  revert from. induction cs as [|c cs IH]; intros from Hchain; [constructor|].
  destruct Hchain as [_ [Hlt Hrest]]. constructor; [exact Hlt|exact (IH _ Hrest)].
Qed.

Lemma indicesWithinPosition_seq (base from : nat) (cs : list chunk) :
  map chunkIndex cs = seq from (List.length cs) ->
  from <= base ->
  indicesWithinPosition base cs.
Proof.
  revert base from. induction cs as [|c cs IH]; intros base from Hidx Hle; cbn; [exact I|].
  cbn in Hidx. injection Hidx as Hc Hrest.
  split; [lia|]. apply (IH (S base) (S from)); [exact Hrest|lia].
Qed.

Lemma indicesWithinPosition_app (base : nat) (cs new : list chunk) :
  indicesWithinPosition base cs ->
  indicesWithinPosition (base + List.length cs) new ->
  indicesWithinPosition base (cs ++ new).
Proof.
  revert base. induction cs as [|c cs IH]; intros base Hcs Hnew; cbn in *.
  - rewrite Nat.add_0_r in Hnew. exact Hnew.
  - destruct Hcs as [Hc Hrest]. split; [exact Hc|].
    apply IH; [exact Hrest|]. replace (S base + List.length cs) with (base + S (List.length cs)) by lia.
    exact Hnew.
Qed.

Section LoopBody.

Variable toLowerCase : jsstring -> jsstring.
Variables maxChunkSize overlap : nat.
Hypothesis maxChunkSize_pos : 0 < maxChunkSize.

Lemma splitNormally_spec (advanceIndex : bool) (st st' : loopState)
    (trimmedSection : jsstring) (sectionName : string) :
  In sectionName taxonomyLabels ->
  splitNormally maxChunkSize overlap advanceIndex st trimmedSection sectionName = Some st' ->
  exists new,
    chunks st' = chunks st ++ new /\
    nextIndex st' = (if advanceIndex then nextIndex st + List.length new else nextIndex st) /\
    map chunkIndex new = seq (nextIndex st) (List.length new) /\
    Forall wellFormedChunk new.
Proof.
  intros Hlabel. unfold splitNormally, splitLargeSection.
  destruct (splitLargeLoop_spec trimmedSection sectionName maxChunkSize overlap (nextIndex st)
              (globalCharIndex st) maxChunkSize_pos (List.length trimmedSection) 0 0 (chunks st))
    as [new [Hrun [Hidx Hall]]]; [lia|].
  rewrite Hrun. intros H. injection H as H. subst st'. cbn [chunks nextIndex].
  exists new. rewrite Nat.add_0_r in Hidx. repeat split; try assumption.
  eapply Forall_impl; [|exact Hall].
  intros c [Hsection [_ [Hspan _]]]. split; [exact Hspan|]. left. rewrite Hsection. exact Hlabel.
Qed.

(** What one turn of the loop over the sections does to the array and the
    counter. *)
Lemma processSection_spec (st st' : loopState) (section_ : jsstring) :
  processSection toLowerCase maxChunkSize overlap st section_ = Some st' ->
  exists new,
    chunks st' = chunks st ++ new /\
    nextIndex st <= nextIndex st' <= nextIndex st + List.length new /\
    (captioned maxChunkSize section_ = true ->
     nextIndex st' = nextIndex st + List.length new) /\
    map chunkIndex new = seq (nextIndex st) (List.length new) /\
    Forall wellFormedChunk new.
Proof.
  unfold processSection, captioned.
  set (trimmedSection := trim section_).
  pose proof (identify_in_taxonomy toLowerCase trimmedSection) as Hlabel.
  destruct (List.length trimmedSection <? 20) eqn:Hshort.
  { intros H. injection H as H. subst st'. exists []. rewrite app_nil_r. cbn.
    repeat split; try lia. constructor. }
  apply Nat.ltb_ge in Hshort.
  destruct (List.length trimmedSection <=? maxChunkSize) eqn:Hfits.
  { intros H. injection H as H. subst st'. cbn [chunks nextIndex].
    eexists. split; [reflexivity|]. cbn [List.length map chunkIndex seq].
    repeat split; try lia.
    constructor; [|constructor]. split; [cbn; lia|left; exact Hlabel]. }
  destruct (splitSection toLowerCase maxChunkSize overlap st trimmedSection) as [st1|] eqn:Hsplit;
    [|discriminate].
  intros H. injection H as H. subst st'. cbn [chunks nextIndex].
  revert Hsplit. unfold splitSection.
  set (sectionName := identifyHealthCheckSection toLowerCase trimmedSection) in *.
  assert (Hplain : forall advanceIndex,
    splitNormally maxChunkSize overlap advanceIndex st trimmedSection sectionName = Some st1 ->
    exists new,
      chunks st1 = chunks st ++ new /\
      nextIndex st <= nextIndex st1 <= nextIndex st + List.length new /\
      (advanceIndex = true -> nextIndex st1 = nextIndex st + List.length new) /\
      map chunkIndex new = seq (nextIndex st) (List.length new) /\
      Forall wellFormedChunk new).
  { intros advanceIndex Hrun.
    destruct (splitNormally_spec advanceIndex st st1 trimmedSection sectionName Hlabel Hrun)
      as [new [Hchunks [Hnext [Hidx Hall]]]].
    exists new. destruct advanceIndex; repeat split; try assumption; try lia; discriminate. }
  destruct (containsTable trimmedSection).
  2:{ intros Hrun. destruct (Hplain true Hrun) as [new [H1 [H2 [H3 [H4 H5]]]]].
      exists new. split; [exact H1|]. split; [exact H2|].
      split; [intros _; exact (H3 eq_refl)|]. split; assumption. }
  destruct (jsMatch trimmedSection tableStartPattern) as [m|].
  2:{ intros Hrun. destruct (Hplain false Hrun) as [new [H1 [H2 [H3 [H4 H5]]]]].
      exists new. split; [exact H1|]. split; [exact H2|].
      split; [discriminate|]. split; assumption. }
  destruct (0 <? index m) eqn:Hindex.
  2:{ intros Hrun. destruct (Hplain false Hrun) as [new [H1 [H2 [H3 [H4 H5]]]]].
      exists new. split; [exact H1|]. split; [exact H2|].
      split; [discriminate|]. split; assumption. }
  clear Hplain.
  remember (trim (substring trimmedSection 0 (index m))) as beforeTable eqn:HbeforeTable.
  remember (trim (substringFrom trimmedSection (index m))) as tableContent eqn:HtableContent.
  remember (mkChunk beforeTable sectionName (nextIndex st) (globalCharIndex st)
              (globalCharIndex st + List.length beforeTable)) as beforeChunk eqn:HbeforeChunk.
  remember (if 50 <? List.length beforeTable
            then mkLoop (chunks st ++ [beforeChunk]) (S (nextIndex st)) (globalCharIndex st)
            else st) as stBefore eqn:HstBefore.
  assert (Hst1 : exists new1,
    chunks stBefore = chunks st ++ new1 /\
    nextIndex stBefore = nextIndex st + List.length new1 /\
    map chunkIndex new1 = seq (nextIndex st) (List.length new1) /\
    Forall wellFormedChunk new1).
  { subst stBefore. destruct (50 <? List.length beforeTable) eqn:Hbefore.
    - exists [beforeChunk]. apply Nat.ltb_lt in Hbefore. cbn [chunks nextIndex List.length].
      split; [reflexivity|]. split; [lia|]. split; [subst beforeChunk; reflexivity|].
      constructor; [|constructor]. subst beforeChunk. split; [cbn; lia|left; exact Hlabel].
    - exists []. rewrite app_nil_r. cbn [List.length]. split; [reflexivity|].
      split; [lia|]. split; [reflexivity|constructor]. }
  clear HstBefore.
  destruct Hst1 as [new1 [Hchunks1 [Hnext1 [Hidx1 Hall1]]]].
  destruct (0 <? List.length tableContent) eqn:Hcontent.
  2:{ intros H. injection H as H. subst st1. exists new1.
      split; [exact Hchunks1|]. split; [lia|]. split; [intros _; exact Hnext1|].
      split; assumption. }
  apply Nat.ltb_lt in Hcontent.
  assert (Hinside : index m < List.length trimmedSection).
  { pose proof (trim_length (substringFrom trimmedSection (index m))) as Htrim.
    rewrite <- HtableContent in Htrim. unfold substringFrom in Htrim.
    rewrite length_skipn in Htrim. lia. }
  destruct (maxChunkSize * 2 <? List.length tableContent).
  - intros H. injection H as H. subst st1. cbn [chunks nextIndex].
    destruct (splitTableContent_invariant tableContent maxChunkSize sectionName
                (nextIndex stBefore) (globalCharIndex stBefore + index m))
      as [Hlabels [Hidx [Hchain _]]].
    remember (splitTableContent tableContent maxChunkSize sectionName
                (nextIndex stBefore) (globalCharIndex stBefore + index m)) as tableChunks_.
    exists (new1 ++ tableChunks_).
    rewrite Hchunks1, <- app_assoc, length_app.
    split; [reflexivity|]. split; [lia|]. split; [intros _; lia|]. split.
    + rewrite map_app, Hidx1, Hidx, Hnext1, seq_app. reflexivity.
    + apply Forall_app. split; [exact Hall1|].
      apply chained_spans in Hchain.
      rewrite Forall_forall in *. intros c Hin. split; [exact (Hchain c Hin)|].
      right. exists sectionName. split; [exact Hlabel|exact (Hlabels c Hin)].
  - intros H. injection H as H. subst st1. cbn [chunks nextIndex].
    eexists (new1 ++ [_]).
    rewrite Hchunks1, <- app_assoc, length_app. cbn [List.length].
    split; [reflexivity|]. split; [lia|]. split; [intros _; lia|]. split.
    + rewrite map_app, Hidx1. cbn [map chunkIndex]. rewrite Hnext1.
      rewrite Nat.add_1_r, seq_S. reflexivity.
    + apply Forall_app. split; [exact Hall1|]. constructor; [|constructor].
      split; [cbn; lia|]. right. exists sectionName. split; [exact Hlabel|reflexivity].
Qed.

(** What the loop over the sections keeps true of the array and the counter. *)
Lemma sectionLoop_spec (sections : list jsstring) :
  forall st st',
    sectionLoop toLowerCase maxChunkSize overlap sections st = Some st' ->
    nextIndex st <= List.length (chunks st) ->
    indicesWithinPosition 0 (chunks st) ->
    Forall wellFormedChunk (chunks st) ->
    nextIndex st' <= List.length (chunks st') /\
    indicesWithinPosition 0 (chunks st') /\
    Forall wellFormedChunk (chunks st') /\
    (forallb (captioned maxChunkSize) sections = true ->
     nextIndex st = List.length (chunks st) ->
     map chunkIndex (chunks st) = seq 0 (List.length (chunks st)) ->
     map chunkIndex (chunks st') = seq 0 (List.length (chunks st'))).
Proof.
  induction sections as [|section_ more IH]; intros st st' Hrun Hnext Hwithin Hall; simpl in Hrun.
  - injection Hrun as Hrun. subst st'. repeat split; try assumption. intros _ _ H. exact H.
  - destruct (processSection toLowerCase maxChunkSize overlap st section_) as [st1|] eqn:Hstep;
      [|discriminate].
    destruct (processSection_spec st st1 section_ Hstep)
      as [new [Hchunks [Hrange [Hcaptioned [Hidx Hnew]]]]].
    assert (Hlen : List.length (chunks st1) = List.length (chunks st) + List.length new)
      by (rewrite Hchunks; apply length_app).
    destruct (IH st1 st' Hrun) as [H1 [H2 [H3 H4]]].
    + lia.
    + rewrite Hchunks. apply indicesWithinPosition_app; [exact Hwithin|].
      apply (indicesWithinPosition_seq _ (nextIndex st)); [exact Hidx|lia].
    + rewrite Hchunks. apply Forall_app. split; assumption.
    + repeat split; try assumption.
      intros Hall_captioned Hexact Hseq. cbn [forallb] in Hall_captioned.
      apply andb_true_iff in Hall_captioned. destruct Hall_captioned as [Hthis Hrest].
      apply H4; [exact Hrest| |].
      * rewrite (Hcaptioned Hthis). lia.
      * rewrite Hchunks, map_app, Hseq, Hidx, Hexact, length_app, seq_app. reflexivity.
Qed.

End LoopBody.

(** X5.  With a chunk size of at least one, no chunk of
    [createHealthCheckChunks] carries an index above its position in the
    output (the first chunk has index 0), every chunk spans at least one
    character, and every label is a label of the taxonomy or General, with or
    without the table-data suffix. *)
Theorem chunks_are_well_formed
    (toLowerCase : jsstring -> jsstring) (maxChunkSize overlap : nat)
    (text : jsstring) (result : list chunk) :
  0 < maxChunkSize ->
  createHealthCheckChunks toLowerCase maxChunkSize overlap text = Some result ->
  indicesWithinPosition 0 result /\ Forall wellFormedChunk result.
Proof.
  intros Hmax. unfold createHealthCheckChunks.
  destruct (List.length (trim text) =? 0) eqn:Hblank.
  { intros Hresult. injection Hresult as Hresult. subst result. split; [exact I|constructor]. }
  unfold sectionChunks.
  destruct (sectionLoop _ _ _ (segment text) (mkLoop [] 0 0)) as [st|] eqn:Hloop; [|discriminate].
  destruct (sectionLoop_spec toLowerCase maxChunkSize overlap Hmax (segment text) _ st Hloop
              (Nat.le_refl 0) I (Forall_nil _))
    as [_ [Hwithin [Hall _]]].
  destruct ((List.length (chunks st) =? 0) && (0 <? List.length (trim text)));
    intros Hresult; injection Hresult as Hresult; subst result.
  - split; [cbn; lia|]. constructor; [|constructor].
    split.
    + cbn [fallbackChunk startChar endChar]. rewrite substring_from_start, length_firstn.
      apply Nat.eqb_neq in Hblank. lia.
    + left. unfold taxonomyLabels. apply in_or_app. right. left. reflexivity.
  - split; assumption.
Qed.

Lemma chunks_are_well_formed_witness :
  exists result,
    chunksOf scenario = Some result /\
    indicesWithinPosition 0 result /\ Forall wellFormedChunk result.
Proof.
  assert (Hrun : chunksOf scenario = Some
    [ mkChunk (js "Stack Overview\nStack: acme\nPage 1 of 5") "Stack Overview" 0 0 38
    ; mkChunk (js "Actions Required\nFix A: description text that is long enough.\n\nStrengths\nGood config: description text that is long enough.")
        "Actions Required" 1 39 162 ]) by (vm_compute; reflexivity).
  eexists. split; [exact Hrun|].
  apply (chunks_are_well_formed toLowerAscii defaultMaxChunkSize defaultOverlap scenario _
           ltac:(unfold defaultMaxChunkSize; lia) Hrun).
Defined.

(** X6.  When no section of the text takes the branch for an oversized
    section that is flagged as a table and has no caption after its first
    character, the chunks of [createHealthCheckChunks] are numbered 0, 1, 2
    and so on in the order of the output. *)
Theorem chunks_numbered_in_order
    (toLowerCase : jsstring -> jsstring) (maxChunkSize overlap : nat)
    (text : jsstring) (result : list chunk) :
  0 < maxChunkSize ->
  forallb (captioned maxChunkSize) (segment text) = true ->
  createHealthCheckChunks toLowerCase maxChunkSize overlap text = Some result ->
  map chunkIndex result = seq 0 (List.length result).
Proof.
  intros Hmax Hcaptioned. unfold createHealthCheckChunks.
  destruct (List.length (trim text) =? 0).
  { intros Hresult. injection Hresult as Hresult. subst result. reflexivity. }
  unfold sectionChunks.
  destruct (sectionLoop _ _ _ (segment text) (mkLoop [] 0 0)) as [st|] eqn:Hloop; [|discriminate].
  destruct (sectionLoop_spec toLowerCase maxChunkSize overlap Hmax (segment text) _ st Hloop
              (Nat.le_refl 0) I (Forall_nil _))
    as [_ [_ [_ Hseq]]].
  specialize (Hseq Hcaptioned eq_refl eq_refl).
  destruct ((List.length (chunks st) =? 0) && (0 <? List.length (trim text)));
    intros Hresult; injection Hresult as Hresult; subst result.
  - reflexivity.
  - exact Hseq.
Qed.

Lemma chunks_numbered_in_order_witness :
  exists result,
    chunksOf longIntroTable = Some result /\
    map chunkIndex result = seq 0 (List.length result).
Proof.
  destruct (chunksOf longIntroTable) as [result|] eqn:Hrun.
  - exists result. split; [reflexivity|].
    apply (chunks_numbered_in_order toLowerAscii defaultMaxChunkSize defaultOverlap
             longIntroTable result).
    + unfold defaultMaxChunkSize. lia.
    + vm_compute. reflexivity.
    + exact Hrun.
  - exfalso.
    assert (H : match chunksOf longIntroTable with Some _ => true | None => false end = true)
      by (vm_compute; reflexivity).
    rewrite Hrun in H. discriminate H.
Defined.

(* ------------------------------------------------------------------ *)
(** ** The matcher consumes the text it is given *)

Lemma classesIn_any (r : regex) : classesIn anyUnit r.
Proof.
  induction r as [|p|r1 IH1 r2 IH2|r1 IH1 r2 IH2|greedy r1 IH1|i r1 IH1|r1 IH1|]; cbn.
  - exact I.
  - intros c _. exact I.
  - split; assumption.
  - split; assumption.
  - exact IH1.
  - exact IH1.
  - exact I.
  - exact I.
Qed.

Lemma reaches_refl (P : N -> Prop) (x : mstate) : reaches P x x.
Proof.
  exists []. cbn. split; [reflexivity|]. split; [lia|constructor].
Qed.

Lemma reaches_trans (P : N -> Prop) (x y z : mstate) :
  reaches P x y -> reaches P y z -> reaches P x z.
Proof.
  intros [c1 [Hr1 [Hp1 Hf1]]] [c2 [Hr2 [Hp2 Hf2]]].
  exists (c1 ++ c2). rewrite Hr1, Hr2, <- app_assoc, length_app.
  split; [reflexivity|]. split; [lia|apply Forall_app; split; assumption].
Qed.

Lemma reaches_same_place (P : N -> Prop) (x y y' : mstate) :
  reaches P x y -> pos y' = pos y -> rest y' = rest y -> reaches P x y'.
Proof.
  intros [c [Hr [Hp Hf]]] Hpos Hrest. exists c. rewrite Hpos, Hrest. split; [assumption|]. split; assumption.
Qed.

Lemma reaches_consumed (P : N -> Prop) (x y : mstate) :
  reaches P x y ->
  rest x = firstn (N.to_nat (pos y - pos x)) (rest x) ++ rest y /\
  Forall P (firstn (N.to_nat (pos y - pos x)) (rest x)).
Proof.
  intros [c [Hr [Hp Hf]]].
  replace (N.to_nat (pos y - pos x)) with (List.length c) by lia.
  rewrite Hr, firstn_app, firstn_all, Nat.sub_diag. cbn. rewrite app_nil_r.
  split; [reflexivity|exact Hf].
Qed.

Lemma within_suffix (text : jsstring) (x y : mstate) (P : N -> Prop) :
  within text x -> reaches P x y -> exists before, text = before ++ rest y.
Proof.
  intros [[before Htext] _] [c [Hr _]]. exists (before ++ c).
  rewrite Htext, Hr, app_assoc. reflexivity.
Qed.

Lemma consumed_infix (text : jsstring) (x y : mstate) (P : N -> Prop) :
  within text x -> reaches P x y ->
  infix (firstn (N.to_nat (pos y - pos x)) (rest x)) text.
Proof.
  intros [[before Htext] _] Hreach.
  destruct (reaches_consumed P x y Hreach) as [Hsplit _].
  exists before, (rest y). rewrite Htext. f_equal. exact Hsplit.
Qed.

(** A successful match called its continuation on a state that the pattern
    reached from the starting state. *)
Lemma rmatch_sound (text : jsstring) (r : regex) :
  forall (P : N -> Prop), classesIn P r ->
  forall (k : cont) (x z : mstate),
    rmatch r k x = Some z ->
    within text x ->
    exists y, reaches P x y /\ within text y /\ k y = Some z.
Proof.
  induction r as [|p|r1 IH1 r2 IH2|r1 IH1 r2 IH2|greedy r1 IH1|i r1 IH1|r1 IH1|];
    intros P Hclasses k x z Hrun Hwithin; cbn [rmatch classesIn] in *.
  - exists x. split; [apply reaches_refl|split; assumption].
  - destruct (rest x) as [|c t] eqn:Hrest; [discriminate|].
    destruct (p c) eqn:Hp; [|discriminate].
    exists (advance x c t). split; [|split; [|exact Hrun]].
    + exists [c]. cbn. rewrite Hrest. split; [reflexivity|]. split; [lia|].
      constructor; [apply Hclasses, Hp|constructor].
    + destruct Hwithin as [[before Htext] Hcaps]. split; [|exact Hcaps].
      exists (before ++ [c]). cbn. rewrite Htext, Hrest, <- app_assoc. reflexivity.
  - destruct Hclasses as [Hc1 Hc2].
    destruct (IH1 P Hc1 _ x z Hrun Hwithin) as [y1 [Hreach1 [Hwithin1 Hrun1]]].
    destruct (IH2 P Hc2 _ y1 z Hrun1 Hwithin1) as [y2 [Hreach2 [Hwithin2 Hrun2]]].
    exists y2. split; [exact (reaches_trans P x y1 y2 Hreach1 Hreach2)|split; assumption].
  - destruct Hclasses as [Hc1 Hc2].
    destruct (rmatch r1 k x) as [z1|] eqn:Hfirst.
    + injection Hrun as Hrun. subst z1. exact (IH1 P Hc1 k x z Hfirst Hwithin).
    + exact (IH2 P Hc2 k x z Hrun Hwithin).
  - remember (List.length (rest x)) as fuel eqn:Hfuel. clear Hfuel.
    revert x z Hrun Hwithin.
    destruct greedy; induction fuel as [|fuel IHfuel]; intros x z Hrun Hwithin.
    + exists x. split; [apply reaches_refl|split; assumption].
    + cbn in Hrun.
      match type of Hrun with
      | match ?m with _ => _ end = _ => destruct m as [z1|] eqn:Hstep
      end.
      * injection Hrun as Hrun. subst z1.
        destruct (IH1 P Hclasses _ x z Hstep Hwithin) as [y1 [Hreach1 [Hwithin1 Hrun1]]].
        destruct (pos x <? pos y1)%N; [|discriminate Hrun1].
        destruct (IHfuel y1 z Hrun1 Hwithin1) as [y2 [Hreach2 [Hwithin2 Hrun2]]].
        exists y2. split; [exact (reaches_trans P x y1 y2 Hreach1 Hreach2)|split; assumption].
      * exists x. split; [apply reaches_refl|split; assumption].
    + exists x. split; [apply reaches_refl|split; assumption].
    + cbn in Hrun. destruct (k x) as [z1|] eqn:Hstop.
      * injection Hrun as Hrun. subst z1.
        exists x. split; [apply reaches_refl|split; assumption].
      * destruct (IH1 P Hclasses _ x z Hrun Hwithin) as [y1 [Hreach1 [Hwithin1 Hrun1]]].
        destruct (pos x <? pos y1)%N; [|discriminate Hrun1].
        destruct (IHfuel y1 z Hrun1 Hwithin1) as [y2 [Hreach2 [Hwithin2 Hrun2]]].
        exists y2. split; [exact (reaches_trans P x y1 y2 Hreach1 Hreach2)|split; assumption].
  - destruct (IH1 P Hclasses _ x z Hrun Hwithin) as [y [Hreach [Hwithin1 Hrun1]]].
    eexists. split; [|split; [|exact Hrun1]].
    + eapply reaches_same_place; [exact Hreach|reflexivity|reflexivity].
    + destruct Hwithin1 as [Hsuffix Hcaps]. split; [exact Hsuffix|].
      constructor; [|exact Hcaps]. cbn [snd].
      exact (consumed_infix text x y P Hwithin Hreach).
  - destruct (rmatch r1 Some x) as [y1|] eqn:Hahead; [|discriminate].
    destruct (IH1 anyUnit (classesIn_any r1) Some x y1 Hahead Hwithin)
      as [y [_ [Hwithin1 Hsome]]].
    injection Hsome as Hsome. subst y1.
    eexists. split; [|split; [|exact Hrun]].
    + eapply reaches_same_place; [apply reaches_refl|reflexivity|reflexivity].
    + destruct Hwithin as [Hsuffix _]. destruct Hwithin1 as [_ Hcaps].
      split; [exact Hsuffix|exact Hcaps].
  - destruct (atLineStart x); [|discriminate].
    exists x. split; [apply reaches_refl|split; assumption].
Qed.

(* ------------------------------------------------------------------ *)
(** ** The report store: what [store] keeps and what it drops *)

Section StoreLaws.
Import ReportStore StoreExamples.


Lemma eqUnits_eq (a b : jsstring) : eqUnits a b = true <-> a = b.
Proof.
  unfold eqUnits. revert b. induction a as [|x a IH]; intros [|y b]; cbn.
  - split; reflexivity.
  - split; discriminate.
  - split; discriminate.
  - rewrite andb_true_iff in *. specialize (IH b). rewrite andb_true_iff in IH.
    rewrite andb_true_iff, N.eqb_eq, Nat.eqb_eq.
    split.
    + intros [Hlen [Hx Hall]]. f_equal; [exact Hx|]. apply IH. split; [|exact Hall].
      apply Nat.eqb_eq. exact Hlen.
    + intros H. injection H as Hx Hab. destruct (proj2 IH Hab) as [Hlen Hall].
      apply Nat.eqb_eq in Hlen. auto.
Qed.

Lemma eqUnits_refl (a : jsstring) : eqUnits a a = true.
Proof. apply eqUnits_eq. reflexivity. Qed.

Lemma eqUnits_neq (a b : jsstring) : a <> b -> eqUnits a b = false.
Proof.
  intros H. destruct (eqUnits a b) eqn:E; [|reflexivity].
  apply eqUnits_eq in E. contradiction.
Qed.

Section MapLaws.
Variable V : Type.
Implicit Types (m : jsMap V) (k : jsstring) (v : V).

Lemma mapGet_mapSet_same m k v : mapGet (mapSet m k v) k = Some v.
Proof.
  induction m as [|[k' v'] m IH]; cbn.
  - rewrite eqUnits_refl. reflexivity.
  - destruct (eqUnits k' k) eqn:E; cbn; rewrite E; [reflexivity|exact IH].
Qed.

Lemma mapGet_mapSet_other m k k' v :
  k' <> k -> mapGet (mapSet m k v) k' = mapGet m k'.
Proof.
  intros Hne. induction m as [|[k0 v0] m IH]; cbn.
  - rewrite eqUnits_neq by congruence. reflexivity.
  - destruct (eqUnits k0 k) eqn:E; cbn.
    + apply eqUnits_eq in E. subst k0. rewrite eqUnits_neq by congruence. reflexivity.
    + rewrite IH. reflexivity.
Qed.

Lemma mapGet_none_notin m k :
  mapGet m k = None <-> ~ In k (keysOf m).
Proof.
  induction m as [|[k0 v0] m IH]; cbn.
  - split; [intros _ []|reflexivity].
  - destruct (eqUnits k0 k) eqn:E.
    + apply eqUnits_eq in E. split; [discriminate|]. intros H. exfalso. apply H. left. exact E.
    + rewrite IH. split.
      * intros H [Hk|Hk]; [|exact (H Hk)]. subst k0. rewrite eqUnits_refl in E. discriminate.
      * intros H Hk. apply H. right. exact Hk.
Qed.

Lemma keysOf_mapSet_in m k v :
  In k (keysOf m) -> keysOf (mapSet m k v) = keysOf m.
Proof.
  induction m as [|[k0 v0] m IH]; cbn; [intros []|].
  destruct (eqUnits k0 k) eqn:E; cbn.
  - reflexivity.
  - intros [Hk|Hk]; [subst k0; rewrite eqUnits_refl in E; discriminate|].
    f_equal. exact (IH Hk).
Qed.

Lemma keysOf_mapSet_notin m k v :
  ~ In k (keysOf m) ->
  keysOf (mapSet m k v) = keysOf m ++ [k].
Proof.
  induction m as [|[k0 v0] m IH]; cbn; [reflexivity|].
  intros H. destruct (eqUnits k0 k) eqn:E; cbn.
  - apply eqUnits_eq in E. exfalso. apply H. left. exact E.
  - f_equal. apply IH. intros Hk. apply H. right. exact Hk.
Qed.

Lemma keysOf_mapDelete_notin m k :
  ~ In k (keysOf m) -> mapDelete m k = m.
Proof.
  induction m as [|[k0 v0] m IH]; cbn; [reflexivity|].
  intros H. destruct (eqUnits k0 k) eqn:E.
  - apply eqUnits_eq in E. exfalso. apply H. left. exact E.
  - f_equal. apply IH. intros Hk. apply H. right. exact Hk.
Qed.

Lemma mapDelete_incl m k :
  incl (keysOf (mapDelete m k)) (keysOf m).
Proof.
  induction m as [|[k0 v0] m IH]; cbn; [intros x []|].
  destruct (eqUnits k0 k); cbn.
  - intros x Hx. right. exact Hx.
  - intros x [Hx|Hx]; [left; exact Hx|right; exact (IH x Hx)].
Qed.

Lemma mapDelete_NoDup m k :
  NoDup (keysOf m) -> NoDup (keysOf (mapDelete m k)).
Proof.
  induction m as [|[k0 v0] m IH]; cbn; [intros H; exact H|].
  intros H. inversion H as [|? ? Hnotin Hnodup]; subst.
  destruct (eqUnits k0 k); cbn; [exact Hnodup|].
  constructor; [|exact (IH Hnodup)].
  intros Hin. apply Hnotin. exact (mapDelete_incl m k k0 Hin).
Qed.

Lemma mapDelete_length m k :
  List.length (mapDelete m k) <= List.length m.
Proof.
  induction m as [|[k0 v0] m IH]; cbn; [lia|].
  destruct (eqUnits k0 k); cbn; lia.
Qed.

Lemma mapSet_NoDup m k v :
  NoDup (keysOf m) -> NoDup (keysOf (mapSet m k v)).
Proof.
  intros H. destruct (in_dec (list_eq_dec N.eq_dec) k (keysOf m)) as [Hin|Hnotin].
  - rewrite keysOf_mapSet_in by exact Hin. exact H.
  - rewrite keysOf_mapSet_notin by exact Hnotin.
    apply NoDup_app; [exact H|constructor; [intros []|constructor]|].
    intros x Hx [Hk|[]]. subst x. exact (Hnotin Hx).
Qed.

Lemma mapSet_length m k v :
  List.length (mapSet m k v)
  = if mapHas m k then List.length m else S (List.length m).
Proof.
  unfold mapHas. induction m as [|[k0 v0] m IH]; cbn; [reflexivity|].
  destruct (eqUnits k0 k); cbn; [reflexivity|].
  rewrite IH. destruct (mapGet m k); reflexivity.
Qed.

End MapLaws.




Lemma keysOf_mapSet_incl (V : Type) (m : jsMap V) (k : jsstring) (v : V) :
  incl (keysOf (mapSet m k v)) (k :: keysOf m).
Proof.
  induction m as [|[k0 v0] m IH]; cbn.
  - intros x Hx. exact Hx.
  - destruct (eqUnits k0 k); cbn.
    + intros x Hx. right. exact Hx.
    + intros x [Hx|Hx]; [right; left; exact Hx|].
      destruct (IH x Hx) as [H|H]; [left; exact H|right; right; exact H].
Qed.

Lemma mapGet_mapDelete_other (V : Type) (m : jsMap V) (k k' : jsstring) :
  k' <> k -> mapGet (mapDelete m k) k' = mapGet m k'.
Proof.
  intros Hne. induction m as [|[k0 v0] m IH]; cbn; [reflexivity|].
  destruct (eqUnits k0 k) eqn:E; cbn.
  - apply eqUnits_eq in E. subst k0. rewrite eqUnits_neq by congruence. reflexivity.
  - rewrite IH. reflexivity.
Qed.

(** What every store reached with non-empty session names satisfies. *)
Lemma store_keeps_capacity (now : Z) (reports : jsMap StoredReport) (s f t : jsstring) :
  nonEmpty s = true ->
  NoDup (keysOf reports) ->
  Forall (fun k => nonEmpty k = true) (keysOf reports) ->
  List.length reports <= maxSessions ->
  NoDup (keysOf (store now reports s f t)) /\
  Forall (fun k => nonEmpty k = true) (keysOf (store now reports s f t)) /\
  List.length (store now reports s f t) <= maxSessions.
Proof.
  intros Hs Hnodup Hkeys Hlen. unfold store.
  destruct (maxSessions <=? List.length reports) eqn:Hfull.
  - apply Nat.leb_le in Hfull.
    destruct reports as [|[k0 v0] more]; [cbn in Hfull; unfold maxSessions in Hfull; lia|].
    cbn [firstKey]. cbn in Hkeys. inversion Hkeys as [|? ? Hk0 Hmore]; subst.
    rewrite Hk0. cbn [mapDelete]. rewrite eqUnits_refl.
    cbn in Hnodup. inversion Hnodup as [|? ? _ Hnodup']; subst.
    split; [apply mapSet_NoDup; exact Hnodup'|]. split.
    + apply Forall_forall. intros x Hx.
      destruct (keysOf_mapSet_incl _ more s _ x Hx) as [H|H]; [subst x; exact Hs|].
      rewrite Forall_forall in Hmore. exact (Hmore x H).
    + rewrite mapSet_length. cbn in Hlen. destruct (mapHas more s); lia.
  - apply Nat.leb_gt in Hfull.
    split; [apply mapSet_NoDup; exact Hnodup|]. split.
    + apply Forall_forall. intros x Hx.
      destruct (keysOf_mapSet_incl _ reports s _ x Hx) as [H|H]; [subst x; exact Hs|].
      rewrite Forall_forall in Hkeys. exact (Hkeys x H).
    + rewrite mapSet_length. destruct (mapHas reports s); lia.
Qed.

Lemma perform_keeps_capacity (calls : list call) :
  forall reports,
  forallb namesSession calls = true ->
  NoDup (keysOf reports) ->
  Forall (fun k => nonEmpty k = true) (keysOf reports) ->
  List.length reports <= maxSessions ->
  NoDup (keysOf (fold_left perform calls reports)) /\
  List.length (fold_left perform calls reports) <= maxSessions.
Proof.
  induction calls as [|c calls IH]; intros reports Hcalls Hnodup Hkeys Hlen; cbn.
  - split; assumption.
  - cbn in Hcalls. apply andb_true_iff in Hcalls. destruct Hcalls as [Hc Hcalls].
    destruct c as [now s f t|s]; cbn [perform].
    + destruct (store_keeps_capacity now reports s f t Hc Hnodup Hkeys Hlen)
        as [H1 [H2 H3]].
      exact (IH _ Hcalls H1 H2 H3).
    + apply (IH _ Hcalls).
      * apply mapDelete_NoDup. exact Hnodup.
      * apply Forall_forall. intros x Hx. rewrite Forall_forall in Hkeys.
        exact (Hkeys x (mapDelete_incl _ reports s x Hx)).
      * unfold delete. pose proof (mapDelete_length _ reports s). lia.
Qed.

(** X7.  A report that was stored is returned by [get] under its session,
    with the file name, the text and the time of the call, whatever the
    store held before, full or not. *)
Theorem store_then_get
    (now : Z) (reports : jsMap StoredReport) (s f t : jsstring) :
  get (store now reports s f t) s = Some (mkStored s f t now) /\
  has (store now reports s f t) s = true.
Proof.
  unfold get, has, mapHas, store. rewrite mapGet_mapSet_same. split; reflexivity.
Qed.

(** X8.  [store] loses no session but the oldest: the report of every other
    session, the one being stored apart, is after the call what it was
    before. *)
Theorem store_touches_only_oldest
    (now : Z) (reports : jsMap StoredReport) (s f t other : jsstring) :
  other <> s ->
  firstKey reports <> Some other ->
  get (store now reports s f t) other = get reports other.
Proof.
  intros Hne Hfirst. unfold get, store. rewrite mapGet_mapSet_other by exact Hne.
  destruct (maxSessions <=? List.length reports); [|reflexivity].
  destruct (firstKey reports) as [oldestKey|] eqn:Hkey; [|reflexivity].
  destruct (nonEmpty oldestKey); [|reflexivity].
  apply mapGet_mapDelete_other. congruence.
Qed.

Lemma store_touches_only_oldest_witness :
  get (store 7%Z tenSessions (js "new") (js "b.pdf") (js "more text")) (sessionName 3)
    = get tenSessions (sessionName 3).
Proof.
  apply (store_touches_only_oldest 7%Z tenSessions (js "new") (js "b.pdf") (js "more text")
           (sessionName 3)).
  - discriminate.
  - discriminate.
Defined.

(** X9.  However many reports are stored and sessions deleted, the store
    never holds more than [maxSessions] reports, and never two for one
    session, as long as every session is named by a non-empty string. *)
Theorem store_never_exceeds_capacity (calls : list call) :
  forallb namesSession calls = true ->
  List.length (after calls) <= maxSessions /\ NoDup (keysOf (after calls)).
Proof.
  intros Hcalls.
  destruct (perform_keeps_capacity calls [] Hcalls (NoDup_nil _) (Forall_nil _))
    as [Hnodup Hlen]; [unfold maxSessions; cbn; lia|].
  split; assumption.
Qed.

Lemma store_never_exceeds_capacity_witness :
  List.length (after twelveUploads) <= maxSessions /\ NoDup (keysOf (after twelveUploads)).
Proof.
  apply (store_never_exceeds_capacity twelveUploads). vm_compute. reflexivity.
Defined.

(** X10.  A full store makes room for a new session by dropping the session
    stored first, and only that one: the sessions are afterwards the others
    in their order, followed by the new one, and the oldest is not found any
    more. *)
Theorem full_store_evicts_oldest
    (now : Z) (oldest : jsstring) (oldReport : StoredReport)
    (more : jsMap StoredReport) (s f t : jsstring) :
  maxSessions <= S (List.length more) ->
  nonEmpty oldest = true ->
  NoDup (oldest :: keysOf more) ->
  ~ In s (oldest :: keysOf more) ->
  keysOf (store now ((oldest, oldReport) :: more) s f t) = keysOf more ++ [s] /\
  get (store now ((oldest, oldReport) :: more) s f t) oldest = None.
Proof.
  intros Hfull Hname Hnodup Hnew. unfold get, store.
  cbn [List.length firstKey]. apply Nat.leb_le in Hfull. rewrite Hfull, Hname.
  cbn [mapDelete]. rewrite eqUnits_refl.
  assert (Hs : ~ In s (keysOf more)) by (intros H; apply Hnew; right; exact H).
  assert (Hdiff : oldest <> s) by (intros H; apply Hnew; left; exact H).
  split; [apply keysOf_mapSet_notin; exact Hs|].
  rewrite mapGet_mapSet_other by exact Hdiff.
  apply mapGet_none_notin. inversion Hnodup; assumption.
Qed.

Lemma tenSessions_nodup : NoDup (keysOf tenSessions).
Proof.
  apply (NoDup_map_inv (fun k => k)). rewrite map_id.
  vm_compute. repeat (constructor; [cbn; intuition discriminate|]). constructor.
Qed.

Lemma full_store_evicts_oldest_witness :
  keysOf (store 7%Z ((sessionName 0, mkStored (sessionName 0) (js "report.pdf") (js "text") 0%Z)
                       :: tl tenSessions) (js "new") (js "b.pdf") (js "more text"))
    = keysOf (tl tenSessions) ++ [js "new"] /\
  get (store 7%Z ((sessionName 0, mkStored (sessionName 0) (js "report.pdf") (js "text") 0%Z)
                    :: tl tenSessions) (js "new") (js "b.pdf") (js "more text"))
      (sessionName 0) = None.
Proof.
  apply (full_store_evicts_oldest 7%Z (sessionName 0)
           (mkStored (sessionName 0) (js "report.pdf") (js "text") 0%Z)
           (tl tenSessions) (js "new") (js "b.pdf") (js "more text")).
  - vm_compute. lia.
  - reflexivity.
  - exact tenSessions_nodup.
  - vm_compute. intuition discriminate.
Defined.

(** X11.  Storing a report again for a session that a full store already
    holds drops the oldest session all the same, although no room is needed:
    the store is left with one report fewer. *)
Theorem restoring_in_full_store_evicts
    (now : Z) (oldest : jsstring) (oldReport : StoredReport)
    (more : jsMap StoredReport) (s f t : jsstring) :
  maxSessions <= S (List.length more) ->
  nonEmpty oldest = true ->
  NoDup (oldest :: keysOf more) ->
  In s (keysOf more) ->
  get (store now ((oldest, oldReport) :: more) s f t) oldest = None /\
  keysOf (store now ((oldest, oldReport) :: more) s f t) = keysOf more /\
  List.length (store now ((oldest, oldReport) :: more) s f t) = List.length more.
Proof.
  intros Hfull Hname Hnodup Hheld. unfold get, store.
  cbn [List.length firstKey]. apply Nat.leb_le in Hfull. rewrite Hfull, Hname.
  cbn [mapDelete]. rewrite eqUnits_refl.
  inversion Hnodup as [|? ? Hnotin _]; subst.
  assert (Hdiff : oldest <> s) by (intros H; subst s; exact (Hnotin Hheld)).
  split; [|split].
  - rewrite mapGet_mapSet_other by exact Hdiff. apply mapGet_none_notin. exact Hnotin.
  - apply keysOf_mapSet_in. exact Hheld.
  - rewrite mapSet_length. unfold mapHas.
    destruct (mapGet more s) eqn:Hget; [reflexivity|].
    apply mapGet_none_notin in Hget. contradiction.
Qed.

Lemma restoring_in_full_store_evicts_witness :
  get (store 7%Z ((sessionName 0, mkStored (sessionName 0) (js "report.pdf") (js "text") 0%Z)
                    :: tl tenSessions) (sessionName 5) (js "b.pdf") (js "more text"))
      (sessionName 0) = None /\
  keysOf (store 7%Z ((sessionName 0, mkStored (sessionName 0) (js "report.pdf") (js "text") 0%Z)
                       :: tl tenSessions) (sessionName 5) (js "b.pdf") (js "more text"))
    = keysOf (tl tenSessions) /\
  List.length
    (store 7%Z ((sessionName 0, mkStored (sessionName 0) (js "report.pdf") (js "text") 0%Z)
                  :: tl tenSessions) (sessionName 5) (js "b.pdf") (js "more text"))
    = List.length (tl tenSessions).
Proof.
  apply (restoring_in_full_store_evicts 7%Z (sessionName 0)
           (mkStored (sessionName 0) (js "report.pdf") (js "text") 0%Z)
           (tl tenSessions) (sessionName 5) (js "b.pdf") (js "more text")).
  - vm_compute. lia.
  - reflexivity.
  - exact tenSessions_nodup.
  - vm_compute. intuition.
Defined.

(** X12.  When the session stored first is named by the empty string, [store]
    never drops a session: a new session makes the store one report larger,
    beyond [maxSessions] too, and every session that was held is still
    held. *)
Theorem empty_oldest_key_blocks_eviction
    (now : Z) (reports : jsMap StoredReport) (s f t : jsstring) :
  firstKey reports = Some [] ->
  has reports s = false ->
  List.length (store now reports s f t) = S (List.length reports) /\
  forall other, has reports other = true -> has (store now reports s f t) other = true.
Proof.
  intros Hfirst Hnew.
  assert (Hstore : store now reports s f t = mapSet reports s (mkStored s f t now)).
  { unfold store. rewrite Hfirst. cbn [nonEmpty].
    destruct (maxSessions <=? List.length reports); reflexivity. }
  rewrite Hstore. split.
  - rewrite mapSet_length. unfold has in Hnew. rewrite Hnew. reflexivity.
  - intros other Hheld. unfold has, mapHas in *.
    destruct (list_eq_dec N.eq_dec other s) as [Heq|Hne].
    + subst other. rewrite mapGet_mapSet_same. reflexivity.
    + rewrite mapGet_mapSet_other by exact Hne. exact Hheld.
Qed.

Lemma empty_oldest_key_blocks_eviction_witness :
  List.length (store 7%Z tenWithEmptyKey (js "new") (js "b.pdf") (js "more text"))
    = S (List.length tenWithEmptyKey) /\
  forall other, has tenWithEmptyKey other = true ->
    has (store 7%Z tenWithEmptyKey (js "new") (js "b.pdf") (js "more text")) other = true.
Proof.
  apply (empty_oldest_key_blocks_eviction 7%Z tenWithEmptyKey (js "new") (js "b.pdf")
           (js "more text")).
  - reflexivity.
  - reflexivity.
Defined.

End StoreLaws.

(* ------------------------------------------------------------------ *)
(** ** truncateReport *)

Section TruncateReport.
Import ChatRoute.

Section Truncation.

(** A function that cuts a text at [limit] and appends [notice]. *)
Variables (limit : nat) (notice : jsstring) (truncate : jsstring -> jsstring).
Hypothesis truncate_cuts : forall text,
  truncate text
  = if List.length text <=? limit then text else substring text 0 limit ++ notice.

Lemma truncate_long_length (text : jsstring) :
  limit < List.length text ->
  List.length (truncate text) = limit + List.length notice.
Proof.
  intros Hlong. rewrite truncate_cuts.
  replace (List.length text <=? limit) with false by (symmetry; apply Nat.leb_gt; exact Hlong).
  rewrite length_app, substring_from_start, length_firstn. lia.
Qed.

Hypothesis notice_nonempty : 0 < List.length notice.

Lemma truncate_laws (text : jsstring) :
  truncate (truncate text) = truncate text /\
  List.length (truncate text) <= limit + List.length notice /\
  firstn limit (truncate text) = firstn limit text.
Proof.
  destruct (List.length text <=? limit) eqn:Hshort.
  - assert (Hsame : truncate text = text) by (rewrite truncate_cuts, Hshort; reflexivity).
    rewrite !Hsame. apply Nat.leb_le in Hshort.
    split; [reflexivity|]. split; [lia|reflexivity].
  - apply Nat.leb_gt in Hshort. pose proof (truncate_long_length text Hshort) as Hlen.
    assert (Hfirst : firstn limit (truncate text) = firstn limit text).
    { rewrite truncate_cuts.
      replace (List.length text <=? limit) with false by (symmetry; apply Nat.leb_gt; exact Hshort).
      rewrite substring_from_start, firstn_app, length_firstn.
      replace (limit - Nat.min limit (List.length text)) with 0 by lia.
      rewrite firstn_firstn, Nat.min_id, firstn_O. apply app_nil_r. }
    split; [|split; [lia|exact Hfirst]].
    rewrite (truncate_cuts (truncate text)).
    replace (List.length (truncate text) <=? limit) with false
      by (symmetry; apply Nat.leb_gt; lia).
    rewrite substring_from_start, Hfirst, <- substring_from_start.
    rewrite (truncate_cuts text).
    replace (List.length text <=? limit) with false by (symmetry; apply Nat.leb_gt; exact Hshort).
    reflexivity.
Qed.

End Truncation.

Lemma truncationNotice_length : List.length truncationNotice = 28.
Proof. reflexivity. Qed.

(** X13.  Truncating twice is truncating once; the result is never longer than
    the limit plus the notice, and it starts with the first characters of
    the text, up to the limit. *)
Theorem truncateReport_idempotent_and_bounded (text : jsstring) :
  truncateReport (truncateReport text) = truncateReport text /\
  List.length (truncateReport text) <= MAX_REPORT_LENGTH + List.length truncationNotice /\
  firstn MAX_REPORT_LENGTH (truncateReport text) = firstn MAX_REPORT_LENGTH text.
Proof.
  apply (truncate_laws MAX_REPORT_LENGTH truncationNotice truncateReport).
  - intros text0. reflexivity.
  - rewrite truncationNotice_length. apply Nat.lt_0_succ.
Qed.

(** X14.  A text longer than the limit by fewer characters than the notice
    holds comes out of [truncateReport] longer than it went in. *)
Theorem truncateReport_can_lengthen (text : jsstring) :
  MAX_REPORT_LENGTH < List.length text ->
  List.length text < MAX_REPORT_LENGTH + List.length truncationNotice ->
  List.length text < List.length (truncateReport text).
Proof.
  intros Hlong Hwindow.
  rewrite (truncate_long_length MAX_REPORT_LENGTH truncationNotice truncateReport
             (fun text0 => eq_refl) text Hlong).
  exact Hwindow.
Qed.

Lemma truncateReport_can_lengthen_witness :
  List.length justTooLong < List.length (truncateReport justTooLong).
Proof.
  apply (truncateReport_can_lengthen justTooLong).
  - unfold justTooLong. rewrite repeat_length. generalize MAX_REPORT_LENGTH. intros n. lia.
  - unfold justTooLong. rewrite repeat_length, truncationNotice_length.
    generalize MAX_REPORT_LENGTH. intros n. lia.
Defined.

End TruncateReport.

(* ------------------------------------------------------------------ *)
(** ** Chunks are cut from the text *)

Section VerbatimChunks.
Import Verbatim.

Lemma infix_refl (s : jsstring) : infix s s.
Proof. exists [], []. rewrite app_nil_r. reflexivity. Qed.

Lemma infix_trans (a b c : jsstring) : infix a b -> infix b c -> infix a c.
Proof.
  intros [p1 [q1 H1]] [p2 [q2 H2]]. exists (p2 ++ p1), (q1 ++ q2).
  rewrite H2, H1, <- !app_assoc. reflexivity.
Qed.

Lemma infix_firstn (n : nat) (s : jsstring) : infix (firstn n s) s.
Proof. exists [], (skipn n s). cbn. symmetry. apply firstn_skipn. Qed.

Lemma infix_skipn (n : nat) (s : jsstring) : infix (skipn n s) s.
Proof. exists (firstn n s), []. rewrite app_nil_r. symmetry. apply firstn_skipn. Qed.

Lemma infix_substring (s : jsstring) (a b : nat) : infix (substring s a b) s.
Proof.
  unfold substring. eapply infix_trans; [apply infix_firstn|apply infix_skipn].
Qed.

Lemma infix_suffix (before s : jsstring) : infix s (before ++ s).
Proof. exists before, []. rewrite app_nil_r. reflexivity. Qed.

Lemma dropWhile_suffix {A} (p : A -> bool) (l : list A) :
  exists before, l = before ++ dropWhile p l.
Proof.
  induction l as [|a l [before IH]]; cbn.
  - exists []. reflexivity.
  - destruct (p a).
    + exists (a :: before). cbn. rewrite <- IH. reflexivity.
    + exists []. reflexivity.
Qed.

Lemma infix_trim (s : jsstring) : infix (trim s) s.
Proof.
  unfold trim, trimEnd, trimStart.
  destruct (dropWhile_suffix isWhiteSpace s) as [before Hstart].
  destruct (dropWhile_suffix isWhiteSpace (rev (dropWhile isWhiteSpace s))) as [after Hend].
  exists before, (rev after). rewrite Hstart at 1. f_equal.
  rewrite <- (rev_involutive (dropWhile isWhiteSpace s)) at 1.
  rewrite Hend at 1. apply rev_app_distr.
Qed.

(** *** The pieces of a split *)

Lemma capture_in (i : nat) (c : list (nat * jsstring)) (v : jsstring) :
  capture i c = Some v -> In (i, v) c.
Proof.
  induction c as [|[j w] c IH]; cbn; [discriminate|].
  destruct (i =? j) eqn:Hij.
  - intros H. injection H as H. subst w. apply Nat.eqb_eq in Hij. subst j. left. reflexivity.
  - intros H. right. exact (IH H).
Qed.

Lemma capturesOf_pieces (text : jsstring) (n : nat) (c : list (nat * jsstring)) :
  Forall (fun capture_ => infix (snd capture_) text) c ->
  Forall (pieceOf text) (capturesOf n c).
Proof.
  intros Hall. induction n as [|n IH]; cbn; [constructor|].
  apply Forall_app. split; [exact IH|]. constructor; [|constructor].
  destruct (capture (S n) c) as [v|] eqn:Hcap; cbn; [|exact I].
  apply capture_in in Hcap. rewrite Forall_forall in Hall. exact (Hall _ Hcap).
Qed.

Lemma splitLoop_pieces (text : jsstring) (r : regex) (ngroups : nat) (fuel : nat) :
  forall p x,
    (exists before, text = before ++ rest p) ->
    reaches anyUnit p x ->
    Forall (pieceOf text) (splitLoop r ngroups fuel p x).
Proof.
  induction fuel as [|fuel IH]; intros p x [before Hp] Hreach; cbn [splitLoop].
  - constructor; [|constructor]. cbn. rewrite Hp. apply infix_suffix.
  - assert (Hlast : Forall (pieceOf text) [Some (rest p)]).
    { constructor; [|constructor]. cbn. rewrite Hp. apply infix_suffix. }
    destruct (rest x) as [|c t] eqn:Hrest; [exact Hlast|].
    assert (Hnext : reaches anyUnit p (advance x c t)).
    { apply (reaches_trans anyUnit p x); [exact Hreach|].
      exists [c]. cbn. rewrite Hrest. split; [reflexivity|]. split; [lia|].
      constructor; [exact I|constructor]. }
    unfold matchAt.
    destruct (rmatch r Some (mkState (pos x) (prev x) (rest x) [])) as [y|] eqn:Hrun;
      [|apply IH; [exists before; exact Hp|exact Hnext]].
    destruct (pos y =? pos p)%N; [apply IH; [exists before; exact Hp|exact Hnext]|].
    destruct Hreach as [consumed [Hsplit [Hpos _]]].
    assert (Hwithin : within text (mkState (pos x) (prev x) (rest x) [])).
    { split; [|constructor]. exists (before ++ consumed). cbn.
      rewrite Hp, Hsplit, app_assoc. reflexivity. }
    destruct (rmatch_sound text r anyUnit (classesIn_any r) Some _ y Hrun Hwithin)
      as [y' [_ [[[before' Hy] Hcaps] Hsome]]].
    injection Hsome as Hsome. subst y'.
    constructor; [|apply Forall_app; split].
    + cbn. unfold matched.
      replace (N.to_nat (pos x - pos p)) with (List.length consumed) by lia.
      rewrite Hsplit, firstn_app, firstn_all, Nat.sub_diag. cbn. rewrite app_nil_r.
      exists before, (rest x). rewrite Hp, Hsplit. reflexivity.
    + apply capturesOf_pieces. exact Hcaps.
    + apply IH; [exists before'; exact Hy|apply reaches_refl].
Qed.

Lemma splitRegex_pieces (text : jsstring) (r : regex) (ngroups : nat) :
  Forall (pieceOf text) (splitRegex text r ngroups).
Proof.
  unfold splitRegex. destruct text as [|c text].
  - destruct (matchAt r (start [])); [constructor|].
    constructor; [apply infix_refl|constructor].
  - apply splitLoop_pieces; [exists []; reflexivity|apply reaches_refl].
Qed.

Lemma keepNonBlank_pieces (text : jsstring) (parts : list (option jsstring)) :
  Forall (pieceOf text) parts -> Forall (fun s => infix s text) (keepNonBlank parts).
Proof.
  induction parts as [|part parts IH]; cbn; intros H; [constructor|].
  inversion H as [|? ? Hpart Hparts]; subst. apply Forall_app. split; [|exact (IH Hparts)].
  destruct part as [s|]; [|constructor].
  destruct (List.length (trim s)); [constructor|].
  constructor; [exact Hpart|constructor].
Qed.

(** Every section of the segmentation is a run of characters of the text. *)
Lemma segment_pieces (text : jsstring) : Forall (fun s => infix s text) (segment text).
Proof.
  unfold segment.
  destruct (1 <? List.length (keepNonBlank (splitRegex text mainSectionPattern 1)));
    [apply keepNonBlank_pieces, splitRegex_pieces|].
  destruct (1 <? List.length (keepNonBlank (splitRegex text bulletPattern 0)));
    apply keepNonBlank_pieces, splitRegex_pieces.
Qed.

(** *** The loops of the chunker *)

Lemma table_chunk_verbatim (text content_ : jsstring) (sectionName : string) (i s e : nat) :
  verbatim text (mkChunk content_ (sectionName ++ tableSuffix) i s e).
Proof.
  unfold verbatim, isTableLabel. cbn [section]. rewrite endsWith_append. discriminate.
Qed.

Lemma cut_chunk_verbatim (text content_ : jsstring) (sectionName : string) (i s e : nat) :
  infix content_ text -> verbatim text (mkChunk content_ sectionName i s e).
Proof. intros Hcut _. exact Hcut. Qed.

Section VerbatimLoops.

Variable toLowerCase : jsstring -> jsstring.
Variables maxChunkSize overlap : nat.
Variable text : jsstring.

Lemma splitLargeLoop_verbatim (part : jsstring) (sectionName : string)
    (startChunkIndex globalCharIndex_ : nat) :
  infix part text ->
  forall fuel start chunksCreated chunks_ chunks' created',
    Forall (verbatim text) chunks_ ->
    splitLargeLoop fuel part sectionName maxChunkSize overlap startChunkIndex
      globalCharIndex_ start chunksCreated chunks_ = Some (chunks', created') ->
    Forall (verbatim text) chunks'.
Proof.
  intros Hpart.
  induction fuel as [|fuel IH]; intros start chunksCreated chunks_ chunks' created' Hall;
    simpl; destruct (start <? List.length part); try discriminate.
  - intros H. injection H as H _. subst. exact Hall.
  - apply IH.
    destruct (20 <? List.length (trim (substring part start (windowEnd part maxChunkSize start))));
      [|exact Hall].
    apply Forall_app. split; [exact Hall|].
    constructor; [|constructor].
    apply cut_chunk_verbatim.
    eapply infix_trans; [apply infix_trim|].
    eapply infix_trans; [apply infix_substring|exact Hpart].
  - intros H. injection H as H _. subst. exact Hall.
Qed.

Lemma tableStep_verbatim (maxSize : nat) (sectionName : string) (header : jsstring)
    (st : tableState) (line : jsstring) :
  Forall (verbatim text) (tableChunks st) ->
  Forall (verbatim text) (tableChunks (tableStep maxSize sectionName header st line)).
Proof.
  intros Hall. unfold tableStep.
  destruct ((maxSize <? List.length (currentChunk st) + List.length line + 1)
            && (0 <? List.length (currentChunk st))); cbn [tableChunks]; [|exact Hall].
  apply Forall_app. split; [exact Hall|].
  constructor; [apply table_chunk_verbatim|constructor].
Qed.

Lemma tableFold_verbatim (maxSize : nat) (sectionName : string) (header : jsstring)
    (lines : list jsstring) :
  forall st,
    Forall (verbatim text) (tableChunks st) ->
    Forall (verbatim text)
      (tableChunks (fold_left (tableStep maxSize sectionName header) lines st)).
Proof.
  induction lines as [|line more IH]; intros st Hall; simpl; [exact Hall|].
  apply IH, tableStep_verbatim, Hall.
Qed.

Lemma splitTableContent_verbatim (tableContent : jsstring) (maxSize : nat)
    (sectionName : string) (startIndex startChar_ : nat) :
  Forall (verbatim text)
    (splitTableContent tableContent maxSize sectionName startIndex startChar_).
Proof.
  unfold splitTableContent.
  set (st := fold_left _ _ _).
  assert (Hall : Forall (verbatim text) (tableChunks st)).
  { apply tableFold_verbatim. constructor. }
  destruct (0 <? List.length (trim (currentChunk st))); [|exact Hall].
  apply Forall_app. split; [exact Hall|].
  constructor; [apply table_chunk_verbatim|constructor].
Qed.

Lemma splitNormally_verbatim (advanceIndex : bool) (st st' : loopState)
    (trimmedSection : jsstring) (sectionName : string) :
  infix trimmedSection text ->
  Forall (verbatim text) (chunks st) ->
  splitNormally maxChunkSize overlap advanceIndex st trimmedSection sectionName = Some st' ->
  Forall (verbatim text) (chunks st').
Proof.
  intros Hpart Hall. unfold splitNormally, splitLargeSection.
  destruct (splitLargeLoop _ _ _ _ _ _ _ _ _ _) as [[chunks' created']|] eqn:Hrun;
    [|discriminate].
  intros H. injection H as H. subst st'. cbn [chunks].
  eapply splitLargeLoop_verbatim; [exact Hpart|exact Hall|exact Hrun].
Qed.

Lemma splitSection_verbatim (st st' : loopState) (trimmedSection : jsstring) :
  infix trimmedSection text ->
  Forall (verbatim text) (chunks st) ->
  splitSection toLowerCase maxChunkSize overlap st trimmedSection = Some st' ->
  Forall (verbatim text) (chunks st').
Proof.
  intros Hpart Hall. unfold splitSection.
  destruct (containsTable trimmedSection); [|apply splitNormally_verbatim; assumption].
  destruct (jsMatch trimmedSection tableStartPattern) as [m|];
    [|apply splitNormally_verbatim; assumption].
  destruct (0 <? index m); [|apply splitNormally_verbatim; assumption].
  set (beforeTable := trim (substring trimmedSection 0 (index m))).
  set (st1 := if 50 <? List.length beforeTable then _ else st).
  assert (Hall1 : Forall (verbatim text) (chunks st1)).
  { unfold st1. destruct (50 <? List.length beforeTable); [|exact Hall].
    cbn [chunks]. apply Forall_app. split; [exact Hall|].
    constructor; [|constructor].
    apply cut_chunk_verbatim. unfold beforeTable.
    eapply infix_trans; [apply infix_trim|].
    eapply infix_trans; [apply infix_substring|exact Hpart]. }
  destruct (0 <? List.length (trim (substringFrom trimmedSection (index m)))).
  - destruct (maxChunkSize * 2 <? _); intros H; injection H as H; subst st'; cbn [chunks];
      apply Forall_app; split; try exact Hall1.
    + apply splitTableContent_verbatim.
    + constructor; [apply table_chunk_verbatim|constructor].
  - intros H. injection H as H. subst st'. exact Hall1.
Qed.

Lemma processSection_verbatim (st st' : loopState) (section_ : jsstring) :
  infix section_ text ->
  Forall (verbatim text) (chunks st) ->
  processSection toLowerCase maxChunkSize overlap st section_ = Some st' ->
  Forall (verbatim text) (chunks st').
Proof.
  intros Hpart Hall. unfold processSection.
  assert (Htrim : infix (trim section_) text)
    by (eapply infix_trans; [apply infix_trim|exact Hpart]).
  destruct (List.length (trim section_) <? 20).
  - intros H. injection H as H. subst st'. exact Hall.
  - destruct (List.length (trim section_) <=? maxChunkSize).
    + intros H. injection H as H. subst st'. cbn [chunks].
      apply Forall_app. split; [exact Hall|].
      constructor; [|constructor]. apply cut_chunk_verbatim. exact Htrim.
    + destruct (splitSection _ _ _ st (trim section_)) as [st1|] eqn:Hrun; [|discriminate].
      intros H. injection H as H. subst st'. cbn [chunks].
      eapply splitSection_verbatim; [exact Htrim|exact Hall|exact Hrun].
Qed.

Lemma sectionLoop_verbatim (sections : list jsstring) :
  Forall (fun s => infix s text) sections ->
  forall st st',
    Forall (verbatim text) (chunks st) ->
    sectionLoop toLowerCase maxChunkSize overlap sections st = Some st' ->
    Forall (verbatim text) (chunks st').
Proof.
  induction sections as [|section_ more IH]; intros Hparts st st' Hall; simpl.
  - intros H. injection H as H. subst st'. exact Hall.
  - inversion Hparts as [|? ? Hpart Hmore]; subst.
    destruct (processSection _ _ _ st section_) as [st1|] eqn:Hstep; [|discriminate].
    apply (IH Hmore). eapply processSection_verbatim; [exact Hpart|exact Hall|exact Hstep].
Qed.

End VerbatimLoops.

(** X15.  The chunker invents no text: the content of every chunk of
    [createHealthCheckChunks] whose label does not carry the table-data
    suffix is a run of consecutive characters of the input text. *)
Theorem plain_chunks_are_verbatim
    (toLowerCase : jsstring -> jsstring) (maxChunkSize overlap : nat)
    (text : jsstring) (result : list chunk) (c : chunk) :
  createHealthCheckChunks toLowerCase maxChunkSize overlap text = Some result ->
  In c result ->
  isTableLabel (section c) = false ->
  infix (content c) text.
Proof.
  unfold createHealthCheckChunks.
  destruct (List.length (trim text) =? 0).
  { intros H. injection H as H. subst result. intros []. }
  unfold sectionChunks.
  destruct (sectionLoop _ _ _ (segment text) (mkLoop [] 0 0)) as [st|] eqn:Hloop;
    [|discriminate].
  assert (Hall : Forall (verbatim text) (chunks st)).
  { eapply sectionLoop_verbatim; [apply segment_pieces| |exact Hloop]. constructor. }
  destruct ((List.length (chunks st) =? 0) && (0 <? List.length (trim text)));
    intros H; injection H as H; subst result.
  - intros [Hc|[]] _. subst c. cbn [fallbackChunk content].
    eapply infix_trans; [apply infix_substring|apply infix_trim].
  - intros Hin. rewrite Forall_forall in Hall. exact (Hall c Hin).
Qed.

Lemma plain_chunks_are_verbatim_witness :
  infix
    (content (mkChunk (js "Stack Overview\nStack: acme\nPage 1 of 5") "Stack Overview" 0 0 38))
    scenario.
Proof.
  apply (plain_chunks_are_verbatim toLowerAscii defaultMaxChunkSize defaultOverlap scenario
           [ mkChunk (js "Stack Overview\nStack: acme\nPage 1 of 5") "Stack Overview" 0 0 38
           ; mkChunk (js "Actions Required\nFix A: description text that is long enough.\n\nStrengths\nGood config: description text that is long enough.")
               "Actions Required" 1 39 162 ]).
  - vm_compute. reflexivity.
  - left. reflexivity.
  - vm_compute. reflexivity.
Defined.

End VerbatimChunks.

(* ------------------------------------------------------------------ *)
(** ** normalizeText: what the result looks like *)

Section NormalizedShape.
Import TextShape.

Lemma Forall_dropWhile {A} (P : A -> Prop) (p : A -> bool) (l : list A) :
  Forall P l -> Forall P (dropWhile p l).
Proof.
  induction l as [|a l IH]; cbn; intros H; [exact H|].
  destruct (p a); [|exact H]. apply IH. inversion H; assumption.
Qed.

Lemma Forall_trim (P : N -> Prop) (s : jsstring) : Forall P s -> Forall P (trim s).
Proof.
  intros H. unfold trim, trimEnd, trimStart.
  apply Forall_rev, Forall_dropWhile, Forall_rev, Forall_dropWhile. exact H.
Qed.

Lemma Forall_splitChar (P : N -> Prop) (sep : N) (s : jsstring) :
  Forall P s -> Forall (Forall P) (splitChar sep s).
Proof.
  induction s as [|c s IH]; cbn; intros H.
  - constructor; constructor.
  - inversion H as [|? ? Hc Hs]; subst. specialize (IH Hs).
    destruct (c =? sep)%N.
    + constructor; [constructor|exact IH].
    + destruct (splitChar sep s) as [|p ps]; [constructor; [constructor; [exact Hc|constructor]|constructor]|].
      inversion IH; subst. constructor; [constructor; assumption|assumption].
Qed.

Lemma Forall_join (P : N -> Prop) (sep : N) (parts : list jsstring) :
  P sep -> Forall (Forall P) parts -> Forall P (join sep parts).
Proof.
  intros Hsep. induction parts as [|p ps IH]; cbn; intros H; [constructor|].
  inversion H as [|? ? Hp Hps]; subst.
  destruct ps as [|q qs]; [exact Hp|].
  apply Forall_app. split; [exact Hp|]. constructor; [exact Hsep|exact (IH Hps)].
Qed.

(** *** The pattern for a run of blanks *)

Lemma greedy_star_matches (r : regex) (x : mstate) :
  exists y, rmatch (Star true r) Some x = Some y.
Proof.
  cbn [rmatch]. destruct (List.length (rest x)) as [|fuel].
  - exists x. reflexivity.
  - cbn zeta.
    match goal with
    | |- exists y, match ?m with _ => _ end = _ => destruct m as [z|]
    end.
    + exists z. reflexivity.
    + exists x. reflexivity.
Qed.

Lemma blankRun_matches (x : mstate) (c : N) (t : jsstring) :
  rest x = c :: t -> blank c = true ->
  exists y, rmatch (plus (Class blank)) Some x = Some y.
Proof.
  intros Hrest Hblank. unfold plus. cbn [rmatch]. rewrite Hrest, Hblank.
  apply (greedy_star_matches (Class blank)).
Qed.

Lemma blankRun_consumes (p : N) (pv : option N) (s : jsstring) (y : mstate) :
  rmatch (plus (Class blank)) Some (mkState p pv s []) = Some y ->
  (p < pos y)%N /\ List.length (rest y) < List.length s /\ ~ startsUnblank s.
Proof.
  unfold plus. intros Hrun. cbn [rmatch] in Hrun. cbn [rest] in Hrun.
  destruct s as [|c t]; [discriminate Hrun|].
  destruct (blank c) eqn:Hc; [|discriminate Hrun].
  destruct (rmatch_sound t (Star true (Class blank)) anyUnit (classesIn_any _) Some
              (advance (mkState p pv (c :: t) []) c t) y Hrun)
    as [y' [[consumed [Hrest [Hpos _]]] [_ Hsome]]].
  { split; [exists []; reflexivity|constructor]. }
  injection Hsome as Hsome. subst y'. cbn in Hrest, Hpos.
  split; [lia|]. split.
  - cbn. rewrite Hrest, length_app. lia.
  - cbn. rewrite Hc. discriminate.
Qed.

Lemma blankStar_maximal (n : nat) :
  forall x, List.length (rest x) = n ->
  exists y, rmatch (Star true (Class blank)) Some x = Some y /\ startsUnblank (rest y).
Proof.
  induction n as [|n IH]; intros x Hlen.
  - exists x. cbn [rmatch]. rewrite Hlen. split; [reflexivity|].
    apply length_zero_iff_nil in Hlen. rewrite Hlen. exact I.
  - destruct (rest x) as [|c t] eqn:Hrest; [discriminate Hlen|].
    injection Hlen as Hlen.
    specialize (IH (advance x c t) Hlen).
    cbn [rmatch] in IH. cbn [advance rest] in IH. rewrite Hlen in IH.
    cbn [rmatch]. rewrite Hrest. cbn [List.length]. rewrite Hlen, Hrest.
    destruct (blank c) eqn:Hc.
    + replace (pos x <? pos (advance x c t))%N with true
        by (symmetry; apply N.ltb_lt; cbn; lia).
      destruct IH as [y [Hrun Hy]]. rewrite Hrun. exists y. split; [reflexivity|exact Hy].
    + exists x. split; [reflexivity|]. rewrite Hrest. exact Hc.
Qed.

Lemma blankRun_maximal (x y : mstate) :
  rmatch (plus (Class blank)) Some x = Some y -> startsUnblank (rest y).
Proof.
  unfold plus. cbn [rmatch]. destruct (rest x) as [|c t] eqn:Hrest; [discriminate|].
  destruct (blank c); [|discriminate].
  destruct (blankStar_maximal (List.length t) (advance x c t) eq_refl) as [y' [Hrun Hy]].
  cbn [rmatch] in Hrun. intros H. rewrite Hrun in H. injection H as H. subst y'. exact Hy.
Qed.

(** The search for a run of blanks skips characters that are no blanks, and
    the run it finds ends before a character that is no blank. *)
Lemma blankRun_search (s : jsstring) :
  forall (p : N) (pv : option N),
  match searchLoop (plus (Class blank)) p pv s with
  | Some (x0, y) =>
      exists skipped,
        s = skipped ++ rest x0 /\
        Forall (fun c => blank c = false) skipped /\
        pos x0 = (p + N.of_nat (List.length skipped))%N /\
        (pos x0 < pos y)%N /\
        List.length (rest y) < List.length (rest x0) /\
        ~ startsUnblank (rest x0) /\
        startsUnblank (rest y)
  | None => Forall (fun c => blank c = false) s
  end.
Proof.
  induction s as [|c t IH]; intros p pv; cbn [searchLoop].
  - destruct (rmatch (plus (Class blank)) Some (mkState p pv [] [])) as [y|] eqn:Hrun.
    + destruct (blankRun_consumes p pv [] y Hrun) as [_ [Hlen _]]. cbn in Hlen. lia.
    + constructor.
  - destruct (rmatch (plus (Class blank)) Some (mkState p pv (c :: t) [])) as [y|] eqn:Hrun.
    + destruct (blankRun_consumes p pv (c :: t) y Hrun) as [Hpos [Hlen Hstart]].
      exists []. cbn [app List.length rest pos]. split; [reflexivity|]. split; [constructor|].
      split; [lia|]. split; [exact Hpos|]. split; [exact Hlen|]. split; [exact Hstart|].
      exact (blankRun_maximal _ _ Hrun).
    + assert (Hc : blank c = false).
      { destruct (blank c) eqn:Hblank; [|reflexivity].
        destruct (blankRun_matches (mkState p pv (c :: t) []) c t eq_refl Hblank) as [y Hy].
        rewrite Hy in Hrun. discriminate Hrun. }
      specialize (IH (N.succ p) (Some c)).
      destruct (searchLoop (plus (Class blank)) (N.succ p) (Some c) t) as [[x0 y]|].
      * destruct IH as [skipped [Ht [Hall [Hpos Hmore]]]].
        exists (c :: skipped). cbn [app List.length]. split; [rewrite Ht at 1; reflexivity|].
        split; [constructor; assumption|]. split; [lia|exact Hmore].
      * constructor; assumption.
Qed.

Lemma blank_false_tidy (c : N) : blank c = false -> strayWhiteSpace c = false.
Proof.
  unfold blank, strayWhiteSpace. intros H.
  destruct (isWhiteSpace c); [|reflexivity].
  destruct (c =? nl)%N; [|discriminate H].
  cbn. apply andb_false_r.
Qed.

Lemma blank_false_unspaced (c : N) : blank c = false -> c <> space.
Proof. intros H Hc. subst c. discriminate H. Qed.

(** *** Pairs of characters *)

Lemma infix_hasPair (a b : N) (s : jsstring) : infix [a; b] s -> hasPair a b s.
Proof.
  intros [before [after Hs]]. subst s.
  induction before as [|x before IH]; cbn [app].
  - cbn. left. split; reflexivity.
  - destruct before as [|y before]; cbn [app] in *; cbn [hasPair]; right; exact IH.
Qed.

Lemma hasPair_infix (a b : N) (s : jsstring) : hasPair a b s -> infix [a; b] s.
Proof.
  induction s as [|x s IH]; cbn [hasPair]; [intros []|].
  destruct s as [|y s]; [intros []|].
  intros [[Hx Hy]|Hmore].
  - subst x y. exists [], s. reflexivity.
  - destruct (IH Hmore) as [before [after Hs]]. exists (x :: before), after.
    cbn [app]. rewrite Hs. reflexivity.
Qed.

Lemma hasPair_cons (a b x : N) (s : jsstring) :
  hasPair a b (x :: s) -> (x = a /\ ~ match s with [] => True | y :: _ => y <> b end)
                          \/ hasPair a b s.
Proof.
  cbn [hasPair]. destruct s as [|y s]; [intros []|].
  intros [[Hx Hy]|Hmore]; [left|right; exact Hmore].
  split; [exact Hx|]. intros H. exact (H Hy).
Qed.

(** No pair that starts with [a] in a text appended to a text without [a]. *)
Lemma hasPair_app_without (a b : N) (l s : jsstring) :
  Forall (fun c => c <> a) l -> hasPair a b (l ++ s) -> hasPair a b s.
Proof.
  induction l as [|x l IH]; cbn [app]; intros Hall H; [exact H|].
  inversion Hall as [|? ? Hx Hl]; subst.
  destruct (hasPair_cons a b x (l ++ s) H) as [[Heq _]|Hmore]; [contradiction|].
  exact (IH Hl Hmore).
Qed.

(** No pair of two [a] across a separator that is not [a]. *)
Lemma hasPair_app_sep (a sep : N) (l r : jsstring) :
  sep <> a -> hasPair a a (l ++ sep :: r) -> hasPair a a l \/ hasPair a a r.
Proof.
  intros Hsep. induction l as [|x l IH]; cbn [app]; intros H.
  - destruct (hasPair_cons a a sep r H) as [[Heq _]|Hmore]; [contradiction|right; exact Hmore].
  - destruct l as [|y l].
    + cbn [app] in H. cbn [hasPair] in H. destruct H as [[_ Hy]|Hmore]; [contradiction|].
      right. destruct (hasPair_cons a a sep r Hmore) as [[Heq _]|H']; [contradiction|exact H'].
    + cbn [app] in H. cbn [hasPair] in H. destruct H as [Hpair|Hmore].
      * left. cbn [hasPair]. left. exact Hpair.
      * destruct (IH Hmore) as [Hl|Hr]; [left; cbn [hasPair]; right; exact Hl|right; exact Hr].
Qed.

(** Replacing every run of blanks by a space leaves no stray white space and
    no two spaces in a row. *)
Lemma blankRuns_replaced (fuel : nat) :
  forall x, List.length (rest x) < fuel ->
  Forall (fun c => strayWhiteSpace c = false)
    (replaceLoop (plus (Class blank)) [space] fuel x) /\
  ~ hasPair space space (replaceLoop (plus (Class blank)) [space] fuel x) /\
  (startsUnblank (rest x) ->
   startsUnspaced (replaceLoop (plus (Class blank)) [space] fuel x)).
Proof.
  induction fuel as [|fuel IH]; intros x Hfuel; [lia|].
  cbn [replaceLoop]. unfold search.
  pose proof (blankRun_search (rest x) (pos x) (prev x)) as Hsearch.
  destruct (searchLoop (plus (Class blank)) (pos x) (prev x) (rest x)) as [[x0 y]|].
  - destruct Hsearch as [skipped [Hrest [Hall [Hpos [Hlt [Hlen [Hx0 Hy]]]]]]].
    replace (pos y =? pos x0)%N with false by (symmetry; apply N.eqb_neq; lia).
    assert (Hshorter : List.length (rest x) = List.length skipped + List.length (rest x0))
      by (rewrite Hrest at 1; apply length_app).
    destruct (IH y ltac:(lia)) as [Htidy [Hpairs Hstart]].
    assert (Hskipped : matched x x0 = skipped).
    { unfold matched. replace (N.to_nat (pos x0 - pos x)) with (List.length skipped) by lia.
      rewrite Hrest, firstn_app, firstn_all, Nat.sub_diag. cbn. apply app_nil_r. }
    rewrite Hskipped. split; [|split].
    + apply Forall_app. split.
      * eapply Forall_impl; [|exact Hall]. exact blank_false_tidy.
      * constructor; [reflexivity|exact Htidy].
    + intros Hpair. apply hasPair_app_without in Hpair.
      2:{ eapply Forall_impl; [|exact Hall]. exact blank_false_unspaced. }
      cbn [app] in Hpair. apply hasPair_cons in Hpair.
      destruct Hpair as [[_ Hnext]|Hmore]; [|exact (Hpairs Hmore)].
      apply Hnext. exact (Hstart Hy).
    + intros Hstarts. destruct skipped as [|c skipped].
      * cbn [app] in Hrest. rewrite Hrest in Hstarts. contradiction.
      * cbn [app startsUnspaced]. inversion Hall; subst. apply blank_false_unspaced. assumption.
  - split; [|split].
    + eapply Forall_impl; [|exact Hsearch]. exact blank_false_tidy.
    + intros Hpair. rewrite <- (app_nil_r (rest x)) in Hpair.
      apply hasPair_app_without in Hpair; [exact Hpair|].
      eapply Forall_impl; [|exact Hsearch]. exact blank_false_unspaced.
    + intros _. destruct (rest x) as [|c t]; [exact I|].
      inversion Hsearch; subst. apply blank_false_unspaced. assumption.
Qed.

Lemma blankRuns_replaceAll (s : jsstring) :
  Forall (fun c => strayWhiteSpace c = false) (replaceAll s (plus (Class blank)) [space]) /\
  ~ hasPair space space (replaceAll s (plus (Class blank)) [space]).
Proof.
  unfold replaceAll.
  destruct (blankRuns_replaced (S (List.length s)) (start s)) as [Htidy [Hpairs _]];
    [cbn; lia|].
  split; assumption.
Qed.

(** *** trim *)

Lemma dropWhile_app_last {A} (p : A -> bool) (l : list A) (a : A) :
  p a = false -> dropWhile p (l ++ [a]) = dropWhile p l ++ [a].
Proof.
  intros Ha. induction l as [|b l IH]; cbn.
  - rewrite Ha. reflexivity.
  - destruct (p b); [exact IH|reflexivity].
Qed.

Lemma dropWhile_head {A} (p : A -> bool) (l : list A) :
  match dropWhile p l with
  | [] => True
  | a :: _ => p a = false
  end.
Proof.
  induction l as [|b l IH]; cbn; [exact I|].
  destruct (p b) eqn:Hb; [exact IH|exact Hb].
Qed.

Lemma dropWhile_fixed {A} (p : A -> bool) (l : list A) :
  match l with [] => True | a :: _ => p a = false end -> dropWhile p l = l.
Proof.
  destruct l as [|a l]; cbn; [reflexivity|]. intros Ha. rewrite Ha. reflexivity.
Qed.

(** The result of [trim] has white space at neither end. *)
Lemma trim_ends (s : jsstring) :
  match trim s with [] => True | c :: _ => isWhiteSpace c = false end /\
  match rev (trim s) with [] => True | c :: _ => isWhiteSpace c = false end.
Proof.
  unfold trim, trimEnd, trimStart. rewrite rev_involutive.
  split; [|apply dropWhile_head].
  pose proof (dropWhile_head isWhiteSpace s) as Hhead.
  destruct (dropWhile isWhiteSpace s) as [|c t]; [cbn; exact I|].
  cbn [rev]. rewrite dropWhile_app_last by exact Hhead.
  rewrite rev_app_distr. cbn. exact Hhead.
Qed.

Lemma trimmed_of_ends (s : jsstring) :
  match s with [] => True | c :: _ => isWhiteSpace c = false end ->
  match rev s with [] => True | c :: _ => isWhiteSpace c = false end ->
  trim s = s.
Proof.
  intros Hhead Hlast. unfold trim, trimEnd, trimStart.
  rewrite (dropWhile_fixed _ s Hhead), (dropWhile_fixed _ (rev s) Hlast).
  apply rev_involutive.
Qed.

Lemma trim_idempotent (s : jsstring) : trim (trim s) = trim s.
Proof.
  destruct (trim_ends s) as [Hhead Hlast]. exact (trimmed_of_ends _ Hhead Hlast).
Qed.

(** *** Lines *)

Lemma splitChar_nonempty (sep : N) (s : jsstring) : splitChar sep s <> [].
Proof.
  destruct s as [|c s]; cbn; [discriminate|].
  destruct (c =? sep)%N; [discriminate|]. destruct (splitChar sep s); discriminate.
Qed.

Lemma splitChar_pieces (sep : N) (s : jsstring) :
  Forall (Forall (fun c => (c =? sep)%N = false)) (splitChar sep s).
Proof.
  induction s as [|c s IH]; cbn.
  - constructor; constructor.
  - destruct (c =? sep)%N eqn:Hc.
    + constructor; [constructor|exact IH].
    + destruct (splitChar sep s) as [|p ps]; [constructor; [constructor; [exact Hc|constructor]|constructor]|].
      inversion IH; subst. constructor; [constructor; assumption|assumption].
Qed.

Lemma splitChar_app_sep (sep : N) (l s : jsstring) :
  Forall (fun c => (c =? sep)%N = false) l ->
  splitChar sep (l ++ sep :: s) = l :: splitChar sep s.
Proof.
  induction l as [|c l IH]; cbn; intros H.
  - rewrite N.eqb_refl. reflexivity.
  - inversion H as [|? ? Hc Hl]; subst. rewrite Hc, (IH Hl). reflexivity.
Qed.

Lemma splitChar_line (sep : N) (l : jsstring) :
  Forall (fun c => (c =? sep)%N = false) l -> splitChar sep l = [l].
Proof.
  induction l as [|c l IH]; cbn; intros H; [reflexivity|].
  inversion H as [|? ? Hc Hl]; subst. rewrite Hc, (IH Hl). reflexivity.
Qed.

(** The first piece of a split starts the text. *)
Lemma splitChar_first (sep : N) (s : jsstring) :
  match splitChar sep s with
  | p :: _ => exists after, s = p ++ after
  | [] => False
  end.
Proof.
  induction s as [|c s IH]; cbn [splitChar].
  - exists []. reflexivity.
  - destruct (c =? sep)%N; [exists (c :: s); reflexivity|].
    destruct (splitChar sep s) as [|p ps]; [contradiction|].
    destruct IH as [after Hs]. exists after. cbn [app]. rewrite Hs at 1. reflexivity.
Qed.

Lemma hasPair_tail (a b x : N) (s : jsstring) : hasPair a b s -> hasPair a b (x :: s).
Proof. destruct s as [|y s]; [intros []|]. intros H. cbn [hasPair]. right. exact H. Qed.

Lemma splitChar_noPair (a sep : N) (s : jsstring) :
  ~ hasPair a a s -> Forall (fun l => ~ hasPair a a l) (splitChar sep s).
Proof.
  induction s as [|c s IH]; cbn [splitChar]; intros Hs.
  - constructor; [intros []|constructor].
  - assert (Htail : ~ hasPair a a s) by (intros H; exact (Hs (hasPair_tail a a c s H))).
    specialize (IH Htail).
    destruct (c =? sep)%N; [constructor; [intros []|exact IH]|].
    pose proof (splitChar_first sep s) as Hfirst.
    destruct (splitChar sep s) as [|p ps]; [contradiction|].
    destruct Hfirst as [after Hp]. inversion IH as [|? ? Hpiece Hpieces]; subst.
    constructor; [|exact Hpieces].
    intros Hpair. apply hasPair_cons in Hpair. destruct Hpair as [[Hc Hnext]|Hmore];
      [|exact (Hpiece Hmore)].
    destruct p as [|y p]; [apply Hnext; exact I|].
    apply Hs. cbn [app hasPair]. left. split; [exact Hc|].
    destruct (N.eq_dec y a) as [Hy|Hy]; [exact Hy|]. exfalso. apply Hnext. exact Hy.
Qed.

Lemma join_noPair (a sep : N) (ls : list jsstring) :
  sep <> a ->
  Forall (fun l => ~ hasPair a a l) ls -> ~ hasPair a a (join sep ls).
Proof.
  intros Hsep. induction ls as [|l ls IH]; intros Hall; [intros []|].
  inversion Hall as [|? ? Hl Hls]; subst.
  destruct ls as [|m ms]; [exact Hl|].
  change (join sep (l :: m :: ms)) with (l ++ sep :: join sep (m :: ms)).
  intros Hpair. destruct (hasPair_app_sep a sep _ _ Hsep Hpair) as [H|H];
    [exact (Hl H)|exact (IH Hls H)].
Qed.

Lemma trim_noPair (a : N) (s : jsstring) : ~ hasPair a a s -> ~ hasPair a a (trim s).
Proof.
  intros Hs Hpair. apply Hs. apply infix_hasPair.
  eapply infix_trans; [apply hasPair_infix; exact Hpair|apply infix_trim].
Qed.

(** Splitting the joined lines gives the lines back. *)
Lemma splitChar_join (sep : N) (ls : list jsstring) :
  ls <> [] ->
  Forall (Forall (fun c => (c =? sep)%N = false)) ls ->
  splitChar sep (join sep ls) = ls.
Proof.
  induction ls as [|l ls IH]; intros Hne Hall; [contradiction|].
  inversion Hall as [|? ? Hl Hls]; subst.
  destruct ls as [|m ms]; [exact (splitChar_line sep l Hl)|].
  change (join sep (l :: m :: ms)) with (l ++ sep :: join sep (m :: ms)).
  rewrite (splitChar_app_sep sep l _ Hl), IH; [reflexivity|discriminate|exact Hls].
Qed.

Lemma join_app_last (sep : N) (ls : list jsstring) (l : jsstring) :
  ls <> [] -> join sep (ls ++ [l]) = join sep ls ++ sep :: l.
Proof.
  induction ls as [|m ms IH]; intros Hne; [contradiction|].
  destruct ms as [|n ns]; [reflexivity|].
  change (join sep ((m :: n :: ns) ++ [l])) with (m ++ sep :: join sep ((n :: ns) ++ [l])).
  rewrite IH by discriminate.
  change (join sep (m :: n :: ns)) with (m ++ sep :: join sep (n :: ns)).
  rewrite <- app_assoc. reflexivity.
Qed.

Lemma rev_join (sep : N) (ls : list jsstring) :
  rev (join sep ls) = join sep (map (@rev N) (rev ls)).
Proof.
  induction ls as [|l ls IH]; [reflexivity|].
  destruct ls as [|m ms]; [cbn; reflexivity|].
  change (join sep (l :: m :: ms)) with (l ++ sep :: join sep (m :: ms)).
  rewrite rev_app_distr. cbn [rev]. rewrite IH.
  change (rev (l :: m :: ms)) with (rev (m :: ms) ++ [l]).
  rewrite map_app. cbn [map]. rewrite join_app_last.
  - rewrite <- app_assoc. reflexivity.
  - intros H. apply map_eq_nil in H. cbn in H. exact (app_cons_not_nil _ _ _ (eq_sym H)).
Qed.

(** Dropping the white space at the start of joined lines drops the empty
    first lines. *)
Lemma dropWhile_join (ls : list jsstring) :
  Forall (fun l => match l with [] => True | c :: _ => isWhiteSpace c = false end) ls ->
  exists ls', dropWhile isWhiteSpace (join nl ls) = join nl ls' /\ incl ls' ls.
Proof.
  induction ls as [|l ls IH]; intros Hall.
  - exists []. split; [reflexivity|apply incl_refl].
  - inversion Hall as [|? ? Hl Hls]; subst.
    destruct ls as [|m ms].
    + exists [l]. split; [apply dropWhile_fixed; exact Hl|apply incl_refl].
    + change (join nl (l :: m :: ms)) with (l ++ nl :: join nl (m :: ms)).
      destruct l as [|c l].
      * destruct (IH Hls) as [ls' [Hdrop Hincl]].
        exists ls'. split; [exact Hdrop|apply incl_tl; exact Hincl].
      * exists ((c :: l) :: m :: ms). split; [|apply incl_refl].
        cbn [app dropWhile]. rewrite Hl. reflexivity.
Qed.

(** Trimming joined lines that are trimmed drops empty lines at both ends. *)
Lemma trim_join (ls : list jsstring) :
  Forall trimmed ls ->
  exists ls', trim (join nl ls) = join nl ls' /\ incl ls' ls.
Proof.
  intros Hall. unfold trim, trimEnd, trimStart.
  destruct (dropWhile_join ls) as [ls1 [Hdrop1 Hincl1]].
  { eapply Forall_impl; [|exact Hall]. intros l Hl. rewrite <- Hl. apply trim_ends. }
  rewrite Hdrop1, rev_join.
  destruct (dropWhile_join (map (@rev N) (rev ls1))) as [ls2 [Hdrop2 Hincl2]].
  { apply Forall_forall. intros l Hl. apply in_map_iff in Hl. destruct Hl as [m [Hm Hin]].
    subst l. apply in_rev in Hin. rewrite Forall_forall in Hall.
    rewrite <- (Hall m (Hincl1 m Hin)). apply trim_ends. }
  rewrite Hdrop2, rev_join. exists (map (@rev N) (rev ls2)). split; [reflexivity|].
  intros l Hl. apply in_map_iff in Hl. destruct Hl as [m [Hm Hin]]. subst l.
  apply in_rev in Hin. apply Hincl2 in Hin. apply in_map_iff in Hin.
  destruct Hin as [n [Hn Hin]]. subst m. rewrite rev_involutive.
  apply in_rev in Hin. exact (Hincl1 n Hin).
Qed.

Lemma normalizeText_trimmed (text : jsstring) : trimmed (normalizeText text).
Proof.
  unfold normalizeText, trimmed. destruct text; [reflexivity|]. cbv zeta. apply trim_idempotent.
Qed.

(** X16.  The result of [normalizeText] holds no white space but spaces and
    line feeds (no tab, carriage return, no-break space or other Unicode
    space) and no two spaces in a row; it has white space at neither end, and
    neither has any of its lines. *)
Theorem normalizeText_shape (text : jsstring) :
  forallb (fun c => negb (strayWhiteSpace c)) (normalizeText text) = true /\
  ~ infix [space; space] (normalizeText text) /\
  trimmed (normalizeText text) /\
  Forall trimmed (splitChar nl (normalizeText text)).
Proof.
  unfold normalizeText. destruct text as [|c0 text0].
  { split; [reflexivity|]. split; [|split; [reflexivity|constructor; [reflexivity|constructor]]].
    intros H. exact (infix_hasPair _ _ _ H). }
  cbv zeta.
  set (t4 := replaceAll _ (seqOf [newline; newline; newline; star newline]) [nl; nl]).
  destruct (blankRuns_replaceAll t4) as [Htidy Hpairs].
  set (t5 := replaceAll t4 (plus (Class blank)) [space]) in *.
  split; [|split; [|split; [apply trim_idempotent|]]].
  - apply forallb_forall. intros c Hc. apply negb_true_iff. revert c Hc.
    apply Forall_forall. apply Forall_trim. apply Forall_join; [reflexivity|].
    apply Forall_map. eapply Forall_impl; [intros l Hl; apply Forall_trim; exact Hl|].
    apply Forall_splitChar. exact Htidy.
  - intros Hinfix. apply infix_hasPair in Hinfix. revert Hinfix.
    apply trim_noPair. apply join_noPair; [discriminate|].
    apply Forall_map. eapply Forall_impl; [intros l Hl; apply trim_noPair; exact Hl|].
    apply splitChar_noPair. exact Hpairs.
  - assert (Htrimmed : Forall trimmed (map trim (splitChar nl t5))).
    { apply Forall_map. apply Forall_forall. intros l _. apply trim_idempotent. }
    assert (Hpieces : Forall (Forall (fun c => (c =? nl)%N = false))
                        (map trim (splitChar nl t5))).
    { apply Forall_map. eapply Forall_impl; [intros l Hl; apply Forall_trim; exact Hl|].
      apply splitChar_pieces. }
    destruct (trim_join _ Htrimmed) as [ls' [Hjoin Hincl]]. rewrite Hjoin.
    destruct ls' as [|l ls']; [constructor; [reflexivity|constructor]|].
    rewrite splitChar_join.
    + apply Forall_forall. intros m Hm. rewrite Forall_forall in Htrimmed.
      exact (Htrimmed m (Hincl m Hm)).
    + discriminate.
    + apply Forall_forall. intros m Hm. rewrite Forall_forall in Hpieces.
      exact (Hpieces m (Hincl m Hm)).
Qed.

End NormalizedShape.

(* ------------------------------------------------------------------ *)
(** ** The chunker on the texts it is given *)

(** C1.  [createHealthCheckChunks] is private to the parser; its one call,
    in [parseReport], passes the result of [normalizeText] and the default
    sizes.  For every such text that is not empty the call returns, and
    returns at least one chunk: the chunks pushed by the loop over the
    sections when there are some, and otherwise exactly one fallback chunk,
    labelled General, with chunkIndex 0 and startChar 0, whose content is the
    first [2 * maxChunkSize] characters (or fewer, when the text is shorter)
    of the trimmed text.  The same holds with any chunk size of at least
    one in place of the default. *)
Theorem normalized_input_gives_a_chunk
    (toLowerCase : jsstring -> jsstring) (rawText : jsstring) :
  normalizeText rawText <> [] ->
  givesAChunk toLowerCase defaultMaxChunkSize defaultOverlap (normalizeText rawText) /\
  (forall maxChunkSize overlap : nat,
     0 < maxChunkSize ->
     givesAChunk toLowerCase maxChunkSize overlap (normalizeText rawText)).
Proof.
  intros Hcontent.
  assert (Hnonblank : trim (normalizeText rawText) <> []).
  { rewrite (normalizeText_trimmed rawText). exact Hcontent. }
  split.
  - apply nonblank_input_gives_a_chunk; [unfold defaultMaxChunkSize; lia|exact Hnonblank].
  - intros maxChunkSize overlap Hmax.
    apply nonblank_input_gives_a_chunk; [exact Hmax|exact Hnonblank].
Qed.

Lemma normalized_input_gives_a_chunk_witness :
  givesAChunk toLowerAscii defaultMaxChunkSize defaultOverlap
    (normalizeText (js "\t short \r\n")) /\
  (forall maxChunkSize overlap : nat,
     0 < maxChunkSize ->
     givesAChunk toLowerAscii maxChunkSize overlap (normalizeText (js "\t short \r\n"))).
Proof.
  apply (normalized_input_gives_a_chunk toLowerAscii (js "\t short \r\n")).
  vm_compute. discriminate.
Defined.

(* ------------------------------------------------------------------ *)
(** ** parseReport: the document returned *)

Section ParsedDocuments.
Import TextShape ReportFile.

Variable toLowerCase : jsstring -> jsstring.
Variable buffer : Type.
Variables pdfParse pdfParseFallback mammothExtractRawText : buffer -> outcome jsstring.
Variable toUtf8 : buffer -> jsstring.

Lemma trimmed_blank (s : jsstring) : trimmed s -> (trim s = [] <-> s = []).
Proof. unfold trimmed. intros H. rewrite H. reflexivity. Qed.

Lemma chunks_empty_iff_blank (maxChunkSize overlap_ : nat) (text : jsstring)
    (result : list chunk) :
  createHealthCheckChunks toLowerCase maxChunkSize overlap_ text = Some result ->
  (result = [] <-> trim text = []).
Proof.
  unfold createHealthCheckChunks.
  destruct (List.length (trim text) =? 0) eqn:Hblank.
  - intros H. injection H as H. subst result. apply Nat.eqb_eq in Hblank.
    split; [intros _|reflexivity]. apply length_zero_iff_nil. exact Hblank.
  - apply Nat.eqb_neq in Hblank.
    assert (Hne : trim text <> []) by (intros H; apply Hblank; rewrite H; reflexivity).
    destruct (sectionChunks _ _ _ text) as [body|]; [|discriminate].
    destruct (List.length body =? 0) eqn:Hbody; cbn [andb].
    + destruct (0 <? List.length (trim text)) eqn:Hpos.
      * intros H. injection H as H. subst result. split; [discriminate|contradiction].
      * apply Nat.ltb_ge in Hpos. lia.
    + intros H. injection H as H. subst result. apply Nat.eqb_neq in Hbody.
      split; [intros H; subst body; contradiction|contradiction].
Qed.

(** What [parseReport] does with the extracted text. *)
Lemma parseReport_after_extraction
    (fileBuffer : buffer) (filename_ fileType_ rawText0 : jsstring) :
  extractText buffer pdfParse pdfParseFallback mammothExtractRawText toUtf8
    fileBuffer fileType_ = Returns rawText0 ->
  (trim rawText0 = [] ->
   parseReport toLowerCase buffer pdfParse pdfParseFallback mammothExtractRawText toUtf8
     fileBuffer filename_ fileType_
   = Throws (Error (js "No text content could be extracted from the file"))) /\
  (trim rawText0 <> [] ->
   exists chunks_,
     createHealthCheckChunks toLowerCase defaultMaxChunkSize defaultOverlap
       (normalizeText rawText0) = Some chunks_ /\
     parseReport toLowerCase buffer pdfParse pdfParseFallback mammothExtractRawText toUtf8
       fileBuffer filename_ fileType_
     = Returns (mkDocument filename_ fileType_ (normalizeText rawText0) chunks_) /\
     (chunks_ = [] <-> normalizeText rawText0 = [])).
Proof.
  intros Hextract. unfold parseReport. rewrite Hextract. split.
  - intros Hblank. rewrite Hblank. cbn [List.length Nat.eqb]. rewrite orb_true_r. reflexivity.
  - intros Hcontent.
    assert (Hlen : (List.length (trim rawText0) =? 0) = false).
    { apply Nat.eqb_neq. intros H. apply Hcontent. apply length_zero_iff_nil. exact H. }
    assert (Hraw : (List.length rawText0 =? 0) = false).
    { apply Nat.eqb_neq. intros H. apply length_zero_iff_nil in H. subst rawText0.
      apply Hcontent. reflexivity. }
    rewrite Hlen, Hraw. cbn [orb]. cbv zeta.
    destruct (sectionChunks_total toLowerCase defaultMaxChunkSize defaultOverlap
                ltac:(unfold defaultMaxChunkSize; lia) (normalizeText rawText0)) as [body Hbody].
    destruct (createHealthCheckChunks toLowerCase defaultMaxChunkSize defaultOverlap
                (normalizeText rawText0)) as [chunks_|] eqn:Hrun.
    + exists chunks_. split; [reflexivity|]. split; [reflexivity|].
      rewrite <- (trimmed_blank _ (normalizeText_trimmed rawText0)).
      exact (chunks_empty_iff_blank _ _ _ _ Hrun).
    + unfold createHealthCheckChunks in Hrun. rewrite Hbody in Hrun.
      destruct (List.length (trim (normalizeText rawText0)) =? 0); [discriminate Hrun|].
      destruct ((List.length body =? 0) && (0 <? List.length (trim (normalizeText rawText0))));
        discriminate Hrun.
Qed.

(** X17.  Once the text of the file is extracted, [parseReport] ends: it
    throws 'No text content could be extracted from the file' when the text
    is blank, and otherwise returns the document that holds the normalized
    text and the chunks that [createHealthCheckChunks] makes of it with the
    default sizes; the document has no chunk exactly when the normalized
    text is empty.  (That happens: [trim] keeps a Mongolian vowel separator,
    [normalizeText] turns it into a space.) *)
Theorem parseReport_outcome
    (fileBuffer : buffer) (filename_ fileType_ rawText0 : jsstring) :
  extractText buffer pdfParse pdfParseFallback mammothExtractRawText toUtf8
    fileBuffer fileType_ = Returns rawText0 ->
  (trim rawText0 = [] ->
   parseReport toLowerCase buffer pdfParse pdfParseFallback mammothExtractRawText toUtf8
     fileBuffer filename_ fileType_
   = Throws (Error (js "No text content could be extracted from the file"))) /\
  (trim rawText0 <> [] ->
   exists chunks_,
     createHealthCheckChunks toLowerCase defaultMaxChunkSize defaultOverlap
       (normalizeText rawText0) = Some chunks_ /\
     parseReport toLowerCase buffer pdfParse pdfParseFallback mammothExtractRawText toUtf8
       fileBuffer filename_ fileType_
     = Returns (mkDocument filename_ fileType_ (normalizeText rawText0) chunks_) /\
     (chunks_ = [] <-> normalizeText rawText0 = [])).
Proof.
  exact (parseReport_after_extraction fileBuffer filename_ fileType_ rawText0).
Qed.

End ParsedDocuments.

Lemma parseReport_outcome_witness :
  (trim FileExamples.vowelSeparator = [] ->
   ReportFile.parseReport toLowerAscii jsstring FileExamples.noLibrary FileExamples.noLibrary
     FileExamples.noLibrary FileExamples.decoded FileExamples.vowelSeparator (js "a.txt")
     ReportFile.textType
   = ReportFile.Throws
       (ReportFile.Error (js "No text content could be extracted from the file"))) /\
  (trim FileExamples.vowelSeparator <> [] ->
   exists chunks_,
     createHealthCheckChunks toLowerAscii defaultMaxChunkSize defaultOverlap
       (normalizeText FileExamples.vowelSeparator) = Some chunks_ /\
     ReportFile.parseReport toLowerAscii jsstring FileExamples.noLibrary FileExamples.noLibrary
       FileExamples.noLibrary FileExamples.decoded FileExamples.vowelSeparator (js "a.txt")
       ReportFile.textType
     = ReportFile.Returns
         (ReportFile.mkDocument (js "a.txt") ReportFile.textType
            (normalizeText FileExamples.vowelSeparator) chunks_) /\
     (chunks_ = [] <-> normalizeText FileExamples.vowelSeparator = [])).
Proof.
  apply (parseReport_outcome toLowerAscii jsstring FileExamples.noLibrary FileExamples.noLibrary
           FileExamples.noLibrary FileExamples.decoded FileExamples.vowelSeparator (js "a.txt")
           ReportFile.textType FileExamples.vowelSeparator).
  reflexivity.
Defined.

(* ------------------------------------------------------------------ *)
(** ** The upload route *)

Section UploadLaws.
Import TextShape ReportFile UploadRoute.

Variable toLowerCase : jsstring -> jsstring.
Variable buffer : Type.
Variables pdfParse pdfParseFallback mammothExtractRawText : buffer -> outcome jsstring.
Variable toUtf8 : buffer -> jsstring.
Variable vision : Type.
Variable extractMetricsWithVision : buffer -> outcome (option vision).
Variable keyCount : vision -> nat.

Lemma includesString_false (l : list jsstring) (s entry : jsstring) :
  includesString l s = false -> In entry l -> eqUnits s entry = false.
Proof.
  unfold includesString. intros Hnone Hin.
  destruct (eqUnits s entry) eqn:E; [|reflexivity].
  apply eqUnits_eq in E. subst entry.
  assert (Hsome : existsb (fun entry => eqUnits entry s) l = true).
  { apply existsb_exists. exists s. split; [exact Hin|apply eqUnits_refl]. }
  rewrite Hsome in Hnone. discriminate Hnone.
Qed.

Lemma effectiveFileType_other (filename_ mimeType : jsstring) :
  includesString ALLOWED_EXTENSIONS (getFileExtension toLowerCase filename_) = false ->
  getEffectiveFileType toLowerCase filename_ mimeType = mimeType.
Proof.
  intros Hext. unfold getEffectiveFileType. cbv zeta.
  rewrite (includesString_false _ _ (js ".pdf") Hext) by (cbn; tauto).
  rewrite (includesString_false _ _ (js ".docx") Hext) by (cbn; tauto).
  rewrite (includesString_false _ _ (js ".doc") Hext) by (cbn; tauto).
  rewrite (includesString_false _ _ (js ".txt") Hext) by (cbn; tauto).
  reflexivity.
Qed.

(** X18.  A file whose extension is none of the four known ones and whose
    MIME type is application/x-pdf or application/octet-stream is accepted
    by [isAllowedFile], and [parseReport] then reads it as UTF-8 text: the
    PDF and DOC libraries are not called for it. *)
Theorem accepted_type_without_parser
    (filename_ mimeType : jsstring) (fileBuffer : buffer) :
  includesString ALLOWED_EXTENSIONS (getFileExtension toLowerCase filename_) = false ->
  mimeType = js "application/x-pdf" \/ mimeType = js "application/octet-stream" ->
  isAllowedFile toLowerCase filename_ mimeType = true /\
  extractText buffer pdfParse pdfParseFallback mammothExtractRawText toUtf8 fileBuffer
    (getEffectiveFileType toLowerCase filename_ mimeType)
  = Returns (toUtf8 fileBuffer).
Proof.
  intros Hext Hmime. rewrite (effectiveFileType_other _ _ Hext).
  unfold isAllowedFile. cbv zeta. rewrite Hext.
  destruct Hmime as [Hmime|Hmime]; subst mimeType; split; reflexivity.
Qed.

(** X19.  The upload route changes the report store only when it reports
    success: a failure (status 400, 422 or 500) leaves the store as it was
    and names no session; a success (status 200) comes with the session
    drawn for the upload, under which [get] then returns the name of the file
    and the normalized text of the document, which is not empty. *)
Theorem upload_stores_on_success_only
    (formData : outcome (option (file buffer))) (newSessionId : jsstring) (now : Z)
    (reports reports' : ReportStore.jsMap ReportStore.StoredReport)
    (response : uploadResponse vision) :
  POST toLowerCase buffer pdfParse pdfParseFallback mammothExtractRawText toUtf8
    vision extractMetricsWithVision keyCount formData newSessionId now reports
  = Some (response, reports') ->
  if success response then
    status response = 200 /\
    sessionId response = newSessionId /\
    exists file_ document,
      formData = Returns (Some file_) /\
      parseReport toLowerCase buffer pdfParse pdfParseFallback mammothExtractRawText toUtf8
        (contents file_) (name file_)
        (getEffectiveFileType toLowerCase (name file_) (type_ file_)) = Returns document /\
      rawText document <> [] /\
      ReportStore.get reports' newSessionId
      = Some (ReportStore.mkStored newSessionId (name file_) (rawText document) now)
  else
    reports' = reports /\
    sessionId response = [] /\
    metrics response = None /\
    (status response = 400 \/ status response = 422 \/ status response = 500).
Proof.
  unfold POST.
  destruct formData as [[file_|]|error|]; try discriminate.
  - destruct (negb (isAllowedFile toLowerCase (name file_) (type_ file_))).
    { intros H. injection H as H1 H2. subst response reports'. unfold failure. cbn. tauto. }
    destruct (MAX_FILE_SIZE <? size file_)%N.
    { intros H. injection H as H1 H2. subst response reports'. unfold failure. cbn. tauto. }
    cbv zeta.
    destruct (parseReport _ _ _ _ _ _ (contents file_) (name file_) _)
      as [document|parseError|] eqn:Hparse; try discriminate.
    + destruct ((List.length (rawText document) =? 0)
                || (List.length (trim (rawText document)) =? 0)) eqn:Hblank.
      { intros H. injection H as H1 H2. subst response reports'. unfold failure. cbn. tauto. }
      destruct (metricsFor _ _ _ _ _ _ _ _) as [metrics_|]; [|discriminate].
      intros H. injection H as H1 H2. subst response reports'. cbn [success status sessionId].
      split; [reflexivity|]. split; [reflexivity|].
      exists file_, document. split; [reflexivity|]. split; [exact Hparse|]. split.
      * apply orb_false_iff in Hblank. destruct Hblank as [Hlen _].
        apply Nat.eqb_neq in Hlen. intros H. apply Hlen. rewrite H. reflexivity.
      * unfold ReportStore.get, ReportStore.store. apply mapGet_mapSet_same.
    + intros H. injection H as H1 H2. subst response reports'. unfold failure. cbn. tauto.
  - intros H. injection H as H1 H2. subst response reports'. unfold failure. cbn. tauto.
  - intros H. injection H as H1 H2. subst response reports'. unfold failure. cbn. tauto.
Qed.

(** X20.  The upload of a file named with the extension .txt and within the
    size limit ends, whatever its MIME type: with status 422 and 'Failed to
    parse file: No text content could be extracted from the file' when the
    decoded text is blank, with status 422 and 'Failed to extract content
    from the file.' when the text normalizes to the empty text, and otherwise
    with status 200, the metrics extracted from the normalized text and that
    text stored under the new session. *)
Theorem text_upload_outcome
    (file_ : file buffer) (newSessionId : jsstring) (now : Z)
    (reports : ReportStore.jsMap ReportStore.StoredReport) :
  getFileExtension toLowerCase (name file_) = js ".txt" ->
  (size file_ <= MAX_FILE_SIZE)%N ->
  POST toLowerCase buffer pdfParse pdfParseFallback mammothExtractRawText toUtf8
    vision extractMetricsWithVision keyCount (Returns (Some file_)) newSessionId now reports
  = if List.length (trim (toUtf8 (contents file_))) =? 0 then
      Some (failure vision 422 (name file_)
              (js "Failed to parse file: No text content could be extracted from the file"),
            reports)
    else if List.length (normalizeText (toUtf8 (contents file_))) =? 0 then
      Some (failure vision 422 (name file_) (js "Failed to extract content from the file."),
            reports)
    else
      Some (mkResponse vision 200 true newSessionId (name file_) 1
              (js "Report uploaded and processed successfully")
              (Some (TextMetrics
                       (extractHealthCheckMetrics toLowerCase
                          (normalizeText (toUtf8 (contents file_)))))),
            ReportStore.store now reports newSessionId (name file_)
              (normalizeText (toUtf8 (contents file_)))).
Proof.
  intros Hext Hsize. unfold POST, isAllowedFile, getEffectiveFileType. cbv zeta.
  rewrite Hext. cbn [negb].
  replace (includesString ALLOWED_EXTENSIONS (js ".txt")) with true by reflexivity.
  replace (eqUnits (js ".txt") (js ".pdf")) with false by reflexivity.
  replace (eqUnits (js ".txt") (js ".docx")) with false by reflexivity.
  replace (eqUnits (js ".txt") (js ".doc")) with false by reflexivity.
  replace (eqUnits (js ".txt") (js ".txt")) with true by reflexivity.
  cbn [negb]. replace (MAX_FILE_SIZE <? size file_)%N with false
    by (symmetry; apply N.ltb_ge; exact Hsize).
  assert (Hextract : extractText buffer pdfParse pdfParseFallback mammothExtractRawText toUtf8
                       (contents file_) (js "text/plain") = Returns (toUtf8 (contents file_)))
    by reflexivity.
  destruct (parseReport_after_extraction toLowerCase buffer pdfParse pdfParseFallback
              mammothExtractRawText toUtf8 (contents file_) (name file_) (js "text/plain")
              (toUtf8 (contents file_)) Hextract) as [Hblank Hcontent].
  destruct (List.length (trim (toUtf8 (contents file_))) =? 0) eqn:Hlen.
  - apply Nat.eqb_eq, length_zero_iff_nil in Hlen. rewrite (Hblank Hlen). cbn [messageOf].
    replace (js "Failed to parse file: "
             ++ js "No text content could be extracted from the file")
      with (js "Failed to parse file: No text content could be extracted from the file")
      by (vm_compute; reflexivity).
    reflexivity.
  - assert (Hne : trim (toUtf8 (contents file_)) <> []).
    { intros H. rewrite H in Hlen. discriminate Hlen. }
    destruct (Hcontent Hne) as [chunks_ [_ [Hparse _]]]. rewrite Hparse. cbn [rawText].
    rewrite (normalizeText_trimmed (toUtf8 (contents file_))), orb_diag.
    destruct (List.length (normalizeText (toUtf8 (contents file_))) =? 0); reflexivity.
Qed.

End UploadLaws.

Lemma accepted_type_without_parser_witness :
  UploadRoute.isAllowedFile toLowerAscii (js "report") (js "application/x-pdf") = true /\
  ReportFile.extractText jsstring FileExamples.noLibrary FileExamples.noLibrary
    FileExamples.noLibrary FileExamples.decoded scenario
    (UploadRoute.getEffectiveFileType toLowerAscii (js "report") (js "application/x-pdf"))
  = ReportFile.Returns (FileExamples.decoded scenario).
Proof.
  apply (accepted_type_without_parser toLowerAscii jsstring FileExamples.noLibrary
           FileExamples.noLibrary FileExamples.noLibrary FileExamples.decoded
           (js "report") (js "application/x-pdf") scenario).
  - vm_compute. reflexivity.
  - left. reflexivity.
Defined.

Lemma upload_stores_on_success_only_witness :
  if UploadRoute.success FileExamples.scenarioResponse then
    UploadRoute.status FileExamples.scenarioResponse = 200 /\
    UploadRoute.sessionId FileExamples.scenarioResponse = FileExamples.scenarioSession /\
    exists file_ document,
      ReportFile.Returns (Some FileExamples.scenarioFile) = ReportFile.Returns (Some file_) /\
      ReportFile.parseReport toLowerAscii jsstring FileExamples.noLibrary FileExamples.noLibrary
        FileExamples.noLibrary FileExamples.decoded
        (UploadRoute.contents file_) (UploadRoute.name file_)
        (UploadRoute.getEffectiveFileType toLowerAscii (UploadRoute.name file_)
           (UploadRoute.type_ file_)) = ReportFile.Returns document /\
      ReportFile.rawText document <> [] /\
      ReportStore.get
        (ReportStore.store 7%Z [] FileExamples.scenarioSession (js "report.txt")
           (normalizeText scenario))
        FileExamples.scenarioSession
      = Some (ReportStore.mkStored FileExamples.scenarioSession (UploadRoute.name file_)
                (ReportFile.rawText document) 7%Z)
  else
    ReportStore.store 7%Z [] FileExamples.scenarioSession (js "report.txt")
      (normalizeText scenario) = [] /\
    UploadRoute.sessionId FileExamples.scenarioResponse = [] /\
    UploadRoute.metrics FileExamples.scenarioResponse = None /\
    (UploadRoute.status FileExamples.scenarioResponse = 400 \/
     UploadRoute.status FileExamples.scenarioResponse = 422 \/
     UploadRoute.status FileExamples.scenarioResponse = 500).
Proof.
  apply (upload_stores_on_success_only toLowerAscii jsstring FileExamples.noLibrary
           FileExamples.noLibrary FileExamples.noLibrary FileExamples.decoded unit
           FileExamples.noVision FileExamples.noKeys
           (ReportFile.Returns (Some FileExamples.scenarioFile)) FileExamples.scenarioSession
           7%Z [] (ReportStore.store 7%Z [] FileExamples.scenarioSession (js "report.txt")
                     (normalizeText scenario))
           FileExamples.scenarioResponse).
  vm_compute. reflexivity.
Defined.

Lemma text_upload_outcome_witness :
  FileExamples.scenarioUpload
  = Some (FileExamples.scenarioResponse,
          ReportStore.store 7%Z [] FileExamples.scenarioSession (js "report.txt")
            (normalizeText scenario)).
Proof.
  pose proof (text_upload_outcome toLowerAscii jsstring FileExamples.noLibrary
                FileExamples.noLibrary FileExamples.noLibrary FileExamples.decoded unit
                FileExamples.noVision FileExamples.noKeys FileExamples.scenarioFile
                FileExamples.scenarioSession 7%Z []
                ltac:(vm_compute; reflexivity) ltac:(vm_compute; discriminate)) as Hrun.
  unfold FileExamples.scenarioUpload. rewrite Hrun. vm_compute. reflexivity.
Defined.

(* ------------------------------------------------------------------ *)
(** ** A text of one line *)

Section SingleLine.

(** A pattern that starts with a line feed matches nowhere in a text
    without line feed, and a split on it leaves the text whole. *)
Lemma splitLoop_without_newline (r : regex) (ngroups fuel : nat) :
  forall p x,
    ~ In nl (rest x) ->
    splitLoop (Seq newline r) ngroups fuel p x = [Some (rest p)].
Proof.
  induction fuel as [|fuel IH]; intros p x Hfree; cbn [splitLoop]; [reflexivity|].
  destruct (rest x) as [|c t] eqn:Hrest; [reflexivity|].
  assert (Hmiss : matchAt (Seq newline r) x = None).
  { unfold matchAt, newline, chr. cbn [rmatch rest]. rewrite Hrest.
    destruct (nl =? c)%N eqn:Hc; [|reflexivity].
    apply N.eqb_eq in Hc. exfalso. apply Hfree. left. symmetry. exact Hc. }
  rewrite Hmiss. apply IH. cbn [advance rest]. intros Hin. apply Hfree. right. exact Hin.
Qed.

Lemma splitRegex_without_newline (r : regex) (ngroups : nat) (text : jsstring) :
  text <> [] -> ~ In nl text ->
  splitRegex text (Seq newline r) ngroups = [Some text].
Proof.
  intros Hne Hfree. unfold splitRegex. destruct text as [|c t]; [contradiction|].
  apply (splitLoop_without_newline r ngroups _ (start (c :: t)) (start (c :: t))). exact Hfree.
Qed.

Lemma segment_without_newline (text : jsstring) :
  trim text <> [] -> ~ In nl text -> segment text = [text].
Proof.
  intros Hcontent Hfree.
  assert (Hne : text <> []) by (intros H; subst text; apply Hcontent; reflexivity).
  assert (Hkeep : keepNonBlank [Some text] = [text]).
  { cbn. destruct (trim text); [contradiction|reflexivity]. }
  unfold segment, mainSectionPattern, bulletPattern, paragraphPattern.
  rewrite !(splitRegex_without_newline _ _ text Hne Hfree), Hkeep. reflexivity.
Qed.

(** X21.  A text without line feed whose trimmed form is not empty and fits
    the chunk size gives exactly one chunk: the trimmed text, with index 0
    and the span from 0 to its length, labelled by the classifier, or
    General when it is shorter than 20 characters. *)
Theorem single_line_gives_one_chunk
    (toLowerCase : jsstring -> jsstring) (maxChunkSize overlap : nat) (text : jsstring) :
  ~ In nl text ->
  trim text <> [] ->
  List.length (trim text) <= maxChunkSize ->
  createHealthCheckChunks toLowerCase maxChunkSize overlap text
  = Some [ mkChunk (trim text)
             (if List.length (trim text) <? 20 then "General"%string
              else identifyHealthCheckSection toLowerCase (trim text))
             0 0 (List.length (trim text)) ].
Proof.
  intros Hfree Hcontent Hfits. unfold createHealthCheckChunks, sectionChunks.
  rewrite (segment_without_newline text Hcontent Hfree).
  assert (Hlen : (List.length (trim text) =? 0) = false).
  { apply Nat.eqb_neq. intros H. apply Hcontent. apply length_zero_iff_nil. exact H. }
  rewrite Hlen. cbn [sectionLoop]. unfold processSection. cbn [chunks nextIndex globalCharIndex].
  destruct (List.length (trim text) <? 20) eqn:Hshort.
  - cbn [chunks List.length Nat.eqb andb].
    replace (0 <? List.length (trim text)) with true
      by (symmetry; apply Nat.ltb_lt; apply Nat.eqb_neq in Hlen; lia).
    unfold fallbackChunk. rewrite substring_from_start, firstn_all2 by lia. reflexivity.
  - replace (List.length (trim text) <=? maxChunkSize) with true
      by (symmetry; apply Nat.leb_le; exact Hfits).
    cbn [app chunks List.length Nat.eqb andb]. reflexivity.
Qed.

Lemma single_line_gives_one_chunk_witness :
  chunksOf (js "  Security: rotate the management tokens.  ")
  = Some [ mkChunk (trim (js "  Security: rotate the management tokens.  "))
             (if List.length (trim (js "  Security: rotate the management tokens.  ")) <? 20
              then "General"%string
              else identifyHealthCheckSection toLowerAscii
                     (trim (js "  Security: rotate the management tokens.  ")))
             0 0 (List.length (trim (js "  Security: rotate the management tokens.  "))) ].
Proof.
  apply (single_line_gives_one_chunk toLowerAscii defaultMaxChunkSize defaultOverlap
           (js "  Security: rotate the management tokens.  ")).
  - vm_compute. intuition discriminate.
  - vm_compute. discriminate.
  - vm_compute. lia.
Defined.

End SingleLine.

(* ------------------------------------------------------------------ *)
(** ** The metrics: where the texts come from *)

Section MetricTexts.
Import TextShape.

(** The match found by a search starts and ends inside the text, and its
    captures are runs of characters of the text. *)
Lemma searchLoop_sound (text : jsstring) (r : regex) (s : jsstring) :
  forall (p : N) (pv : option N) (x0 y : mstate),
    (exists before, text = before ++ s) ->
    searchLoop r p pv s = Some (x0, y) ->
    within text x0 /\ within text y /\ reaches anyUnit x0 y /\
    exists skipped, s = skipped ++ rest x0 /\ pos x0 = (p + N.of_nat (List.length skipped))%N.
Proof.
  induction s as [|c t IH]; intros p pv x0 y [before Htext]; cbn [searchLoop].
  - destruct (rmatch r Some (mkState p pv [] [])) as [y'|] eqn:Hrun; [|discriminate].
    intros H. injection H as Hx Hy. subst x0 y'.
    assert (Hwithin : within text (mkState p pv [] []))
      by (split; [exists before; exact Htext|constructor]).
    destruct (rmatch_sound text r anyUnit (classesIn_any r) Some _ y Hrun Hwithin)
      as [y' [Hreach [Hwithin' Hsome]]].
    injection Hsome as Hsome. subst y'.
    split; [exact Hwithin|]. split; [exact Hwithin'|]. split; [exact Hreach|].
    exists []. cbn. split; [reflexivity|lia].
  - destruct (rmatch r Some (mkState p pv (c :: t) [])) as [y'|] eqn:Hrun.
    + intros H. injection H as Hx Hy. subst x0 y'.
      assert (Hwithin : within text (mkState p pv (c :: t) []))
        by (split; [exists before; exact Htext|constructor]).
      destruct (rmatch_sound text r anyUnit (classesIn_any r) Some _ y Hrun Hwithin)
        as [y' [Hreach [Hwithin' Hsome]]].
      injection Hsome as Hsome. subst y'.
      split; [exact Hwithin|]. split; [exact Hwithin'|]. split; [exact Hreach|].
      exists []. cbn. split; [reflexivity|lia].
    + intros Hfound.
      destruct (IH (N.succ p) (Some c) x0 y) as [H1 [H2 [H3 [skipped [Ht Hpos]]]]];
        [exists (before ++ [c]); rewrite <- app_assoc; exact Htext|exact Hfound|].
      split; [exact H1|]. split; [exact H2|]. split; [exact H3|].
      exists (c :: skipped). cbn [app List.length]. split; [rewrite Ht at 1; reflexivity|lia].
Qed.

Lemma firstn_length_firstn {A} (k : nat) (l : list A) :
  firstn (List.length (firstn k l)) l = firstn k l.
Proof.
  rewrite length_firstn. destruct (Nat.le_ge_cases k (List.length l)) as [H|H].
  - rewrite Nat.min_l by exact H. reflexivity.
  - rewrite Nat.min_r by exact H. rewrite firstn_all, firstn_all2 by exact H. reflexivity.
Qed.

(** The result of [match]: the matched text is the run of characters of the
    text at [index], and every capture is a run of characters of the text. *)
Lemma jsMatch_sound (text : jsstring) (r : regex) (m : matchResult) :
  jsMatch text r = Some m ->
  whole m = firstn (List.length (whole m)) (skipn (index m) text) /\
  Forall (fun capture_ => infix (snd capture_) text) (groups m).
Proof.
  unfold jsMatch, search. cbn [start pos prev rest].
  destruct (searchLoop r 0 None text) as [[x0 y]|] eqn:Hsearch; [|discriminate].
  intros H. injection H as H. subst m. cbn [whole index groups].
  destruct (searchLoop_sound text r text 0%N None x0 y) as [_ [[_ Hcaps] [Hreach [skipped [Htext Hpos]]]]];
    [exists []; reflexivity|exact Hsearch|].
  split; [|exact Hcaps].
  replace (skipn (N.to_nat (pos x0)) text) with (rest x0).
  - unfold matched. symmetry. apply firstn_length_firstn.
  - replace (N.to_nat (pos x0)) with (List.length skipped) by lia.
    rewrite Htext at 1. rewrite skipn_app, skipn_all, Nat.sub_diag. reflexivity.
Qed.

Lemma jsMatch_whole_infix (text : jsstring) (r : regex) (m : matchResult) :
  jsMatch text r = Some m -> infix (whole m) text.
Proof.
  intros Hm. destruct (jsMatch_sound text r m Hm) as [Hwhole _]. rewrite Hwhole.
  eapply infix_trans; [apply infix_firstn|apply infix_skipn].
Qed.

Lemma capture1_infix (text : jsstring) (r : regex) (m : matchResult) :
  jsMatch text r = Some m -> infix (capture1 m) text.
Proof.
  intros Hm. destruct (jsMatch_sound text r m Hm) as [_ Hcaps].
  unfold capture1, group. destruct (capture 1 (groups m)) as [v|] eqn:Hcap.
  - apply capture_in in Hcap. rewrite Forall_forall in Hcaps. exact (Hcaps _ Hcap).
  - exists [], text. reflexivity.
Qed.

Lemma probe_verbatim (text : jsstring) (r : regex) (v : jsstring) :
  probe text r = Some v -> infix v text /\ trimmed v.
Proof.
  unfold probe. destruct (jsMatch text r) as [m|] eqn:Hm; [|discriminate].
  intros H. injection H as H. subst v. split; [|apply trim_idempotent].
  eapply infix_trans; [apply infix_trim|exact (capture1_infix text r m Hm)].
Qed.

Lemma firstPageOf_infix (text : jsstring) : infix (firstPageOf text) text.
Proof.
  unfold firstPageOf. destruct (jsMatch text firstPagePattern) as [m|] eqn:Hm.
  - exact (jsMatch_whole_infix text _ m Hm).
  - apply infix_substring.
Qed.

Lemma applyEstimate_texts (m : HealthCheckMetrics) :
  organization (applyEstimate m) = organization m /\
  stack (applyEstimate m) = stack m /\
  runBy (applyEstimate m) = runBy m /\
  lastRun (applyEstimate m) = lastRun m.
Proof.
  destruct m as [organization_ stack_ runBy_ lastRun_ total_ performed_ skipped_
                   actions_ opportunities_ strengths_].
  unfold applyEstimate. cbn [performedChecks].
  destruct performed_ as [performed|]; [|repeat split; reflexivity].
  destruct (truthy (Some performed)); [|repeat split; reflexivity].
  cbv zeta.
  destruct ((_ =? 0)%float || (_ <? _)%float); repeat split; reflexivity.
Qed.

(** X22.  The organization, the stack, the run-by and the last-run texts of
    [extractHealthCheckMetrics], when set, are runs of consecutive characters
    of the report text, with white space at neither end. *)
Theorem metric_texts_are_verbatim
    (toLowerCase : jsstring -> jsstring) (text v : jsstring) :
  In (Some v)
     [ organization (extractHealthCheckMetrics toLowerCase text)
     ; stack (extractHealthCheckMetrics toLowerCase text)
     ; runBy (extractHealthCheckMetrics toLowerCase text)
     ; lastRun (extractHealthCheckMetrics toLowerCase text) ] ->
  infix v text /\ trimmed v.
Proof.
  unfold extractHealthCheckMetrics. cbv zeta.
  destruct (extractChecks _ _) as [performed_ skipped_].
  destruct (fold_left _ _ _) as [[actionsCount oppsCount] strengthsCount].
  match goal with
  | |- context [applyEstimate ?m] =>
      destruct (applyEstimate_texts m) as [H1 [H2 [H3 H4]]]; rewrite H1, H2, H3, H4
  end.
  cbn [organization stack runBy lastRun].
  assert (Hprobe : forall r, probe (firstPageOf text) r = Some v -> infix v text /\ trimmed v).
  { intros r Hr. destruct (probe_verbatim _ r v Hr) as [Hin Htrim].
    split; [|exact Htrim]. eapply infix_trans; [exact Hin|apply firstPageOf_infix]. }
  intros [H|[H|[H|[H|[]]]]].
  - exact (Hprobe _ H).
  - destruct (probe (firstPageOf text) stackLinePattern) as [s|] eqn:Hs.
    + rewrite <- Hs in H. exact (Hprobe _ H).
    + exact (Hprobe _ H).
  - exact (Hprobe _ H).
  - exact (Hprobe _ H).
Qed.

Lemma metric_texts_are_verbatim_witness : infix (js "acme") scenario /\ trimmed (js "acme").
Proof.
  apply (metric_texts_are_verbatim toLowerAscii scenario (js "acme")).
  right. left. vm_compute. reflexivity.
Defined.

(** *** The first page *)

(** A pattern that opens with a lazy run of any characters: where it does
    not match, it matches nowhere further on. *)
Lemma lazyAny_unmatched (r : regex) (x : mstate) (c : N) (t : jsstring) :
  rest x = c :: t ->
  rmatch (Seq (lazyStar anyChar) r) Some x = None ->
  rmatch (Seq (lazyStar anyChar) r) Some (advance x c t) = None.
Proof.
  intros Hrest. unfold lazyStar, anyChar. cbn [rmatch]. rewrite Hrest.
  cbn [List.length advance rest]. rewrite Hrest.
  destruct (rmatch r Some x); [discriminate|].
  replace (pos x <? pos (advance x c t))%N with true
    by (symmetry; apply N.ltb_lt; cbn; lia).
  intros H. exact H.
Qed.

Lemma search_anchored (r : regex) (s : jsstring) :
  forall (p : N) (pv : option N),
    rmatch (Seq (lazyStar anyChar) r) Some (mkState p pv s []) = None ->
    searchLoop (Seq (lazyStar anyChar) r) p pv s = None.
Proof.
  induction s as [|c t IH]; intros p pv Hmiss; cbn [searchLoop]; rewrite Hmiss; [reflexivity|].
  apply IH.
  exact (lazyAny_unmatched r (mkState p pv (c :: t) []) c t eq_refl Hmiss).
Qed.

(** A match of such a pattern starts at the start of the text. *)
Lemma jsMatch_anchored (r : regex) (text : jsstring) (m : matchResult) :
  jsMatch text (Seq (lazyStar anyChar) r) = Some m -> index m = 0.
Proof.
  unfold jsMatch, search. cbn [start pos prev rest].
  destruct (rmatch (Seq (lazyStar anyChar) r) Some (mkState 0 None text [])) as [y|] eqn:Hrun.
  - destruct text as [|c t]; cbn [searchLoop]; rewrite Hrun;
      intros H; injection H as H; subst m; reflexivity.
  - rewrite (search_anchored r text 0%N None Hrun). discriminate.
Qed.

(** X23.  The first page that [extractHealthCheckMetrics] reads the report
    header from is a beginning of the text: the page mark is searched from
    the first character only, and without a page mark the first page is the
    first 3000 characters. *)
Theorem first_page_is_a_prefix (text : jsstring) :
  firstPageOf text = firstn (List.length (firstPageOf text)) text.
Proof.
  unfold firstPageOf. destruct (jsMatch text firstPagePattern) as [m|] eqn:Hm.
  - destruct (jsMatch_sound text _ m Hm) as [Hwhole _].
    rewrite (jsMatch_anchored _ text m Hm) in Hwhole. exact Hwhole.
  - rewrite substring_from_start. symmetry. apply firstn_length_firstn.
Qed.

End MetricTexts.
